(** * MegaMosquito's Pico Servo Tester: a shallow embedding of [main.py]

    The firmware is a set of nested polling loops over two buttons, a rotary
    encoder counter, a relay, four PWM channels and a text display.  Every
    hardware access of the script is an effect of the monad [M] below: a
    read takes the next sample of its device from the [inputs] of the
    [world], and every read and write is appended to the [trace].  The
    loops take a bound [fuel] on their number of passes.

    Python integers are [Z].  The floats of [update_servo] are [spec_float]
    values of an IEEE format [(prec, emax)], with the operations of
    [SpecFloat], which round to nearest, ties to even.

    [DEBUG] is [False] in the script, so [debug(...)] prints nothing; its
    calls are left out.  The interrupt handlers of [rotary_irq_pico.py] only
    feed the counter that [r.value()] reads; the counter values are inputs
    here. *)

From Stdlib Require Import ZArith List String DecimalString Lia Bool.
From Stdlib Require Import Floats.SpecFloat.
Import ListNotations.

Open Scope Z_scope.

(** ** Constants of the script *)

Definition FREQUENCY_MIN : Z := 10.
Definition FREQUENCY_MAX : Z := 200.
Definition SERVO_MIN_MIN : Z := 0.
Definition SERVO_MIN_MAX : Z := 5000.
Definition SERVO_MAX_MIN : Z := 5001.
Definition SERVO_MAX_MAX : Z := 10000.
Definition PWM_ON : Z := 2000.
Definition PWM_OFF : Z := 0.

(** [clamp(val, val_min, val_max)]: [max(val_min, min(val, val_max))]. *)
Definition clamp (val val_min val_max : Z) : Z :=
  Z.max val_min (Z.min val val_max).

(** Python's [str] on an integer. *)
Definition str (z : Z) : string := NilZero.string_of_int (Z.to_int z).

(** ** Devices, globals and the world *)

Inductive button := button_yellow | button_blue.

Inductive pwm := pwm_servo | pwm_green | pwm_blue | pwm_power.

(** What the script does to the outside, in program order. *)
Inductive event :=
| Sleep (ms : Z)                       (* sleep_ms(ms) *)
| PinRead (b : button) (level : Z)     (* b.value() returned level *)
| RotaryRead (v : Z)                   (* r.value() returned v *)
| RelayValue (level : Z)               (* relay.value(level) *)
| PwmFreq (p : pwm) (f : Z)            (* p.freq(f) *)
| PwmDuty (p : pwm) (d : Z)            (* p.duty_u16(d) *)
| OledFill (c : Z)                     (* oled.fill(c) *)
| OledText (s : string) (x y : Z)      (* oled.text(s, x, y) *)
| OledShow.                            (* oled.show() *)

(** The module-level variables [g_frequency] ... [g_percent]. *)
Record globals := mkGlobals {
  g_frequency : Z;
  g_servo_min : Z;
  g_servo_max : Z;
  g_powered : bool;
  g_percent : Z
}.

(** The samples each input device will deliver to the coming reads. *)
Record inputs := mkInputs {
  yellow_in : list Z;
  blue_in : list Z;
  rotary_in : list Z
}.

Record world := mkWorld {
  env : inputs;
  glob : globals;
  trace : list event
}.

Definition initial_globals : globals :=
  {| g_frequency := 50; g_servo_min := 2500; g_servo_max := 8750;
     g_powered := false; g_percent := 50 |}.

Definition initial_world (i : inputs) : world :=
  {| env := i; glob := initial_globals; trace := [] |}.

Definition set_g_frequency (v : Z) (g : globals) : globals :=
  {| g_frequency := v; g_servo_min := g_servo_min g;
     g_servo_max := g_servo_max g; g_powered := g_powered g;
     g_percent := g_percent g |}.

Definition set_g_servo_min (v : Z) (g : globals) : globals :=
  {| g_frequency := g_frequency g; g_servo_min := v;
     g_servo_max := g_servo_max g; g_powered := g_powered g;
     g_percent := g_percent g |}.

Definition set_g_servo_max (v : Z) (g : globals) : globals :=
  {| g_frequency := g_frequency g; g_servo_min := g_servo_min g;
     g_servo_max := v; g_powered := g_powered g;
     g_percent := g_percent g |}.

Definition set_g_powered (v : bool) (g : globals) : globals :=
  {| g_frequency := g_frequency g; g_servo_min := g_servo_min g;
     g_servo_max := g_servo_max g; g_powered := v;
     g_percent := g_percent g |}.

Definition set_g_percent (v : Z) (g : globals) : globals :=
  {| g_frequency := g_frequency g; g_servo_min := g_servo_min g;
     g_servo_max := g_servo_max g; g_powered := g_powered g;
     g_percent := v |}.

(** ** The effect monad

    A computation ends in one of four ways: it returns ([Done]); it waits at
    a read for which the world holds no further sample ([Blocked]); the
    iteration bound of a loop is used up ([OutOfFuel]); or an uncaught Python
    exception stops the script ([Raised]).  Each carries the world reached. *)

Inductive res (A : Type) :=
| Done (a : A) (w : world)
| Blocked (w : world)
| OutOfFuel (w : world)
| Raised (w : world).

Arguments Done {A} a w.
Arguments Blocked {A} w.
Arguments OutOfFuel {A} w.
Arguments Raised {A} w.

Definition world_of {A} (r : res A) : world :=
  match r with
  | Done _ w | Blocked w | OutOfFuel w | Raised w => w
  end.

Definition M (A : Type) : Type := world -> res A.

Definition ret {A} (a : A) : M A := fun w => Done a w.

Definition bind {A B} (m : M A) (k : A -> M B) : M B :=
  fun w =>
    match m w with
    | Done a w' => k a w'
    | Blocked w' => Blocked w'
    | OutOfFuel w' => OutOfFuel w'
    | Raised w' => Raised w'
    end.

Definition out_of_fuel {A} : M A := fun w => OutOfFuel w.
Definition raise {A} : M A := fun w => Raised w.

Declare Scope prog_scope.
Delimit Scope prog_scope with prog.
Notation "x <- m ;; k" := (bind m (fun x => k))
  (at level 61, m at next level, right associativity) : prog_scope.
Notation "m ;; k" := (bind m (fun _ => k))
  (at level 61, right associativity) : prog_scope.
Open Scope prog_scope.

Definition emit (e : event) : M unit :=
  fun w => Done tt {| env := env w; glob := glob w; trace := trace w ++ [e] |}.

Definition get_globals : M globals := fun w => Done (glob w) w.

Definition modify_globals (f : globals -> globals) : M unit :=
  fun w => Done tt {| env := env w; glob := f (glob w); trace := trace w |}.

(** [b.value()]: the next level of the pin (0 while the button is held). *)
Definition pin_value (b : button) : M Z :=
  fun w =>
    let i := env w in
    match b with
    | button_yellow =>
        match yellow_in i with
        | [] => Blocked w
        | v :: rest =>
            Done v {| env := {| yellow_in := rest; blue_in := blue_in i;
                                rotary_in := rotary_in i |};
                      glob := glob w;
                      trace := trace w ++ [PinRead button_yellow v] |}
        end
    | button_blue =>
        match blue_in i with
        | [] => Blocked w
        | v :: rest =>
            Done v {| env := {| yellow_in := yellow_in i; blue_in := rest;
                                rotary_in := rotary_in i |};
                      glob := glob w;
                      trace := trace w ++ [PinRead button_blue v] |}
        end
    end.

(** [r.value()]: a snapshot of the encoder's unbounded counter. *)
Definition rotary_value : M Z :=
  fun w =>
    let i := env w in
    match rotary_in i with
    | [] => Blocked w
    | v :: rest =>
        Done v {| env := {| yellow_in := yellow_in i; blue_in := blue_in i;
                            rotary_in := rest |};
                  glob := glob w;
                  trace := trace w ++ [RotaryRead v] |}
    end.

Definition sleep_ms (ms : Z) : M unit := emit (Sleep ms).
Definition relay_value (level : Z) : M unit := emit (RelayValue level).
Definition pwm_freq (p : pwm) (f : Z) : M unit := emit (PwmFreq p f).
Definition pwm_duty_u16 (p : pwm) (d : Z) : M unit := emit (PwmDuty p d).
Definition oled_fill (c : Z) : M unit := emit (OledFill c).
Definition oled_text (s : string) (x y : Z) : M unit := emit (OledText s x y).
Definition oled_show : M unit := emit OledShow.

(** ** Loops *)

(** The result of one pass through the body of a [while True:] loop. *)
Inductive flow (L R : Type) :=
| Continue (l : L)
| Return (r : R).

Arguments Continue {L R} l.
Arguments Return {L R} r.

(** [while True: body], left by a [return] of the body. *)
Fixpoint loop {L R} (fuel : nat) (body : L -> M (flow L R)) (l : L) : M R :=
  match fuel with
  | O => out_of_fuel
  | S f =>
      x <- body l ;;
      match x with
      | Continue l' => loop f body l'
      | Return r => ret r
      end
  end.

(** [while cond: body] over the local variables [l]. *)
Fixpoint while {L} (fuel : nat) (cond : L -> bool) (body : L -> M L) (l : L)
  : M L :=
  match fuel with
  | O => out_of_fuel
  | S f => if cond l then (l' <- body l ;; while f cond body l') else ret l
  end.

(** ** [button_pressed] *)

(** [while b.value() == 0: sleep_ms(50)] *)
Fixpoint wait_release (fuel : nat) (b : button) : M unit :=
  match fuel with
  | O => out_of_fuel
  | S f =>
      v <- pin_value b ;;
      if v =? 0 then (sleep_ms 50 ;; wait_release f b) else ret tt
  end.

Definition button_pressed (fuel : nat) (b : button) : M bool :=
  v <- pin_value b ;;
  if v =? 0 then (wait_release fuel b ;; ret true) else ret false.

(** ** Value editing: [update_one_setting] *)

Definition show_one_setting (setting_name : string)
    (setting_min setting_max value : Z) : M unit :=
  oled_fill 0 ;;
  oled_text "MegaMosquito's" 5 5 ;;
  oled_text ("Set: " ++ setting_name) 5 15 ;;
  oled_text ("{" ++ str setting_min ++ "..." ++ str setting_max ++ "}") 5 25 ;;
  oled_text ("--> " ++ str value) 5 40 ;;
  oled_text "YB:Cancel,BB:OK" 5 50 ;;
  oled_show.

(** The local variables [r_val_old] and [value] of the editing loop. *)
Record edit_locals := mkEdit {
  e_r_val_old : Z;
  e_value : Z
}.

Definition update_one_setting_body (fuel : nat) (setting_name : string)
    (setting_min setting_max original_value : Z) (l : edit_locals)
  : M (flow edit_locals Z) :=
  yellow <- button_pressed fuel button_yellow ;;
  if yellow then ret (Return original_value) else
  blue <- button_pressed fuel button_blue ;;
  if blue then ret (Return (e_value l)) else
  r_val_new <- rotary_value ;;
  if negb (e_r_val_old l =? r_val_new) then
    let diff := e_r_val_old l - r_val_new in
    let value := clamp (e_value l + diff) setting_min setting_max in
    show_one_setting setting_name setting_min setting_max value ;;
    ret (Continue {| e_r_val_old := r_val_new; e_value := value |})
  else ret (Continue l).

Definition update_one_setting (fuel : nat) (setting_name : string)
    (setting_min setting_max original_value : Z) : M Z :=
  r_val_old <- rotary_value ;;
  let value := original_value in
  show_one_setting setting_name setting_min setting_max value ;;
  loop fuel
    (update_one_setting_body fuel setting_name setting_min setting_max
       original_value)
    {| e_r_val_old := r_val_old; e_value := value |}.

(** ** The three settings *)

Definition set_frequency (fuel : nat) : M unit :=
  g <- get_globals ;;
  v <- update_one_setting fuel "frequency" FREQUENCY_MIN FREQUENCY_MAX
         (g_frequency g) ;;
  modify_globals (set_g_frequency v).

Definition set_min (fuel : nat) : M unit :=
  g <- get_globals ;;
  v <- update_one_setting fuel "servo min" SERVO_MIN_MIN SERVO_MIN_MAX
         (g_servo_min g) ;;
  modify_globals (set_g_servo_min v).

Definition set_max (fuel : nat) : M unit :=
  g <- get_globals ;;
  v <- update_one_setting fuel "servo max" SERVO_MAX_MIN SERVO_MAX_MAX
         (g_servo_max g) ;;
  modify_globals (set_g_servo_max v).

(** ** The settings menu *)

Definition show_settings_menu (which : Z) : M unit :=
  let str_freq : string := if which =? 0 then " ==>"%string else "    "%string in
  let str_min : string := if which =? 1 then " ==>"%string else "    "%string in
  let str_max : string := if which =? 2 then " ==>"%string else "    "%string in
  g <- get_globals ;;
  oled_fill 0 ;;
  oled_text "MegaMosquito's" 5 5 ;;
  oled_text "Settings:" 5 15 ;;
  oled_text (str_freq ++ " Freq(" ++ str (g_frequency g) ++ ")") 5 30 ;;
  oled_text (str_min ++ " Min(" ++ str (g_servo_min g) ++ ")") 5 40 ;;
  oled_text (str_max ++ " Max(" ++ str (g_servo_max g) ++ ")") 5 50 ;;
  oled_show.

(** The local variables of [settings()]. *)
Record settings_locals := mkSettings {
  s_keep_going : bool;
  s_r_val_old : Z;
  s_which : Z
}.

Definition settings_body (fuel : nat) (l : settings_locals)
  : M settings_locals :=
  sleep_ms 50 ;;
  yellow <- button_pressed fuel button_yellow ;;
  let keep_going := if yellow then false else s_keep_going l in
  blue <- button_pressed fuel button_blue ;;
  (if blue then
     (if s_which l =? 0 then set_frequency fuel
      else if s_which l =? 1 then set_min fuel
      else set_max fuel) ;;
     show_settings_menu (s_which l)
   else ret tt) ;;
  r_val_new <- rotary_value ;;
  if negb (s_r_val_old l =? r_val_new) then
    let diff := s_r_val_old l - r_val_new in
    let which := clamp (s_which l + diff) 0 2 in
    show_settings_menu which ;;
    ret {| s_keep_going := keep_going; s_r_val_old := r_val_new;
           s_which := which |}
  else
    ret {| s_keep_going := keep_going; s_r_val_old := s_r_val_old l;
           s_which := s_which l |}.

Definition settings_loop (fuel : nat) (l : settings_locals)
  : M settings_locals :=
  while fuel s_keep_going (settings_body fuel) l.

Definition settings (fuel : nat) : M unit :=
  let keep_going := true in
  r_val_old <- rotary_value ;;
  let which := 0 in
  show_settings_menu which ;;
  settings_loop fuel {| s_keep_going := keep_going; s_r_val_old := r_val_old;
                        s_which := which |} ;;
  ret tt.

(** ** The main menu screen *)

Definition show_main_menu (which : Z) : M unit :=
  let str_set : string := if which =? 0 then " ==>"%string else "    "%string in
  let str_test : string := if which =? 1 then " ==>"%string else "    "%string in
  let str_help : string := if which =? 2 then " ==>"%string else "    "%string in
  oled_fill 0 ;;
  oled_text "MegaMosquito's" 5 5 ;;
  oled_text "Servo Tester" 5 15 ;;
  oled_text (str_set ++ " Settings") 5 30 ;;
  oled_text (str_test ++ " ServoTest") 5 40 ;;
  oled_text (str_help ++ " Help") 5 50 ;;
  oled_show.

(** The help screen of the main loop, left by the yellow button:
    [while not button_pressed(button_yellow): sleep_ms(50)]. *)
Definition show_help : M unit :=
  oled_fill 0 ;;
  oled_text "MegaMosquito's" 5 5 ;;
  oled_text "Servo Tester" 5 15 ;;
  oled_text "YELLOW = Back" 5 30 ;;
  oled_text "BLUE = Select/" 5 40 ;;
  oled_text "       Enable" 5 50 ;;
  oled_show.

Definition help_wait (fuel : nat) : M unit :=
  loop fuel
    (fun _ : unit =>
       yellow <- button_pressed fuel button_yellow ;;
       if yellow then ret (Return tt) else (sleep_ms 50 ;; ret (Continue tt)))
    tt.

(** ** The servo test, and the main loop *)

Definition show_test_details : M unit :=
  g <- get_globals ;;
  let powered_str : string := if g_powered g then "YES"%string else "NO"%string in
  let percent_str : string := (str (g_percent g) ++ "%")%string in
  oled_fill 0 ;;
  oled_text "MegaMosquito's" 5 5 ;;
  oled_text "Servo Tester" 5 15 ;;
  oled_text ("* powered=" ++ powered_str) 5 40 ;;
  oled_text ("* percent=" ++ percent_str) 5 50 ;;
  oled_show.

(** The local variables of [run_test()]. *)
Record test_locals := mkTest {
  t_keep_going : bool;
  t_r_val_old : Z
}.

(** The module-level [r_val_old] and [which], which only the main loop uses
    (the functions have locals of their own under these names). *)
Record main_locals := mkMain {
  m_r_val_old : Z;
  m_which : Z
}.

Section Firmware.

(** The format of Python's [float] on the board: [prec] bits of mantissa
    and exponents below [emax] (24 and 128 for MicroPython's single
    precision, 53 and 1024 for double precision). *)
Variables prec emax : Z.

(** An integer operand of a float operation, and the literal [100.0]. *)
Definition float_of_int (z : Z) : spec_float :=
  binary_normalize prec emax z 0 false.

(** [int(x)]: truncation towards zero; an exception on [inf] and [nan]. *)
Definition int_of_float (x : spec_float) : option Z :=
  match x with
  | S754_zero _ => Some 0
  | S754_finite s m e =>
      let a := if 0 <=? e then Zpos m * 2 ^ e else Zpos m / 2 ^ (- e) in
      Some (if s then - a else a)
  | S754_infinity _ | S754_nan => None
  end.

(** [int(g_servo_min + fraction * (g_servo_max - g_servo_min))] with
    [fraction = g_percent / 100.0]. *)
Definition servo_duty (g : globals) : option Z :=
  let fraction := SFdiv prec emax (float_of_int (g_percent g))
                    (float_of_int 100) in
  int_of_float
    (SFadd prec emax (float_of_int (g_servo_min g))
       (SFmul prec emax fraction
          (float_of_int (g_servo_max g - g_servo_min g)))).

Definition update_servo : M unit :=
  g <- get_globals ;;
  match servo_duty g with
  | Some duty => pwm_duty_u16 pwm_servo duty
  | None => raise
  end.

(** Lines 116-129: what [run_test] does before its loop. *)
Definition run_test_init : M unit :=
  g <- get_globals ;;
  pwm_freq pwm_servo (g_frequency g) ;;
  modify_globals (set_g_percent 50) ;;
  modify_globals (set_g_powered false) ;;
  relay_value 1 ;;
  pwm_duty_u16 pwm_blue PWM_ON ;;
  pwm_duty_u16 pwm_green PWM_OFF ;;
  show_test_details ;;
  update_servo.

Definition toggle_power : M unit :=
  modify_globals (fun g => set_g_powered (negb (g_powered g)) g) ;;
  g <- get_globals ;;
  (if g_powered g then
     pwm_duty_u16 pwm_blue PWM_OFF ;;
     pwm_duty_u16 pwm_green PWM_ON ;;
     relay_value 0
   else
     pwm_duty_u16 pwm_blue PWM_ON ;;
     pwm_duty_u16 pwm_green PWM_OFF ;;
     relay_value 1) ;;
  show_test_details ;;
  update_servo.

(** Lines 165-167: [g_percent += diff] and the two saturations. *)
Definition add_percent (diff : Z) (g : globals) : globals :=
  let g1 := set_g_percent (g_percent g + diff) g in
  let g2 := if g_percent g1 <? 0 then set_g_percent 0 g1 else g1 in
  if g_percent g2 >? 100 then set_g_percent 100 g2 else g2.

Definition run_test_body (fuel : nat) (l : test_locals) : M test_locals :=
  sleep_ms 50 ;;
  yellow <- button_pressed fuel button_yellow ;;
  keep_going <- (if yellow
                 then (pwm_duty_u16 pwm_green PWM_OFF ;; ret false)
                 else ret (t_keep_going l)) ;;
  blue <- button_pressed fuel button_blue ;;
  (if blue then toggle_power else ret tt) ;;
  r_val_new <- rotary_value ;;
  if negb (t_r_val_old l =? r_val_new) then
    let diff := t_r_val_old l - r_val_new in
    modify_globals (add_percent diff) ;;
    show_test_details ;;
    update_servo ;;
    ret {| t_keep_going := keep_going; t_r_val_old := r_val_new |}
  else ret {| t_keep_going := keep_going; t_r_val_old := t_r_val_old l |}.

(** Lines 172-175: what [run_test] does after its loop. *)
Definition run_test_exit : M unit :=
  pwm_duty_u16 pwm_blue PWM_OFF ;;
  pwm_duty_u16 pwm_green PWM_OFF ;;
  modify_globals (set_g_powered false) ;;
  relay_value 1.

Definition run_test_loop (fuel : nat) (l : test_locals) : M test_locals :=
  while fuel t_keep_going (run_test_body fuel) l.

Definition run_test (fuel : nat) : M unit :=
  run_test_init ;;
  r_val_old <- rotary_value ;;
  run_test_loop fuel {| t_keep_going := true; t_r_val_old := r_val_old |} ;;
  run_test_exit.

Definition main_body (fuel : nat) (l : main_locals) : M main_locals :=
  sleep_ms 50 ;;
  pwm_duty_u16 pwm_green PWM_OFF ;;
  pwm_duty_u16 pwm_blue PWM_OFF ;;
  blue <- button_pressed fuel button_blue ;;
  (if blue then
     (if m_which l =? 0 then settings fuel
      else if m_which l =? 1 then run_test fuel
      else (show_help ;; help_wait fuel)) ;;
     show_main_menu (m_which l)
   else ret tt) ;;
  r_val_new <- rotary_value ;;
  if negb (m_r_val_old l =? r_val_new) then
    let diff := m_r_val_old l - r_val_new in
    let which := clamp (m_which l + diff) 0 2 in
    show_main_menu which ;;
    ret {| m_r_val_old := r_val_new; m_which := which |}
  else ret l.

Definition main_loop (fuel : nat) (l : main_locals) : M main_locals :=
  while fuel (fun _ => true) (main_body fuel) l.

(** The script from its first effect on: the three LED channels are set
    to 1 kHz, the power LED is lit, and the main menu loops forever. *)
Definition main (fuel : nat) : M main_locals :=
  pwm_freq pwm_green 1000 ;;
  pwm_freq pwm_blue 1000 ;;
  pwm_freq pwm_power 1000 ;;
  pwm_duty_u16 pwm_power 1500 ;;
  r_val_old <- rotary_value ;;
  let which := 0 in
  show_main_menu which ;;
  main_loop fuel {| m_r_val_old := r_val_old; m_which := which |}.

End Firmware.

(** ** Observations on traces and worlds *)

(** The value of the last write selected by [sel], if there was one. *)
Fixpoint last_write (sel : event -> option Z) (t : list event) : option Z :=
  match t with
  | [] => None
  | e :: t' =>
      match last_write sel t' with
      | Some v => Some v
      | None => sel e
      end
  end.

Definition is_relay (e : event) : option Z :=
  match e with RelayValue v => Some v | _ => None end.

Definition is_servo_duty (e : event) : option Z :=
  match e with PwmDuty pwm_servo d => Some d | _ => None end.

Definition is_servo_freq (e : event) : option Z :=
  match e with PwmFreq pwm_servo f => Some f | _ => None end.

(** The level the relay line is held at. *)
Definition relay_level (w : world) : option Z := last_write is_relay (trace w).

(** The duty and the frequency of the servo's PWM channel. *)
Definition servo_duty_out (w : world) : option Z :=
  last_write is_servo_duty (trace w).
Definition servo_freq_out (w : world) : option Z :=
  last_write is_servo_freq (trace w).

(** [relay.value(1)] is what the script does to "disconnect the servo"
    (line 120-123); [relay.value(0)] connects it. *)
Definition RELAY_DISCONNECTED : Z := 1.
Definition RELAY_CONNECTED : Z := 0.

(** The relay line is where the script puts it for the value of
    [g_powered]: 0 when powered, 1 when not. *)
Definition relay_follows_power (w : world) : Prop :=
  relay_level w
  = Some (if g_powered (glob w) then RELAY_CONNECTED else RELAY_DISCONNECTED).

Definition is_sleep (e : event) : bool :=
  match e with Sleep _ => true | _ => false end.

(** The three settings as a triple. *)
Definition settings_of (w : world) : Z * Z * Z :=
  (g_frequency (glob w), g_servo_min (glob w), g_servo_max (glob w)).

Definition settings_in_bounds (w : world) : Prop :=
  FREQUENCY_MIN <= g_frequency (glob w) <= FREQUENCY_MAX /\
  SERVO_MIN_MIN <= g_servo_min (glob w) <= SERVO_MIN_MAX /\
  SERVO_MAX_MIN <= g_servo_max (glob w) <= SERVO_MAX_MAX.

(** The locals after [n] passes through a loop body. *)
Fixpoint iter {L} (n : nat) (body : L -> M L) (l : L) : M L :=
  match n with
  | O => ret l
  | S k => l' <- body l ;; iter k body l'
  end.

(** The value an editing session reaches from [value] when the polls without
    a button read the counter values [rs] after [r_val_old]. *)
Fixpoint edits (setting_min setting_max r_val_old value : Z) (rs : list Z)
  : Z :=
  match rs with
  | [] => value
  | r_val_new :: rs' =>
      edits setting_min setting_max r_val_new
        (if r_val_old =? r_val_new then value
         else clamp (value + (r_val_old - r_val_new)) setting_min setting_max)
        rs'
  end.

(** The levels a button delivers when it is pressed and held for [hold]
    further samples before it is released. *)
Definition press (hold : nat) : list Z := 0 :: repeat 0 hold ++ [1].

(** ** Sample feeds and their logs *)

(** What [wait_release] and [button_pressed] log for a button released
    after [hold] further samples. *)
Fixpoint held_events (b : button) (hold : nat) : list event :=
  match hold with
  | O => [PinRead b 1]
  | S h => PinRead b 0 :: Sleep 50 :: held_events b h
  end.

Definition press_events (b : button) (hold : nat) : list event :=
  PinRead b 0 :: held_events b hold.

(** The inputs with the samples [xs] put in front of those of button [b]. *)
Definition feed (b : button) (xs : list Z) (y bl r : list Z) : inputs :=
  match b with
  | button_yellow => mkInputs (xs ++ y) bl r
  | button_blue => mkInputs y (xs ++ bl) r
  end.

(** The number of [Sleep] events of a trace. *)
Definition sleeps (t : list event) : list event := filter is_sleep t.


(** What [show_test_details] draws for the globals [g]. *)
Definition test_details_events (g : globals) : list event :=
  [OledFill 0;
   OledText "MegaMosquito's" 5 5;
   OledText "Servo Tester" 5 15;
   OledText ("* powered=" ++ (if g_powered g then "YES" else "NO")) 5 40;
   OledText ("* percent=" ++ (str (g_percent g) ++ "%")) 5 50;
   OledShow].

(** The globals on entry to the servo test, and what [run_test] does to the
    outside before it computes the first duty and after its loop. *)
Definition entered (g : globals) : globals :=
  set_g_powered false (set_g_percent 50 g).

Definition entry_events (g : globals) : list event :=
  [PwmFreq pwm_servo (g_frequency g); RelayValue 1;
   PwmDuty pwm_blue PWM_ON; PwmDuty pwm_green PWM_OFF]
  ++ test_details_events (entered g).

Definition exit_events : list event :=
  [PwmDuty pwm_blue PWM_OFF; PwmDuty pwm_green PWM_OFF; RelayValue 1].

(** Three ways a world [w1] can stand to the world [w] in which a pass of
    the test loop began: it extends the log of [w]; it has the globals of
    [w] and no duty was written since; a duty was written since, and the
    last one is the duty of the globals of [w1]. *)
Definition logged_since (w w1 : world) : Prop :=
  exists evs, trace w1 = trace w ++ evs.

Definition duty_untouched (w w1 : world) : Prop :=
  glob w1 = glob w /\
  exists evs, trace w1 = trace w ++ evs /\
              last_write is_servo_duty evs = None.

Definition duty_rewritten (prec emax : Z) (w w1 : world) : Prop :=
  exists evs d, trace w1 = trace w ++ evs /\
                last_write is_servo_duty evs = Some d /\
                servo_duty prec emax (glob w1) = Some d.

(** The specification's formula for the duty, cleared of its denominator:
    [duty = servoMin + (percent / 100) * (servoMax - servoMin)]. *)
Definition duty_as_specified (g : globals) (duty : Z) : Prop :=
  100 * duty = 100 * g_servo_min g
               + g_percent g * (g_servo_max g - g_servo_min g).

(** The whole part of that value. *)
Definition duty_floor (g : globals) : Z :=
  (100 * g_servo_min g + g_percent g * (g_servo_max g - g_servo_min g)) / 100.

(** ** Further observations *)

(** [g_percent] is a percentage. *)
Definition percent_in_range (w : world) : Prop :=
  0 <= g_percent (glob w) <= 100.

(** The relay was never written, or it follows the power flag. *)
Definition relay_undriven_or_follows (w : world) : Prop :=
  relay_level w = None \/ relay_follows_power w.

(** What the relay and the servo channel are held at. *)
Definition servo_outputs (w : world) : option Z * option Z * option Z :=
  (relay_level w, servo_freq_out w, servo_duty_out w).

Definition not_servo_freq (e : event) : bool :=
  match e with PwmFreq pwm_servo _ => false | _ => true end.

(** The samples still to come for button [b]. *)
Definition pin_rest (b : button) (y bl : list Z) : list Z :=
  match b with button_yellow => y | button_blue => bl end.

(** The equality of two floats, as a boolean. *)
Definition float_eqb (x y : spec_float) : bool :=
  match x, y with
  | S754_zero s, S754_zero s' => Bool.eqb s s'
  | S754_infinity s, S754_infinity s' => Bool.eqb s s'
  | S754_nan, S754_nan => true
  | S754_finite s m e, S754_finite s' m' e' =>
      Bool.eqb s s' && Pos.eqb m m' && Z.eqb e e'
  | _, _ => false
  end.

(** *** The display

    [oled.fill(0)] clears the frame buffer, [oled.text] draws a line into
    it and [oled.show()] puts the buffer on the screen: the state is the
    pair of the lines drawn since the last fill and the lines on the
    screen. *)
Definition line : Type := string * Z * Z.

Definition draw (st : list line * list line) (e : event)
  : list line * list line :=
  match e with
  | OledFill _ => ([], snd st)
  | OledText s x y => (fst st ++ [(s, x, y)], snd st)
  | OledShow => (fst st, fst st)
  | _ => st
  end.

Definition display (t : list event) : list line * list line :=
  fold_left draw t ([], []).

(** What the screen shows. *)
Definition screen (w : world) : list line := snd (display (trace w)).

Definition not_oled (e : event) : bool :=
  match e with
  | OledFill _ | OledText _ _ _ | OledShow => false
  | _ => true
  end.

(** The screen of the editor for the value [v], and that of the servo
    test. *)
Definition one_setting_lines (setting_name : string)
    (setting_min setting_max v : Z) : list line :=
  [("MegaMosquito's", 5, 5);
   ("Set: " ++ setting_name, 5, 15);
   ("{" ++ str setting_min ++ "..." ++ str setting_max ++ "}", 5, 25);
   ("--> " ++ str v, 5, 40);
   ("YB:Cancel,BB:OK", 5, 50)]%string.

Definition test_details_lines (powered : bool) (percent : Z) : list line :=
  [("MegaMosquito's", 5, 5);
   ("Servo Tester", 5, 15);
   ("* powered=" ++ (if powered then "YES" else "NO"), 5, 40);
   ("* percent=" ++ (str percent ++ "%"), 5, 50)]%string.

(** What [show_one_setting] logs. *)
Definition one_setting_events (setting_name : string)
    (setting_min setting_max v : Z) : list event :=
  [OledFill 0;
   OledText "MegaMosquito's" 5 5;
   OledText ("Set: " ++ setting_name) 5 15;
   OledText ("{" ++ str setting_min ++ "..." ++ str setting_max ++ "}") 5 25;
   OledText ("--> " ++ str v) 5 40;
   OledText "YB:Cancel,BB:OK" 5 50;
   OledShow].

(** *** The two colours of the indicator LED *)
Definition is_blue_duty (e : event) : option Z :=
  match e with PwmDuty pwm_blue d => Some d | _ => None end.

Definition is_green_duty (e : event) : option Z :=
  match e with PwmDuty pwm_green d => Some d | _ => None end.

Definition blue_led (w : world) : option Z := last_write is_blue_duty (trace w).
Definition green_led (w : world) : option Z :=
  last_write is_green_duty (trace w).

Definition not_blue_duty (e : event) : bool :=
  match e with PwmDuty pwm_blue _ => false | _ => true end.

(** The blue LED is lit exactly when the servo is not powered. *)
Definition blue_shows_unpowered (w : world) : Prop :=
  blue_led w = Some (if g_powered (glob w) then PWM_OFF else PWM_ON).

(** *** The samples of the counter *)
Definition is_rotary_read (e : event) : option Z :=
  match e with RotaryRead v => Some v | _ => None end.

(** The value that the last [r.value()] of the log returned. *)
Definition counter_read (w : world) : option Z :=
  last_write is_rotary_read (trace w).

(** A property of the counter alone: of the samples it still holds and of
    the value it gave last. *)
Definition counter_state (R : list Z -> option Z -> Prop) (w : world)
  : Prop :=
  R (rotary_in (env w)) (counter_read w).

(** Between [w] and [w1] the counter was read, and the last of these reads
    returned [r]: the samples that waited in [w] are those [taken] before,
    then [r], then those that still wait in [w1]; and the last [r.value()]
    of the log of [w1] returned [r]. *)
Definition last_sample (w w1 : world) (r : Z) : Prop :=
  (exists taken, rotary_in (env w) = taken ++ r :: rotary_in (env w1)) /\
  counter_read w1 = Some r.

(** The same when the counter was read exactly once. *)
Definition only_sample (w w1 : world) (r : Z) : Prop :=
  rotary_in (env w) = r :: rotary_in (env w1) /\ counter_read w1 = Some r.

(** Four properties of the counter, relative to the world [w] in which a
    pass began: the samples taken since [w] are a prefix of those that
    waited there; none was taken; [r] was taken last; [r] alone was
    taken. *)
Definition taken_since (w : world) : list Z -> option Z -> Prop :=
  fun rest _ => exists taken, rotary_in (env w) = taken ++ rest.

Definition none_since (w : world) : list Z -> option Z -> Prop :=
  fun rest _ => rest = rotary_in (env w).

Definition read_last (w : world) (r : Z) : list Z -> option Z -> Prop :=
  fun rest o =>
    (exists taken, rotary_in (env w) = taken ++ r :: rest) /\ o = Some r.

Definition read_only (w : world) (r : Z) : list Z -> option Z -> Prop :=
  fun rest o => rotary_in (env w) = r :: rest /\ o = Some r.

(** What [show_main_menu] and [show_settings_menu] put on the screen. *)
Definition main_menu_lines (which : Z) : list line :=
  [("MegaMosquito's", 5, 5);
   ("Servo Tester", 5, 15);
   ((if (which =? 0)%Z then " ==>" else "    ") ++ " Settings", 5, 30);
   ((if (which =? 1)%Z then " ==>" else "    ") ++ " ServoTest", 5, 40);
   ((if (which =? 2)%Z then " ==>" else "    ") ++ " Help", 5, 50)]%string.

Definition settings_menu_lines (which : Z) (g : globals) : list line :=
  [("MegaMosquito's", 5, 5);
   ("Settings:", 5, 15);
   ((if (which =? 0)%Z then " ==>" else "    ")
    ++ " Freq(" ++ str (g_frequency g) ++ ")", 5, 30);
   ((if (which =? 1)%Z then " ==>" else "    ")
    ++ " Min(" ++ str (g_servo_min g) ++ ")", 5, 40);
   ((if (which =? 2)%Z then " ==>" else "    ")
    ++ " Max(" ++ str (g_servo_max g) ++ ")", 5, 50)]%string.

(** What [show_main_menu] and [show_settings_menu] log. *)
Definition main_menu_events (which : Z) : list event :=
  [OledFill 0;
   OledText "MegaMosquito's" 5 5;
   OledText "Servo Tester" 5 15;
   OledText ((if which =? 0 then " ==>" else "    ") ++ " Settings") 5 30;
   OledText ((if which =? 1 then " ==>" else "    ") ++ " ServoTest") 5 40;
   OledText ((if which =? 2 then " ==>" else "    ") ++ " Help") 5 50;
   OledShow].

Definition settings_menu_events (which : Z) (g : globals) : list event :=
  [OledFill 0;
   OledText "MegaMosquito's" 5 5;
   OledText "Settings:" 5 15;
   OledText ((if which =? 0 then " ==>" else "    ")
             ++ " Freq(" ++ str (g_frequency g) ++ ")") 5 30;
   OledText ((if which =? 1 then " ==>" else "    ")
             ++ " Min(" ++ str (g_servo_min g) ++ ")") 5 40;
   OledText ((if which =? 2 then " ==>" else "    ")
             ++ " Max(" ++ str (g_servo_max g) ++ ")") 5 50;
   OledShow].

(** ** A weakest-precondition calculus for [M]

    [wp m Q I w]: from [w], if [m] returns [a] in [w'] then [Q a w'], and if
    it stops in [w'] without returning then [I w']. *)

Definition wp {A} (m : M A) (Q : A -> world -> Prop) (I : world -> Prop)
    (w : world) : Prop :=
  match m w with
  | Done a w' => Q a w'
  | Blocked w' | OutOfFuel w' | Raised w' => I w'
  end.

(** ** Invariants that hold wherever the script stops

    [keeps P m]: from a world in [P], [m] returns in [P] and, when it waits,
    runs out of fuel or raises, it does so in [P].  [quiet ok P] says that
    [P] survives every read and every write whose event is [ok]. *)

Definition keeps {A} (P : world -> Prop) (m : M A) : Prop :=
  forall w, P w -> wp m (fun _ w' => P w') P w.

Definition quiet (ok : event -> bool) (P : world -> Prop) : Prop :=
  forall w i e, P w -> ok e = true ->
    P {| env := i; glob := glob w; trace := trace w ++ [e] |}.

Definition any_event (e : event) : bool := true.

Definition not_relay (e : event) : bool :=
  match e with RelayValue _ => false | _ => true end.

Definition not_servo_duty (e : event) : bool :=
  match e with PwmDuty pwm_servo _ => false | _ => true end.

(** Reads, sleeps, drawing and the LED channels: the events that drive
    neither the relay nor the servo. *)
Definition passive (e : event) : bool :=
  match e with
  | RelayValue _ | PwmFreq pwm_servo _ | PwmDuty pwm_servo _ => false
  | _ => true
  end.

(** ** The calculus *)

Lemma wp_ret {A} (a : A) Q I w : Q a w -> wp (ret a) Q I w.
Proof. exact (fun H => H). Qed.

Lemma wp_bind {A B} (m : M A) (k : A -> M B) Q I w :
  wp m (fun a w' => wp (k a) Q I w') I w -> wp (bind m k) Q I w.
Proof.
  unfold wp, bind. destruct (m w); auto.
Qed.

Lemma wp_mono {A} (m : M A) (Q Q' : A -> world -> Prop) (I I' : world -> Prop) w :
  wp m Q I w ->
  (forall a w', Q a w' -> Q' a w') ->
  (forall w', I w' -> I' w') ->
  wp m Q' I' w.
Proof.
  unfold wp. destruct (m w); auto.
Qed.

Lemma wp_done {A} (m : M A) Q I w a w' :
  wp m Q I w -> m w = Done a w' -> Q a w'.
Proof.
  unfold wp. intros H E. rewrite E in H. exact H.
Qed.

Lemma wp_world {A} (m : M A) (P : world -> Prop) w :
  wp m (fun _ w' => P w') P w -> P (world_of (m w)).
Proof.
  unfold wp. destruct (m w); auto.
Qed.

Lemma wp_emit e Q I w :
  Q tt {| env := env w; glob := glob w; trace := trace w ++ [e] |} ->
  wp (emit e) Q I w.
Proof. exact (fun H => H). Qed.

Lemma wp_get_globals Q I w : Q (glob w) w -> wp get_globals Q I w.
Proof. exact (fun H => H). Qed.

Lemma wp_modify_globals f Q I w :
  Q tt {| env := env w; glob := f (glob w); trace := trace w |} ->
  wp (modify_globals f) Q I w.
Proof. exact (fun H => H). Qed.

Lemma wp_out_of_fuel {A} Q I w : I w -> wp (@out_of_fuel A) Q I w.
Proof. exact (fun H => H). Qed.

Lemma wp_raise {A} Q I w : I w -> wp (@raise A) Q I w.
Proof. exact (fun H => H). Qed.

Lemma wp_while {L} (Inv : L -> world -> Prop) (I : world -> Prop)
    fuel (cond : L -> bool) (body : L -> M L) :
  (forall l w, Inv l w -> I w) ->
  (forall l w, Inv l w -> cond l = true -> wp (body l) Inv I w) ->
  forall l w, Inv l w ->
  wp (while fuel cond body l) (fun l' w' => Inv l' w' /\ cond l' = false) I w.
Proof.
  intros HI Hbody. induction fuel as [|f IH]; intros l w Hinv; cbn.
  - exact (HI _ _ Hinv).
  - destruct (cond l) eqn:Hc.
    + apply wp_bind. eapply wp_mono; [apply Hbody; assumption | | auto].
      cbn. intros l' w' Hl'. apply IH. exact Hl'.
    + apply wp_ret. auto.
Qed.

Lemma wp_loop {L R} (Inv : L -> world -> Prop) (Q : R -> world -> Prop)
    (I : world -> Prop) fuel (body : L -> M (flow L R)) :
  (forall l w, Inv l w -> I w) ->
  (forall l w, Inv l w ->
     wp (body l)
        (fun x w' => match x with Continue l' => Inv l' w' | Return r => Q r w' end)
        I w) ->
  forall l w, Inv l w -> wp (loop fuel body l) Q I w.
Proof.
  intros HI Hbody. induction fuel as [|f IH]; intros l w Hinv; cbn.
  - exact (HI _ _ Hinv).
  - apply wp_bind. eapply wp_mono; [apply Hbody; assumption | | auto].
    cbn. intros [l'|r] w' H; [apply IH; exact H | apply wp_ret; exact H].
Qed.

Lemma wp_iter {L} (Inv : L -> world -> Prop) n (body : L -> M L) :
  (forall l w, Inv l w -> wp (body l) Inv (fun _ => True) w) ->
  forall l w, Inv l w -> wp (iter n body l) Inv (fun _ => True) w.
Proof.
  intros Hbody. induction n as [|k IH]; intros l w Hinv; cbn.
  - exact Hinv.
  - apply wp_bind. eapply wp_mono; [apply Hbody; assumption | | auto].
    cbn. intros l' w' H. apply IH. exact H.
Qed.

Lemma quiet_weaken (ok ok' : event -> bool) P :
  (forall e, ok e = true -> ok' e = true) -> quiet ok' P -> quiet ok P.
Proof. intros Hsub Hq w i e Hw He. apply Hq; auto. Qed.

Lemma keeps_ret {A} P (a : A) : keeps P (ret a).
Proof. intros w Hw. exact Hw. Qed.

Lemma keeps_bind {A B} P (m : M A) (k : A -> M B) :
  keeps P m -> (forall a, keeps P (k a)) -> keeps P (bind m k).
Proof.
  intros Hm Hk w Hw. apply wp_bind.
  eapply wp_mono; [apply Hm; exact Hw | | auto].
  cbn. intros a w' Hw'. apply Hk. exact Hw'.
Qed.

Lemma keeps_get_globals P : keeps P get_globals.
Proof. intros w Hw. exact Hw. Qed.

Lemma keeps_out_of_fuel {A} P : keeps P (@out_of_fuel A).
Proof. intros w Hw. exact Hw. Qed.

Lemma keeps_raise {A} P : keeps P (@raise A).
Proof. intros w Hw. exact Hw. Qed.

Lemma keeps_emit ok P e : quiet ok P -> ok e = true -> keeps P (emit e).
Proof. intros Hq He w Hw. apply (Hq w (env w) e Hw He). Qed.

Lemma keeps_pin_value ok P b :
  quiet ok P -> (forall v, ok (PinRead b v) = true) -> keeps P (pin_value b).
Proof.
  intros Hq Hok w Hw. unfold wp, pin_value.
  destruct b; [destruct (yellow_in (env w)) | destruct (blue_in (env w))];
    cbn; auto.
Qed.

Lemma keeps_rotary_value ok P :
  quiet ok P -> (forall v, ok (RotaryRead v) = true) -> keeps P rotary_value.
Proof.
  intros Hq Hok w Hw. unfold wp, rotary_value.
  destruct (rotary_in (env w)); cbn; auto.
Qed.

Lemma keeps_if {A} P (c : bool) (m1 m2 : M A) :
  keeps P m1 -> keeps P m2 -> keeps P (if c then m1 else m2).
Proof. destruct c; auto. Qed.

Lemma keeps_while {L} P fuel (cond : L -> bool) (body : L -> M L) l :
  (forall l', keeps P (body l')) -> keeps P (while fuel cond body l).
Proof.
  intros Hbody w Hw.
  eapply wp_mono;
    [apply (wp_while (fun _ w' => P w') P fuel cond body) | | ]; cbn; auto.
  - intros l' w' Hw' _. apply Hbody. exact Hw'.
  - intros a w' [H _]. exact H.
Qed.

Lemma keeps_loop {L R} P fuel (body : L -> M (flow L R)) l :
  (forall l', keeps P (body l')) -> keeps P (loop fuel body l).
Proof.
  intros Hbody w Hw.
  apply (wp_loop (fun _ w' => P w') (fun _ w' => P w') P fuel body); auto.
  intros l' w' Hw'. eapply wp_mono; [apply Hbody; exact Hw' | | auto].
  cbn. intros [?|?] ? H; exact H.
Qed.

Lemma keeps_world {A} P (m : M A) w : keeps P m -> P w -> P (world_of (m w)).
Proof. intros Hm Hw. apply wp_world. apply Hm. exact Hw. Qed.

Lemma keeps_modify_globals (P : world -> Prop) f :
  (forall w, P w ->
     P {| env := env w; glob := f (glob w); trace := trace w |}) ->
  keeps P (modify_globals f).
Proof. intros H w Hw. apply H. exact Hw. Qed.

Lemma keeps_True {A} (m : M A) : keeps (fun _ => True) m.
Proof. intros w _. unfold wp. destruct (m w); exact I. Qed.

(** Sequencing under an invariant: the first computation keeps [P], the
    continuation is entered in [P]. *)
Lemma wp_keeps_bind {A B} (P : world -> Prop) (m : M A) (k : A -> M B) Q w :
  keeps P m -> P w ->
  (forall a w', P w' -> wp (k a) Q P w') ->
  wp (bind m k) Q P w.
Proof.
  intros Hm Hw Hk. apply wp_bind.
  eapply wp_mono; [apply Hm; exact Hw | | auto].
  cbn. intros a w' Hw'. apply Hk. exact Hw'.
Qed.

(** The same when only the returning runs matter. *)
Lemma wp_keeps_bind_done {A B} (P : world -> Prop) (m : M A) (k : A -> M B)
    Q w :
  keeps P m -> P w ->
  (forall a w', P w' -> wp (k a) Q (fun _ => True) w') ->
  wp (bind m k) Q (fun _ => True) w.
Proof.
  intros Hm Hw Hk. apply wp_bind.
  eapply wp_mono; [apply Hm; exact Hw | | auto].
  cbn. intros a w' Hw'. apply Hk. exact Hw'.
Qed.

Lemma bind_eq {A B} (m : M A) (k : A -> M B) w a w1 :
  m w = Done a w1 -> bind m k w = k a w1.
Proof. intros H. unfold bind. rewrite H. reflexivity. Qed.

Lemma bind_done {A B} (m : M A) (k : A -> M B) w b w' :
  bind m k w = Done b w' ->
  exists a w1, m w = Done a w1 /\ k a w1 = Done b w'.
Proof.
  unfold bind. destruct (m w) as [a w1| | |]; try discriminate.
  intros H. exists a, w1. auto.
Qed.

Lemma clamp_range val val_min val_max :
  val_min <= val_max -> val_min <= clamp val val_min val_max <= val_max.
Proof. unfold clamp. lia. Qed.

Lemma clamp_inside val val_min val_max :
  val_min <= val <= val_max -> clamp val val_min val_max = val.
Proof. unfold clamp. lia. Qed.

Create HintDb keeps_db.

(** Walks through a sequence, leaving what [keeps_db] does not know. *)
Ltac keeps_seq :=
  repeat lazymatch goal with
    | |- keeps _ (bind _ _) => apply keeps_bind; [ | intros ? ]
    | |- keeps _ (if _ then _ else _) => apply keeps_if
    | |- keeps _ (ret _) => apply keeps_ret
    | |- keeps _ get_globals => apply keeps_get_globals
    | |- keeps _ _ => solve [auto with keeps_db]
    end.

Section Passive.

Variables prec emax : Z.
Variable P : world -> Prop.
Hypothesis HP : quiet passive P.

Lemma keeps_passive e : passive e = true -> keeps P (emit e).
Proof. intros He. eapply keeps_emit; [exact HP | exact He]. Qed.

Lemma keeps_sleep_ms ms : keeps P (sleep_ms ms).
Proof. apply keeps_passive. reflexivity. Qed.

Lemma keeps_pin b : keeps P (pin_value b).
Proof. eapply keeps_pin_value; [exact HP | reflexivity]. Qed.

Lemma keeps_rotary : keeps P rotary_value.
Proof. eapply keeps_rotary_value; [exact HP | reflexivity]. Qed.

Lemma keeps_oled_fill c : keeps P (oled_fill c).
Proof. apply keeps_passive. reflexivity. Qed.

Lemma keeps_oled_text s x y : keeps P (oled_text s x y).
Proof. apply keeps_passive. reflexivity. Qed.

Lemma keeps_oled_show : keeps P oled_show.
Proof. apply keeps_passive. reflexivity. Qed.

Lemma keeps_led_duty p d : p <> pwm_servo -> keeps P (pwm_duty_u16 p d).
Proof. intros Hp. apply keeps_passive. destruct p; first [reflexivity | congruence]. Qed.

Lemma keeps_led_freq p f : p <> pwm_servo -> keeps P (pwm_freq p f).
Proof. intros Hp. apply keeps_passive. destruct p; first [reflexivity | congruence]. Qed.

Lemma keeps_green_duty d : keeps P (pwm_duty_u16 pwm_green d).
Proof. apply keeps_led_duty. discriminate. Qed.

Lemma keeps_blue_duty d : keeps P (pwm_duty_u16 pwm_blue d).
Proof. apply keeps_led_duty. discriminate. Qed.

Hint Resolve keeps_sleep_ms keeps_pin keeps_rotary keeps_oled_fill
  keeps_oled_text keeps_oled_show keeps_green_duty keeps_blue_duty
  : keeps_db.

Lemma keeps_wait_release fuel b : keeps P (wait_release fuel b).
Proof.
  induction fuel as [|f IH]; cbn [wait_release];
    [apply keeps_out_of_fuel|].
  keeps_seq.
Qed.
Hint Resolve keeps_wait_release : keeps_db.

Lemma keeps_button_pressed fuel b : keeps P (button_pressed fuel b).
Proof. unfold button_pressed. keeps_seq. Qed.
Hint Resolve keeps_button_pressed : keeps_db.

Lemma keeps_show_one_setting name mn mx v :
  keeps P (show_one_setting name mn mx v).
Proof. unfold show_one_setting. keeps_seq. Qed.
Hint Resolve keeps_show_one_setting : keeps_db.

Lemma keeps_show_settings_menu which : keeps P (show_settings_menu which).
Proof. unfold show_settings_menu. keeps_seq. Qed.
Hint Resolve keeps_show_settings_menu : keeps_db.

Lemma keeps_show_main_menu which : keeps P (show_main_menu which).
Proof. unfold show_main_menu. keeps_seq. Qed.
Hint Resolve keeps_show_main_menu : keeps_db.

Lemma keeps_show_help : keeps P show_help.
Proof. unfold show_help. keeps_seq. Qed.
Hint Resolve keeps_show_help : keeps_db.

Lemma keeps_show_test_details : keeps P show_test_details.
Proof. unfold show_test_details. keeps_seq. Qed.
Hint Resolve keeps_show_test_details : keeps_db.

Lemma keeps_help_wait fuel : keeps P (help_wait fuel).
Proof. unfold help_wait. apply keeps_loop. intros []. keeps_seq. Qed.
Hint Resolve keeps_help_wait : keeps_db.

Lemma keeps_update_one_setting_body fuel name mn mx orig l :
  keeps P (update_one_setting_body fuel name mn mx orig l).
Proof. unfold update_one_setting_body. keeps_seq. Qed.

Lemma keeps_update_one_setting fuel name mn mx orig :
  keeps P (update_one_setting fuel name mn mx orig).
Proof.
  unfold update_one_setting. keeps_seq.
  apply keeps_loop. intros l. apply keeps_update_one_setting_body.
Qed.
Hint Resolve keeps_update_one_setting : keeps_db.

(** What an editing session returns: the original value, or a value that
    went through [clamp]. *)
Lemma update_one_setting_result fuel name mn mx orig w :
  mn <= mx -> P w ->
  wp (update_one_setting fuel name mn mx orig)
     (fun v w' => P w' /\ (v = orig \/ mn <= v <= mx)) P w.
Proof.
  intros Hb Hw. unfold update_one_setting.
  apply wp_keeps_bind; [auto with keeps_db | exact Hw | ].
  intros r0 w1 Hw1.
  apply wp_keeps_bind; [auto with keeps_db | exact Hw1 | ].
  intros _ w2 Hw2.
  apply (wp_loop
           (fun l w' => P w' /\ (e_value l = orig \/ mn <= e_value l <= mx))
           (fun v w' => P w' /\ (v = orig \/ mn <= v <= mx)) P).
  - intros l w' [H _]. exact H.
  - intros l w' [Hw' Hv]. unfold update_one_setting_body.
    apply wp_keeps_bind; [auto with keeps_db | exact Hw' | ].
    intros [|] w3 Hw3; [apply wp_ret; auto | ].
    apply wp_keeps_bind; [auto with keeps_db | exact Hw3 | ].
    intros [|] w4 Hw4; [apply wp_ret; auto | ].
    apply wp_keeps_bind; [auto with keeps_db | exact Hw4 | ].
    intros r w5 Hw5.
    destruct (negb (e_r_val_old l =? r)).
    + apply wp_keeps_bind; [auto with keeps_db | exact Hw5 | ].
      intros _ w6 Hw6. apply wp_ret. cbn. split; [exact Hw6 | right].
      apply clamp_range. exact Hb.
    + apply wp_ret. auto.
  - cbn. auto.
Qed.

(** The loops keep whatever their state-changing parts keep. *)

Hypothesis keeps_update_servo : keeps P (update_servo prec emax).
Hypothesis keeps_toggle_power : keeps P (toggle_power prec emax).
Hypothesis keeps_add_percent :
  forall diff, keeps P (modify_globals (add_percent diff)).

Lemma keeps_run_test_body fuel l : keeps P (run_test_body prec emax fuel l).
Proof. unfold run_test_body. keeps_seq. Qed.

Lemma keeps_run_test_loop fuel l : keeps P (run_test_loop prec emax fuel l).
Proof.
  unfold run_test_loop. apply keeps_while. intros l'.
  apply keeps_run_test_body.
Qed.

Hypothesis keeps_set_frequency : forall fuel, keeps P (set_frequency fuel).
Hypothesis keeps_set_min : forall fuel, keeps P (set_min fuel).
Hypothesis keeps_set_max : forall fuel, keeps P (set_max fuel).

Lemma keeps_settings_body fuel l : keeps P (settings_body fuel l).
Proof. unfold settings_body. keeps_seq. Qed.

Lemma keeps_settings_loop fuel l : keeps P (settings_loop fuel l).
Proof.
  unfold settings_loop. apply keeps_while. intros l'.
  apply keeps_settings_body.
Qed.
Hint Resolve keeps_settings_loop : keeps_db.

Lemma keeps_settings fuel : keeps P (settings fuel).
Proof. unfold settings. keeps_seq. Qed.
Hint Resolve keeps_settings : keeps_db.

Hypothesis keeps_run_test : forall fuel, keeps P (run_test prec emax fuel).

Lemma keeps_main_body fuel l : keeps P (main_body prec emax fuel l).
Proof. unfold main_body. keeps_seq. Qed.

Lemma keeps_main_loop fuel l : keeps P (main_loop prec emax fuel l).
Proof.
  unfold main_loop. apply keeps_while. intros l'. apply keeps_main_body.
Qed.

Lemma keeps_main fuel : keeps P (main prec emax fuel).
Proof.
  unfold main. keeps_seq; try (apply keeps_led_freq; discriminate);
    try (apply keeps_led_duty; discriminate).
  apply keeps_main_loop.
Qed.

(** The three sleeping loops: when [P] holds once the sleep is logged, the
    rest of the pass keeps it. *)

Ltac after_sleep H :=
  apply wp_bind, wp_emit;
  match goal with
  | |- wp ?m _ _ ?w1 =>
      let Hk := fresh "Hk" in
      assert (Hk : keeps P m) by keeps_seq; exact (Hk w1 H)
  end.

Lemma run_test_body_after_sleep fuel l w :
  P {| env := env w; glob := glob w; trace := trace w ++ [Sleep 50] |} ->
  wp (run_test_body prec emax fuel l) (fun _ w' => P w') P w.
Proof. intros H. unfold run_test_body, sleep_ms. after_sleep H. Qed.

Lemma settings_body_after_sleep fuel l w :
  P {| env := env w; glob := glob w; trace := trace w ++ [Sleep 50] |} ->
  wp (settings_body fuel l) (fun _ w' => P w') P w.
Proof. intros H. unfold settings_body, sleep_ms. after_sleep H. Qed.

Lemma main_body_after_sleep fuel l w :
  P {| env := env w; glob := glob w; trace := trace w ++ [Sleep 50] |} ->
  wp (main_body prec emax fuel l) (fun _ w' => P w') P w.
Proof. intros H. unfold main_body, sleep_ms. after_sleep H. Qed.

End Passive.

(** Properties that no event disturbs and that do not look at [g_powered]
    are kept by the power toggle; those that do not look at [g_percent]
    either are kept by the whole servo test. *)
Section Robust.

Variables prec emax : Z.
Variable P : world -> Prop.
Hypothesis HPany : quiet any_event P.
Hypothesis HPpow : forall w b, P w ->
  P {| env := env w; glob := set_g_powered b (glob w); trace := trace w |}.

Lemma robust_passive : quiet passive P.
Proof. apply (quiet_weaken passive any_event); auto. Qed.

Lemma robust_emit e : keeps P (emit e).
Proof. eapply keeps_emit; [exact HPany | reflexivity]. Qed.

Lemma robust_update_servo : keeps P (update_servo prec emax).
Proof.
  unfold update_servo. apply keeps_bind; [apply keeps_get_globals|].
  intros g. destruct (servo_duty prec emax g);
    [apply robust_emit | apply keeps_raise].
Qed.

Lemma robust_set_powered b : keeps P (modify_globals (set_g_powered b)).
Proof. apply keeps_modify_globals. intros w Hw. apply HPpow. exact Hw. Qed.

Lemma robust_show_test_details : keeps P show_test_details.
Proof. apply keeps_show_test_details. apply robust_passive. Qed.

Hint Resolve robust_emit robust_update_servo robust_set_powered
  robust_show_test_details : keeps_db.

Lemma robust_toggle_power : keeps P (toggle_power prec emax).
Proof.
  unfold toggle_power, relay_value, pwm_duty_u16. keeps_seq.
  apply keeps_modify_globals. intros w Hw. apply HPpow. exact Hw.
Qed.

Lemma robust_run_test_exit : keeps P (run_test_exit).
Proof.
  unfold run_test_exit, relay_value, pwm_duty_u16. keeps_seq.
Qed.

Hypothesis HPpct : forall w p, P w ->
  P {| env := env w; glob := set_g_percent p (glob w); trace := trace w |}.

Lemma robust_set_percent p : keeps P (modify_globals (set_g_percent p)).
Proof. apply keeps_modify_globals. intros w Hw. apply HPpct. exact Hw. Qed.

Lemma robust_add_percent diff : keeps P (modify_globals (add_percent diff)).
Proof.
  apply keeps_modify_globals. intros w Hw. unfold add_percent.
  pose proof (HPpct w (g_percent (glob w) + diff) Hw) as H1.
  pose proof (HPpct _ 0 H1) as H2.
  pose proof (HPpct _ 100 H1) as H3.
  pose proof (HPpct _ 100 H2) as H4.
  cbn in *.
  destruct (g_percent (glob w) + diff <? 0); cbn;
    try match goal with |- context [if ?c then _ else _] => destruct c end;
    assumption.
Qed.

Hint Resolve robust_set_percent robust_add_percent : keeps_db.

Lemma robust_run_test_init : keeps P (run_test_init prec emax).
Proof.
  unfold run_test_init, relay_value, pwm_duty_u16, pwm_freq. keeps_seq.
Qed.

Lemma robust_run_test fuel : keeps P (run_test prec emax fuel).
Proof.
  unfold run_test.
  apply keeps_bind; [apply robust_run_test_init | intros _].
  apply keeps_bind; [apply keeps_rotary; apply robust_passive | intros r].
  apply keeps_bind; [ | intros _; apply robust_run_test_exit].
  apply keeps_run_test_loop;
    auto using robust_passive, robust_update_servo, robust_toggle_power,
      robust_add_percent.
Qed.

End Robust.

(** ** The clamp *)

(** C5.  For integers with [min <= max], [clamp(value + delta, min, max)]
    lies in [[min, max]]; it is [value + delta] itself when that lies in the
    range, and otherwise the bound that was crossed (saturating, not
    wrapping). *)
Theorem clamp_saturates (value delta vmin vmax : Z) (Hrange : vmin <= vmax) :
  vmin <= clamp (value + delta) vmin vmax <= vmax /\
  (vmin <= value + delta <= vmax ->
   clamp (value + delta) vmin vmax = value + delta) /\
  (value + delta < vmin -> clamp (value + delta) vmin vmax = vmin) /\
  (vmax < value + delta -> clamp (value + delta) vmin vmax = vmax).
Proof. unfold clamp. lia. Qed.

Lemma clamp_saturates_witness :
  10 <= clamp (50 + 500) 10 200 <= 200 /\
  (10 <= 50 + 500 <= 200 -> clamp (50 + 500) 10 200 = 50 + 500) /\
  (50 + 500 < 10 -> clamp (50 + 500) 10 200 = 10) /\
  (200 < 50 + 500 -> clamp (50 + 500) 10 200 = 200).
Proof. apply (clamp_saturates 50 500 10 200). lia. Defined.

(** ** The settings stay within their bounds *)

Lemma in_bounds_quiet : quiet any_event settings_in_bounds.
Proof. intros w i e Hw _. exact Hw. Qed.

Lemma in_bounds_passive : quiet passive settings_in_bounds.
Proof. intros w i e Hw _. exact Hw. Qed.

Lemma in_bounds_set_frequency fuel :
  keeps settings_in_bounds (set_frequency fuel).
Proof.
  intros w Hw. unfold set_frequency.
  apply wp_bind, wp_get_globals, wp_bind.
  eapply wp_mono;
    [apply (update_one_setting_result settings_in_bounds in_bounds_passive);
     [unfold FREQUENCY_MIN, FREQUENCY_MAX; lia | exact Hw] | | auto].
  cbn. intros v w' [Hw' Hv]. unfold settings_in_bounds in *. cbn.
  destruct Hw as [Hf _]. destruct Hw' as [_ Hrest].
  split; [ | exact Hrest]. destruct Hv as [->|Hv]; assumption.
Qed.

Lemma in_bounds_set_min fuel : keeps settings_in_bounds (set_min fuel).
Proof.
  intros w Hw. unfold set_min.
  apply wp_bind, wp_get_globals, wp_bind.
  eapply wp_mono;
    [apply (update_one_setting_result settings_in_bounds in_bounds_passive);
     [unfold SERVO_MIN_MIN, SERVO_MIN_MAX; lia | exact Hw] | | auto].
  cbn. intros v w' [Hw' Hv]. unfold settings_in_bounds in *. cbn.
  destruct Hw as (_ & Hm & _). destruct Hw' as (Hf & _ & Hx).
  repeat split; try tauto; destruct Hv as [->|Hv]; tauto.
Qed.

Lemma in_bounds_set_max fuel : keeps settings_in_bounds (set_max fuel).
Proof.
  intros w Hw. unfold set_max.
  apply wp_bind, wp_get_globals, wp_bind.
  eapply wp_mono;
    [apply (update_one_setting_result settings_in_bounds in_bounds_passive);
     [unfold SERVO_MAX_MIN, SERVO_MAX_MAX; lia | exact Hw] | | auto].
  cbn. intros v w' [Hw' Hv]. unfold settings_in_bounds in *. cbn.
  destruct Hw as (_ & _ & Hx). destruct Hw' as (Hf & Hm & _).
  repeat split; try tauto; destruct Hv as [->|Hv]; tauto.
Qed.

Lemma in_bounds_run_test prec emax fuel :
  keeps settings_in_bounds (run_test prec emax fuel).
Proof.
  apply robust_run_test; [exact in_bounds_quiet | | ]; intros w ? Hw; exact Hw.
Qed.

Lemma in_bounds_main prec emax fuel :
  keeps settings_in_bounds (main prec emax fuel).
Proof.
  apply keeps_main;
    auto using in_bounds_passive, in_bounds_set_frequency, in_bounds_set_min,
      in_bounds_set_max, in_bounds_run_test.
Qed.

(** An editing session and a servo test leave the globals, respectively the
    settings, as they found them, wherever they stop. *)
Lemma update_one_setting_globals fuel name mn mx orig w :
  glob (world_of (update_one_setting fuel name mn mx orig w)) = glob w.
Proof.
  apply (keeps_world (fun w' => glob w' = glob w)); [ | reflexivity].
  apply keeps_update_one_setting. intros w1 i e H _. exact H.
Qed.

Lemma run_test_settings prec emax fuel w :
  settings_of (world_of (run_test prec emax fuel w)) = settings_of w.
Proof.
  apply (keeps_world (fun w' => settings_of w' = settings_of w));
    [ | reflexivity].
  apply robust_run_test; [intros w1 i e H _ | intros w1 b H | intros w1 p H];
    exact H.
Qed.

(** A setter returns exactly when its editing session does, and then it
    has assigned the session's result to its own global. *)
Lemma setter_assigns (fuel : nat) (name : string) (mn mx : Z)
    (field : globals -> Z) (set : Z -> globals -> globals) w w' :
  (g <- get_globals ;;
   v <- update_one_setting fuel name mn mx (field g) ;;
   modify_globals (set v)) w = Done tt w' ->
  exists v w1,
    update_one_setting fuel name mn mx (field (glob w)) w = Done v w1 /\
    glob w' = set v (glob w).
Proof.
  intros H. apply bind_done in H. destruct H as (g & w0 & Hg & H).
  inversion Hg; subst g w0; clear Hg.
  apply bind_done in H. destruct H as (v & w1 & Hv & H).
  exists v, w1. split; [exact Hv | ].
  inversion H; subst w'; cbn.
  pose proof (update_one_setting_globals fuel name mn mx (field (glob w)) w)
    as Hg.
  rewrite Hv in Hg. cbn in Hg. rewrite Hg. reflexivity.
Qed.

(** C8.  The settings start as (50, 2500, 8750); wherever the script stands
    after any inputs, the frequency is in [[10, 200]], the servo minimum in
    [[0, 5000]] and the servo maximum in [[5001, 10000]]; the servo test
    never changes a setting, an editing session changes no global, and each
    setter assigns to its own global the value its editing session
    returned. *)
Theorem settings_stay_in_bounds (prec emax : Z) (fuel : nat) (i : inputs) :
  settings_of (initial_world i) = (50, 2500, 8750) /\
  settings_in_bounds (world_of (main prec emax fuel (initial_world i))) /\
  (forall w, settings_of (world_of (run_test prec emax fuel w))
             = settings_of w) /\
  (forall name mn mx orig w,
     glob (world_of (update_one_setting fuel name mn mx orig w)) = glob w) /\
  (forall w w', set_frequency fuel w = Done tt w' ->
     exists v w1,
       update_one_setting fuel "frequency" FREQUENCY_MIN FREQUENCY_MAX
         (g_frequency (glob w)) w = Done v w1 /\
       glob w' = set_g_frequency v (glob w)) /\
  (forall w w', set_min fuel w = Done tt w' ->
     exists v w1,
       update_one_setting fuel "servo min" SERVO_MIN_MIN SERVO_MIN_MAX
         (g_servo_min (glob w)) w = Done v w1 /\
       glob w' = set_g_servo_min v (glob w)) /\
  (forall w w', set_max fuel w = Done tt w' ->
     exists v w1,
       update_one_setting fuel "servo max" SERVO_MAX_MIN SERVO_MAX_MAX
         (g_servo_max (glob w)) w = Done v w1 /\
       glob w' = set_g_servo_max v (glob w)).
Proof.
  split; [reflexivity | ].
  split.
  { apply keeps_world; [apply in_bounds_main | ].
    unfold settings_in_bounds, FREQUENCY_MIN, FREQUENCY_MAX, SERVO_MIN_MIN,
      SERVO_MIN_MAX, SERVO_MAX_MIN, SERVO_MAX_MAX. cbn. lia. }
  split; [intros w; apply run_test_settings | ].
  split; [intros; apply update_one_setting_globals | ].
  split; [ | split]; intros w w' H.
  - exact (setter_assigns fuel "frequency" _ _ g_frequency set_g_frequency
             w w' H).
  - exact (setter_assigns fuel "servo min" _ _ g_servo_min set_g_servo_min
             w w' H).
  - exact (setter_assigns fuel "servo max" _ _ g_servo_max set_g_servo_max
             w w' H).
Qed.

(** The frequency editor turned up by 500 steps and confirmed: the setter
    assigns the clamped 200. *)
Lemma settings_stay_in_bounds_witness :
  exists w',
    set_frequency 5
      (mkWorld (mkInputs [1; 1] [1; 0; 1] [0; -500]) initial_globals [])
    = Done tt w' /\
    g_frequency (glob w') = 200 /\
    settings_in_bounds w'.
Proof.
  destruct (set_frequency 5
              (mkWorld (mkInputs [1; 1] [1; 0; 1] [0; -500])
                 initial_globals []))
    as [[] w'| | |] eqn:E.
  2-4: vm_compute in E; discriminate.
  exists w'. split; [reflexivity | ].
  destruct (proj1 (proj2 (proj2 (proj2 (proj2
              (settings_stay_in_bounds 24 128 5 (mkInputs [] [] []))))))
              _ w' E) as (v & w1 & Hv & Hg).
  vm_compute in Hv. injection Hv as <- _.
  rewrite Hg. split; [reflexivity | ].
  unfold settings_in_bounds. rewrite Hg. vm_compute.
  repeat split; discriminate.
Defined.

(** ** Running the loops on given samples *)

Lemma wait_release_run b hold : forall fuel y bl r g t,
  (hold < fuel)%nat ->
  wait_release fuel b (mkWorld (feed b (repeat 0 hold ++ [1]) y bl r) g t)
  = Done tt (mkWorld (mkInputs y bl r) g (t ++ held_events b hold)).
Proof.
  induction hold as [|h IH]; intros fuel y bl r g t Hf;
    (destruct fuel as [|f]; [lia | ]).
  - destruct b; reflexivity.
  - assert (Hh : (h < f)%nat) by lia.
    destruct b; cbn [wait_release]; unfold bind, pin_value, feed; cbn;
      unfold feed in IH; rewrite IH by exact Hh;
      rewrite <- !app_assoc; reflexivity.
Qed.

Lemma button_pressed_press b hold fuel y bl r g t :
  (hold < fuel)%nat ->
  button_pressed fuel b (mkWorld (feed b (press hold) y bl r) g t)
  = Done true (mkWorld (mkInputs y bl r) g (t ++ press_events b hold)).
Proof.
  intros Hf. unfold press, press_events.
  pose proof (wait_release_run b hold fuel y bl r g
                (t ++ [PinRead b 0]) Hf) as H.
  destruct b; unfold button_pressed, bind, pin_value, feed in *; cbn;
    rewrite H; rewrite <- app_assoc; reflexivity.
Qed.

Lemma button_pressed_released_yellow fuel y bl r g t :
  button_pressed fuel button_yellow (mkWorld (mkInputs (1 :: y) bl r) g t)
  = Done false (mkWorld (mkInputs y bl r) g (t ++ [PinRead button_yellow 1])).
Proof. reflexivity. Qed.

Lemma button_pressed_released_blue fuel y bl r g t :
  button_pressed fuel button_blue (mkWorld (mkInputs y (1 :: bl) r) g t)
  = Done false (mkWorld (mkInputs y bl r) g (t ++ [PinRead button_blue 1])).
Proof. reflexivity. Qed.

Lemma sleeps_app t1 t2 : sleeps (t1 ++ t2) = sleeps t1 ++ sleeps t2.
Proof. apply filter_app. Qed.

(** Closes [sleeps (t ++ e1 ... en) = sleeps t] for events without sleep. *)
Ltac no_sleeps :=
  unfold sleeps; rewrite ?filter_app; cbn [filter is_sleep app];
  rewrite ?app_nil_r; reflexivity.

(** One pass of the editing loop in which no button is held. *)
Lemma edit_body_idle F name mn mx orig r_old value r y bl rr g t :
  exists t',
    update_one_setting_body F name mn mx orig
      {| e_r_val_old := r_old; e_value := value |}
      (mkWorld (mkInputs (1 :: y) (1 :: bl) (r :: rr)) g t)
    = Done (Continue {| e_r_val_old := r;
                        e_value := if r_old =? r then value
                                   else clamp (value + (r_old - r)) mn mx |})
        (mkWorld (mkInputs y bl rr) g t')
    /\ sleeps t' = sleeps t.
Proof.
  unfold update_one_setting_body, bind.
  rewrite button_pressed_released_yellow, button_pressed_released_blue.
  cbn. destruct (r_old =? r) eqn:E; cbn.
  - apply Z.eqb_eq in E. subst r. eexists. split; [reflexivity | no_sleeps].
  - eexists. split; [reflexivity | no_sleeps].
Qed.

Lemma last_cons_default {A} (a : A) (l : list A) (d d' : A) :
  last (a :: l) d = last (a :: l) d'.
Proof.
  revert a. induction l as [|b l IH]; intros a; [reflexivity | ].
  change (last (b :: l) d = last (b :: l) d'). apply IH.
Qed.

Lemma edit_loop_idle F name mn mx orig (rs : list Z) :
  forall fuel r_old value y bl rr g t,
  (List.length rs <= fuel)%nat ->
  exists t',
    loop fuel (update_one_setting_body F name mn mx orig)
      {| e_r_val_old := r_old; e_value := value |}
      (mkWorld (mkInputs (repeat 1 (List.length rs) ++ y)
                  (repeat 1 (List.length rs) ++ bl) (rs ++ rr)) g t)
    = loop (fuel - List.length rs)
        (update_one_setting_body F name mn mx orig)
        {| e_r_val_old := last rs r_old;
           e_value := edits mn mx r_old value rs |}
        (mkWorld (mkInputs y bl rr) g t')
    /\ sleeps t' = sleeps t.
Proof.
  induction rs as [|r rs IH]; intros fuel r_old value y bl rr g t Hf.
  - exists t. rewrite Nat.sub_0_r. split; reflexivity.
  - destruct fuel as [|f]; [cbn in Hf; lia | ].
    destruct (edit_body_idle F name mn mx orig r_old value r
                (repeat 1 (List.length rs) ++ y)
                (repeat 1 (List.length rs) ++ bl)
                (rs ++ rr) g t) as (t1 & Hbody & Hs1).
    destruct (IH f r (if r_old =? r then value
                      else clamp (value + (r_old - r)) mn mx)
                y bl rr g t1) as (t2 & Hloop & Hs2);
      [cbn in Hf; lia | ].
    exists t2. split; [ | congruence].
    cbn [List.length Nat.sub loop repeat app].
    erewrite bind_eq by exact Hbody. cbv beta iota.
    rewrite Hloop. cbn [edits].
    destruct rs as [|a rs']; [reflexivity | ].
    rewrite (last_cons_default a rs' r r_old). reflexivity.
Qed.

Lemma button_pressed_press_yellow hold fuel y bl r g t :
  (hold < fuel)%nat ->
  button_pressed fuel button_yellow (mkWorld (mkInputs (press hold ++ y) bl r) g t)
  = Done true (mkWorld (mkInputs y bl r) g
                 (t ++ press_events button_yellow hold)).
Proof. exact (button_pressed_press button_yellow hold fuel y bl r g t). Qed.

Lemma button_pressed_press_blue hold fuel y bl r g t :
  (hold < fuel)%nat ->
  button_pressed fuel button_blue (mkWorld (mkInputs y (press hold ++ bl) r) g t)
  = Done true (mkWorld (mkInputs y bl r) g
                 (t ++ press_events button_blue hold)).
Proof. exact (button_pressed_press button_blue hold fuel y bl r g t). Qed.

Lemma rotary_value_run y bl r rr g t :
  rotary_value (mkWorld (mkInputs y bl (r :: rr)) g t)
  = Done r (mkWorld (mkInputs y bl rr) g (t ++ [RotaryRead r])).
Proof. reflexivity. Qed.

Lemma show_one_setting_run name mn mx v i g t :
  exists t',
    show_one_setting name mn mx v (mkWorld i g t) = Done tt (mkWorld i g t')
    /\ sleeps t' = sleeps t.
Proof.
  unfold show_one_setting, bind, oled_fill, oled_text, oled_show, emit.
  cbn [env glob trace]. eexists. split; [reflexivity | no_sleeps].
Qed.

(** The pass of the editing loop in which the blue, respectively the
    yellow, button is found pressed. *)
Lemma edit_body_confirm F name mn mx orig l hold y bl rr g t :
  (hold < F)%nat ->
  update_one_setting_body F name mn mx orig l
    (mkWorld (mkInputs (1 :: y) (press hold ++ bl) rr) g t)
  = Done (Return (e_value l))
      (mkWorld (mkInputs y bl rr) g
         ((t ++ [PinRead button_yellow 1]) ++ press_events button_blue hold)).
Proof.
  intros Hh. unfold update_one_setting_body.
  erewrite bind_eq by apply button_pressed_released_yellow. cbv beta iota.
  erewrite bind_eq by (apply button_pressed_press_blue; exact Hh).
  reflexivity.
Qed.

Lemma edit_body_cancel F name mn mx orig l hold y bl rr g t :
  (hold < F)%nat ->
  update_one_setting_body F name mn mx orig l
    (mkWorld (mkInputs (press hold ++ y) bl rr) g t)
  = Done (Return orig)
      (mkWorld (mkInputs y bl rr) g (t ++ press_events button_yellow hold)).
Proof.
  intros Hh. unfold update_one_setting_body.
  erewrite bind_eq by (apply button_pressed_press_yellow; exact Hh).
  reflexivity.
Qed.

(** An editing session of [length rs] idle polls reading the counter values
    [rs], ended by the blue button. *)
Lemma sleeps_held_events b hold :
  sleeps (held_events b hold) = repeat (Sleep 50) hold.
Proof.
  induction hold as [|h IH]; [reflexivity | ].
  cbn [held_events repeat]. unfold sleeps in *. cbn [filter is_sleep].
  rewrite IH. reflexivity.
Qed.

Lemma sleeps_press_events b hold :
  sleeps (press_events b hold) = repeat (Sleep 50) hold.
Proof. exact (sleeps_held_events b hold). Qed.

Lemma edit_session_confirm fuel name mn mx orig r0 (rs : list Z) hold
    y bl rr g t :
  (List.length rs < fuel)%nat -> (hold < fuel)%nat ->
  exists t',
    update_one_setting fuel name mn mx orig
      (mkWorld (mkInputs (repeat 1 (List.length rs) ++ 1 :: y)
                  (repeat 1 (List.length rs) ++ press hold ++ bl)
                  (r0 :: rs ++ rr)) g t)
    = Done (edits mn mx r0 orig rs) (mkWorld (mkInputs y bl rr) g t')
    /\ sleeps t' = sleeps t ++ repeat (Sleep 50) hold.
Proof.
  intros Hn Hh. unfold update_one_setting.
  erewrite bind_eq by apply rotary_value_run. cbv beta.
  match goal with
  | |- context [bind (show_one_setting ?a ?b ?c ?d) _ (mkWorld ?i ?g ?t)] =>
      destruct (show_one_setting_run a b c d i g t) as (t1 & Hshow & Hs1)
  end.
  erewrite bind_eq by exact Hshow. cbv beta.
  match goal with
  | |- context [loop _ ?body ?l (mkWorld (mkInputs (_ ++ ?y) (_ ++ ?b) (_ ++ ?r)) ?g ?t)] =>
      destruct (edit_loop_idle fuel name mn mx orig rs fuel r0 orig y b r g t)
        as (t2 & Hloop & Hs2); [lia | ]
  end.
  rewrite Hloop.
  destruct (fuel - List.length rs)%nat as [|k] eqn:Hk; [lia | ].
  cbn [loop].
  erewrite bind_eq by (apply edit_body_confirm; exact Hh).
  eexists. split; [reflexivity | ].
  rewrite !sleeps_app, sleeps_press_events, Hs2, Hs1, sleeps_app.
  cbn. rewrite !app_nil_r. reflexivity.
Qed.

(** The same session ended by the yellow button. *)
Lemma edit_session_cancel fuel name mn mx orig r0 (rs : list Z) hold
    y bl rr g t :
  (List.length rs < fuel)%nat -> (hold < fuel)%nat ->
  exists t',
    update_one_setting fuel name mn mx orig
      (mkWorld (mkInputs (repeat 1 (List.length rs) ++ press hold ++ y)
                  (repeat 1 (List.length rs) ++ bl)
                  (r0 :: rs ++ rr)) g t)
    = Done orig (mkWorld (mkInputs y bl rr) g t')
    /\ sleeps t' = sleeps t ++ repeat (Sleep 50) hold.
Proof.
  intros Hn Hh. unfold update_one_setting.
  erewrite bind_eq by apply rotary_value_run. cbv beta.
  match goal with
  | |- context [bind (show_one_setting ?a ?b ?c ?d) _ (mkWorld ?i ?g ?t)] =>
      destruct (show_one_setting_run a b c d i g t) as (t1 & Hshow & Hs1)
  end.
  erewrite bind_eq by exact Hshow. cbv beta.
  match goal with
  | |- context [loop _ ?body ?l (mkWorld (mkInputs (_ ++ ?y) (_ ++ ?b) (_ ++ ?r)) ?g ?t)] =>
      destruct (edit_loop_idle fuel name mn mx orig rs fuel r0 orig y b r g t)
        as (t2 & Hloop & Hs2); [lia | ]
  end.
  rewrite Hloop.
  destruct (fuel - List.length rs)%nat as [|k] eqn:Hk; [lia | ].
  cbn [loop].
  erewrite bind_eq by (apply edit_body_cancel; exact Hh).
  eexists. split; [reflexivity | ].
  rewrite !sleeps_app, sleeps_press_events, Hs2, Hs1, sleeps_app.
  cbn. rewrite !app_nil_r. reflexivity.
Qed.

Lemma edits_unchanged mn mx r0 value n :
  edits mn mx r0 value (repeat r0 n) = value.
Proof.
  induction n as [|n IH]; [reflexivity | ].
  cbn [repeat edits]. rewrite Z.eqb_refl. exact IH.
Qed.

Lemma set_g_frequency_same g : set_g_frequency (g_frequency g) g = g.
Proof. destruct g; reflexivity. Qed.

Lemma set_g_servo_min_same g : set_g_servo_min (g_servo_min g) g = g.
Proof. destruct g; reflexivity. Qed.

Lemma set_g_servo_max_same g : set_g_servo_max (g_servo_max g) g = g.
Proof. destruct g; reflexivity. Qed.

(** A setter whose session is cancelled leaves every global as it was. *)
Lemma setter_cancelled fuel name mn mx (field : globals -> Z)
    (set : Z -> globals -> globals) r0 (rs : list Z) hold y bl rr g t :
  (forall g', set (field g') g' = g') ->
  (List.length rs < fuel)%nat -> (hold < fuel)%nat ->
  exists t',
    (g0 <- get_globals ;;
     v <- update_one_setting fuel name mn mx (field g0) ;;
     modify_globals (set v))
      (mkWorld (mkInputs (repeat 1 (List.length rs) ++ press hold ++ y)
                  (repeat 1 (List.length rs) ++ bl)
                  (r0 :: rs ++ rr)) g t)
    = Done tt (mkWorld (mkInputs y bl rr) g t').
Proof.
  intros Hset Hn Hh.
  destruct (edit_session_cancel fuel name mn mx (field g) r0 rs hold
              y bl rr g t Hn Hh) as (t' & H & _).
  exists t'. erewrite bind_eq by reflexivity. cbv beta. cbn [glob].
  erewrite bind_eq by exact H. cbv beta.
  unfold modify_globals. cbn. rewrite Hset. reflexivity.
Qed.

(** ** Value editing *)

(** C3.  An editing session in which [length rs] polls find no button
    pressed and read the counter values [rs], and which the blue button then
    confirms, returns the value reached by the clamped edits; the same
    session ended by the yellow button returns [initial] itself, whatever
    the edits were, and a setter whose session is cancelled leaves its
    setting (and every global) unchanged. *)
Theorem edit_confirm_or_cancel (fuel : nat) (name : string)
    (vmin vmax initial r0 : Z) (rs : list Z) (hold : nat)
    (y bl rr : list Z) (g : globals) (t : list event)
    (Hpolls : (List.length rs < fuel)%nat) (Hhold : (hold < fuel)%nat) :
  let idle := repeat 1 (List.length rs) in
  let confirmed :=
    mkWorld (mkInputs (idle ++ 1 :: y) (idle ++ press hold ++ bl)
               (r0 :: rs ++ rr)) g t in
  let cancelled :=
    mkWorld (mkInputs (idle ++ press hold ++ y) (idle ++ bl)
               (r0 :: rs ++ rr)) g t in
  (exists t', update_one_setting fuel name vmin vmax initial confirmed
              = Done (edits vmin vmax r0 initial rs)
                  (mkWorld (mkInputs y bl rr) g t')) /\
  (exists t', update_one_setting fuel name vmin vmax initial cancelled
              = Done initial (mkWorld (mkInputs y bl rr) g t')) /\
  (exists t', set_frequency fuel cancelled
              = Done tt (mkWorld (mkInputs y bl rr) g t')) /\
  (exists t', set_min fuel cancelled
              = Done tt (mkWorld (mkInputs y bl rr) g t')) /\
  (exists t', set_max fuel cancelled
              = Done tt (mkWorld (mkInputs y bl rr) g t')).
Proof.
  cbv zeta. split; [ | split; [ | split; [ | split]]].
  - destruct (edit_session_confirm fuel name vmin vmax initial r0 rs hold
                y bl rr g t Hpolls Hhold) as (t' & H & _).
    exists t'. exact H.
  - destruct (edit_session_cancel fuel name vmin vmax initial r0 rs hold
                y bl rr g t Hpolls Hhold) as (t' & H & _).
    exists t'. exact H.
  - apply (setter_cancelled fuel "frequency" _ _ g_frequency set_g_frequency);
      auto using set_g_frequency_same.
  - apply (setter_cancelled fuel "servo min" _ _ g_servo_min set_g_servo_min);
      auto using set_g_servo_min_same.
  - apply (setter_cancelled fuel "servo max" _ _ g_servo_max set_g_servo_max);
      auto using set_g_servo_max_same.
Qed.

Lemma edit_confirm_or_cancel_witness :
  (exists t', update_one_setting 5 "frequency" 10 200 50
                (mkWorld (mkInputs [1; 1] [1; 0; 1] [0; -500])
                   initial_globals [])
              = Done 200 (mkWorld (mkInputs [] [] []) initial_globals t')) /\
  (exists t', set_frequency 5
                (mkWorld (mkInputs [1; 0; 1] [1] [0; -500])
                   initial_globals [])
              = Done tt (mkWorld (mkInputs [] [] []) initial_globals t')).
Proof.
  destruct (edit_confirm_or_cancel 5 "frequency" 10 200 50 0 [-500] 0
              [] [] [] initial_globals [])
    as (Hconfirm & _ & Hcancel & _); [cbn; lia | lia | ].
  split; [exact Hconfirm | exact Hcancel].
Defined.

(** C10.  When the blue button confirms an editing session in which every
    poll read the counter value found on entry, the session returns
    [original_value] itself, also when it lies outside
    [[setting_min, setting_max]]: only edited values are clamped. *)
Theorem confirm_without_turning (fuel : nat) (name : string)
    (setting_min setting_max original_value r0 : Z) (polls hold : nat)
    (y bl rr : list Z) (g : globals) (t : list event)
    (Hpolls : (polls < fuel)%nat) (Hhold : (hold < fuel)%nat) :
  exists t',
    update_one_setting fuel name setting_min setting_max original_value
      (mkWorld (mkInputs (repeat 1 polls ++ 1 :: y)
                  (repeat 1 polls ++ press hold ++ bl)
                  (r0 :: repeat r0 polls ++ rr)) g t)
    = Done original_value (mkWorld (mkInputs y bl rr) g t').
Proof.
  pose proof (edit_session_confirm fuel name setting_min setting_max
                original_value r0 (repeat r0 polls) hold y bl rr g t) as H.
  rewrite repeat_length, edits_unchanged in H.
  destruct (H Hpolls Hhold) as (t' & H' & _). exists t'. exact H'.
Qed.

Lemma confirm_without_turning_witness :
  exists t',
    update_one_setting 4 "frequency" 10 200 500
      (mkWorld (mkInputs [1; 1; 1] [1; 1; 0; 0; 1] [7; 7; 7])
         initial_globals [])
    = Done 500 (mkWorld (mkInputs [] [] []) initial_globals t').
Proof.
  apply (confirm_without_turning 4 "frequency" 10 200 500 7 2 1
           [] [] [] initial_globals []); lia.
Defined.

(** ** What a poll does to the selected quantity *)

(** Skips the steps whose result and effect do not matter. *)
Ltac skip_steps :=
  repeat lazymatch goal with
    | |- wp (bind _ _) _ _ _ =>
        apply (wp_keeps_bind_done (fun _ => True));
        [apply keeps_True | exact I | intros ? ? _]
    end.

Lemma settings_body_cursor fuel l w :
  wp (settings_body fuel l)
     (fun l' _ =>
        s_which l' =
        if s_r_val_old l =? s_r_val_old l' then s_which l
        else clamp (s_which l + (s_r_val_old l - s_r_val_old l')) 0 2)
     (fun _ => True) w.
Proof.
  unfold settings_body. skip_steps.
  match goal with
  | |- context [negb (?a =? ?b)] => destruct (a =? b) eqn:E
  end; cbn [negb].
  - apply wp_ret. cbn. rewrite Z.eqb_refl. reflexivity.
  - skip_steps. apply wp_ret. cbn. rewrite E. reflexivity.
Qed.

Lemma main_body_cursor prec emax fuel l w :
  wp (main_body prec emax fuel l)
     (fun l' _ =>
        m_which l' =
        if m_r_val_old l =? m_r_val_old l' then m_which l
        else clamp (m_which l + (m_r_val_old l - m_r_val_old l')) 0 2)
     (fun _ => True) w.
Proof.
  unfold main_body. skip_steps.
  match goal with
  | |- context [negb (?a =? ?b)] => destruct (a =? b) eqn:E
  end; cbn [negb].
  - apply wp_ret. cbn. rewrite Z.eqb_refl. reflexivity.
  - skip_steps. apply wp_ret. cbn. rewrite E. reflexivity.
Qed.

Lemma update_one_setting_body_value fuel name mn mx orig l w :
  wp (update_one_setting_body fuel name mn mx orig l)
     (fun x _ =>
        match x with
        | Continue l' =>
            e_value l' =
            if e_r_val_old l =? e_r_val_old l' then e_value l
            else clamp (e_value l + (e_r_val_old l - e_r_val_old l')) mn mx
        | Return v => v = orig \/ v = e_value l
        end)
     (fun _ => True) w.
Proof.
  unfold update_one_setting_body.
  apply (wp_keeps_bind_done (fun _ => True));
    [apply keeps_True | exact I | intros [|] ? _];
    [apply wp_ret; left; reflexivity | ].
  apply (wp_keeps_bind_done (fun _ => True));
    [apply keeps_True | exact I | intros [|] ? _];
    [apply wp_ret; right; reflexivity | ].
  apply (wp_keeps_bind_done (fun _ => True));
    [apply keeps_True | exact I | intros r ? _].
  destruct (e_r_val_old l =? r) eqn:E; cbn [negb].
  - apply wp_ret. rewrite Z.eqb_refl. reflexivity.
  - skip_steps. apply wp_ret. cbn. rewrite E. reflexivity.
Qed.

Lemma add_percent_clamp diff g :
  g_percent (add_percent diff g) = clamp (g_percent g + diff) 0 100.
Proof.
  unfold add_percent, clamp. cbn.
  destruct (g_percent g + diff <? 0) eqn:E1; cbn.
  - apply Z.ltb_lt in E1. lia.
  - apply Z.ltb_ge in E1.
    destruct (g_percent g + diff >? 100) eqn:E2; cbn.
    + apply Z.gtb_lt in E2. lia.
    + pose proof (Zgt_cases (g_percent g + diff) 100) as H.
      rewrite E2 in H. lia.
Qed.

Lemma run_test_body_percent prec emax fuel l w :
  wp (run_test_body prec emax fuel l)
     (fun l' w' =>
        g_percent (glob w') =
        if t_r_val_old l =? t_r_val_old l' then g_percent (glob w)
        else clamp (g_percent (glob w) + (t_r_val_old l - t_r_val_old l'))
               0 100)
     (fun _ => True) w.
Proof.
  set (P := fun w' : world => g_percent (glob w') = g_percent (glob w)).
  assert (Hany : quiet any_event P) by (intros ? ? ? H _; exact H).
  assert (Hpow : forall v b, P v ->
            P {| env := env v; glob := set_g_powered b (glob v);
                 trace := trace v |}) by (intros ? ? H; exact H).
  pose proof (robust_passive P Hany) as Hq.
  unfold run_test_body.
  apply (wp_keeps_bind_done P);
    [apply keeps_sleep_ms; exact Hq | reflexivity | intros _ w1 H1].
  apply (wp_keeps_bind_done P);
    [apply keeps_button_pressed; exact Hq | exact H1 | intros yellow w2 H2].
  apply (wp_keeps_bind_done P); [ | exact H2 | intros keep_going w3 H3].
  { destruct yellow; [ | apply keeps_ret].
    apply keeps_bind; [apply keeps_green_duty; exact Hq | intros _].
    apply keeps_ret. }
  apply (wp_keeps_bind_done P);
    [apply keeps_button_pressed; exact Hq | exact H3 | intros blue w4 H4].
  apply (wp_keeps_bind_done P); [ | exact H4 | intros _ w5 H5].
  { destruct blue; [ | apply keeps_ret].
    apply robust_toggle_power; assumption. }
  apply (wp_keeps_bind_done P);
    [apply keeps_rotary; exact Hq | exact H5 | intros r w6 H6].
  destruct (t_r_val_old l =? r) eqn:E; cbn [negb].
  - apply wp_ret. cbn. rewrite Z.eqb_refl. exact H6.
  - set (p' := clamp (g_percent (glob w) + (t_r_val_old l - r)) 0 100).
    set (P' := fun w' : world => g_percent (glob w') = p').
    assert (Hany' : quiet any_event P') by (intros ? ? ? H _; exact H).
    pose proof (robust_passive P' Hany') as Hq'.
    apply wp_bind, wp_modify_globals.
    apply (wp_keeps_bind_done P');
      [apply keeps_show_test_details; exact Hq' | | intros _ w7 H7].
    { unfold P'. cbn. rewrite add_percent_clamp. unfold P in H6.
      rewrite H6. reflexivity. }
    apply (wp_keeps_bind_done P');
      [apply robust_update_servo; exact Hany' | exact H7 | intros _ w8 H8].
    apply wp_ret. cbn. rewrite E. exact H8.
Qed.

(** The first [n] passes of a loop whose condition stays true are [iter n]
    of its body. *)
Lemma while_iter {L} (body : L -> M L) (cond : L -> bool) n :
  (forall l, cond l = true) ->
  forall fuel l w,
    while (n + fuel) cond body l w
    = (l' <- iter n body l ;; while fuel cond body l') w.
Proof.
  intros Hc. induction n as [|n IH]; intros fuel l w; [reflexivity | ].
  cbn [Nat.add while iter]. rewrite Hc. unfold bind.
  destruct (body l w) as [l1 w1| | |]; try reflexivity.
  rewrite IH. reflexivity.
Qed.

Lemma settings_body_in_range fuel l w :
  0 <= s_which l <= 2 ->
  wp (settings_body fuel l) (fun l' _ => 0 <= s_which l' <= 2)
     (fun _ => True) w.
Proof.
  intros Hl. eapply wp_mono; [apply settings_body_cursor | | auto].
  cbn. intros l' _ ->. destruct (s_r_val_old l =? s_r_val_old l');
    [exact Hl | apply clamp_range; lia].
Qed.

Lemma main_body_in_range prec emax fuel l w :
  0 <= m_which l <= 2 ->
  wp (main_body prec emax fuel l) (fun l' _ => 0 <= m_which l' <= 2)
     (fun _ => True) w.
Proof.
  intros Hl. eapply wp_mono; [apply main_body_cursor | | auto].
  cbn. intros l' _ ->. destruct (m_r_val_old l =? m_r_val_old l');
    [exact Hl | apply clamp_range; lia].
Qed.

(** ** The relay *)

Lemma last_write_app sel t1 t2 :
  last_write sel (t1 ++ t2)
  = match last_write sel t2 with
    | Some v => Some v
    | None => last_write sel t1
    end.
Proof.
  induction t1 as [|e t1 IH]; cbn.
  - destruct (last_write sel t2); reflexivity.
  - rewrite IH. destruct (last_write sel t2); reflexivity.
Qed.

Lemma last_write_snoc sel t e :
  last_write sel (t ++ [e])
  = match sel e with Some v => Some v | None => last_write sel t end.
Proof. rewrite last_write_app. cbn. destruct (sel e); reflexivity. Qed.

Lemma relay_quiet : quiet not_relay relay_follows_power.
Proof.
  intros w i e Hw He. unfold relay_follows_power, relay_level in *. cbn.
  rewrite last_write_snoc. destruct e; try discriminate; exact Hw.
Qed.

Lemma relay_passive : quiet passive relay_follows_power.
Proof.
  apply (quiet_weaken passive not_relay); [ | exact relay_quiet].
  intros [] He; try reflexivity; discriminate.
Qed.

Lemma relay_update_servo prec emax :
  keeps relay_follows_power (update_servo prec emax).
Proof.
  unfold update_servo. apply keeps_bind; [apply keeps_get_globals | ].
  intros g. destruct (servo_duty prec emax g); [ | apply keeps_raise].
  apply (keeps_emit not_relay); [exact relay_quiet | reflexivity].
Qed.

Lemma add_percent_powered diff g :
  g_powered (add_percent diff g) = g_powered g.
Proof.
  unfold add_percent. cbn.
  destruct (g_percent g + diff <? 0); cbn;
    try match goal with |- context [if ?c then _ else _] => destruct c end;
    reflexivity.
Qed.

Lemma relay_add_percent diff :
  keeps relay_follows_power (modify_globals (add_percent diff)).
Proof.
  apply keeps_modify_globals. intros w Hw.
  unfold relay_follows_power, relay_level in *. cbn.
  rewrite add_percent_powered. exact Hw.
Qed.

(** The power toggle, from any world: the flag is flipped and the relay
    written for the new flag before anything can stop the script. *)
Lemma toggle_power_relay prec emax w :
  wp (toggle_power prec emax)
     (fun _ w' => relay_follows_power w' /\
                  g_powered (glob w') = negb (g_powered (glob w)))
     (fun w' => relay_follows_power w' /\
                g_powered (glob w') = negb (g_powered (glob w))) w.
Proof.
  set (P := fun w' : world =>
              relay_follows_power w' /\
              g_powered (glob w') = negb (g_powered (glob w))).
  assert (Hq : quiet not_relay P).
  { intros w1 i e [H1 H2] He. split; [ | exact H2].
    apply (relay_quiet w1 i e H1 He). }
  assert (Hp : quiet passive P).
  { apply (quiet_weaken passive not_relay); [ | exact Hq].
    intros [] He; try reflexivity; discriminate. }
  assert (Hrest : forall w1, P w1 ->
            wp (show_test_details ;; update_servo prec emax)
               (fun _ w' => P w') P w1).
  { intros w1 H1.
    apply wp_keeps_bind;
      [apply keeps_show_test_details; exact Hp | exact H1 | intros _ w2 H2].
    unfold update_servo. apply wp_bind, wp_get_globals.
    destruct (servo_duty prec emax (glob w2)); [ | exact H2].
    apply (Hq w2 (env w2) _ H2). reflexivity. }
  unfold toggle_power. apply wp_bind, wp_modify_globals.
  apply wp_bind, wp_get_globals. cbn [glob].
  apply wp_bind.
  destruct (g_powered (glob w)) eqn:Epow; cbn [negb set_g_powered g_powered].
  - apply wp_bind, wp_emit, wp_bind, wp_emit, wp_emit. cbn.
    apply Hrest. split; [ | cbn; reflexivity].
    unfold relay_follows_power, relay_level. cbn.
    rewrite last_write_snoc. reflexivity.
  - apply wp_bind, wp_emit, wp_bind, wp_emit, wp_emit. cbn.
    apply Hrest. split; [ | cbn; reflexivity].
    unfold relay_follows_power, relay_level. cbn.
    rewrite last_write_snoc. reflexivity.
Qed.

Lemma toggle_power_keeps_relay prec emax :
  keeps relay_follows_power (toggle_power prec emax).
Proof.
  intros w _. eapply wp_mono; [apply toggle_power_relay | | ]; cbn; tauto.
Qed.

Lemma show_test_details_run i g t :
  show_test_details (mkWorld i g t)
  = Done tt (mkWorld i g (t ++ test_details_events g)).
Proof.
  unfold show_test_details, bind, get_globals, oled_fill, oled_text,
    oled_show, emit, test_details_events.
  cbn [env glob trace]. rewrite <- !app_assoc. reflexivity.
Qed.

Lemma run_test_init_run prec emax i g t :
  run_test_init prec emax (mkWorld i g t)
  = match servo_duty prec emax (entered g) with
    | Some d =>
        Done tt (mkWorld i (entered g)
                   (t ++ entry_events g ++ [PwmDuty pwm_servo d]))
    | None => Raised (mkWorld i (entered g) (t ++ entry_events g))
    end.
Proof.
  unfold run_test_init.
  erewrite bind_eq by reflexivity. cbv beta.
  erewrite bind_eq by reflexivity. cbv beta.
  erewrite bind_eq by reflexivity. cbv beta.
  erewrite bind_eq by reflexivity. cbv beta.
  erewrite bind_eq by reflexivity. cbv beta.
  erewrite bind_eq by reflexivity. cbv beta.
  erewrite bind_eq by reflexivity. cbv beta.
  cbn [env glob trace].
  erewrite bind_eq by apply show_test_details_run. cbv beta.
  unfold update_servo, bind, get_globals. cbn [glob].
  change (set_g_powered false (set_g_percent 50 g)) with (entered g).
  unfold entry_events, pwm_duty_u16, emit, raise.
  destruct (servo_duty prec emax (entered g)); cbn [env glob trace];
    rewrite <- ?app_assoc; reflexivity.
Qed.

Lemma run_test_exit_run i g t :
  run_test_exit (mkWorld i g t)
  = Done tt (mkWorld i (set_g_powered false g) (t ++ exit_events)).
Proof.
  unfold run_test_exit, bind, pwm_duty_u16, relay_value, modify_globals,
    emit, exit_events.
  cbn [env glob trace]. rewrite <- !app_assoc. reflexivity.
Qed.

Lemma relay_after_entry (i : inputs) g t evs :
  last_write is_relay evs = None ->
  relay_follows_power (mkWorld i (entered g) ((t ++ entry_events g) ++ evs)).
Proof.
  intros Hevs. unfold relay_follows_power, relay_level. cbn [trace glob].
  rewrite last_write_app, Hevs, last_write_app. reflexivity.
Qed.

Lemma run_test_init_relay prec emax w :
  wp (run_test_init prec emax) (fun _ w' => relay_follows_power w')
     relay_follows_power w.
Proof.
  destruct w as [i g t]. unfold wp. rewrite run_test_init_run.
  destruct (servo_duty prec emax (entered g)).
  - rewrite app_assoc. apply relay_after_entry. reflexivity.
  - rewrite <- (app_nil_r (t ++ entry_events g)).
    apply relay_after_entry. reflexivity.
Qed.

Lemma run_test_exit_keeps_relay :
  keeps relay_follows_power run_test_exit.
Proof.
  intros [i g t] _. unfold wp. rewrite run_test_exit_run.
  unfold relay_follows_power, relay_level. cbn [trace glob].
  rewrite last_write_app. reflexivity.
Qed.

Lemma relay_run_test prec emax fuel w :
  relay_follows_power (world_of (run_test prec emax fuel w)).
Proof.
  apply wp_world. unfold run_test. apply wp_bind.
  eapply wp_mono; [apply run_test_init_relay | | auto].
  cbn beta. intros _ w1 H1.
  apply wp_keeps_bind;
    [apply keeps_rotary; exact relay_passive | exact H1 | intros r w2 H2].
  apply wp_keeps_bind; [ | exact H2 | intros l w3 H3].
  - apply keeps_run_test_loop;
      auto using relay_passive, relay_update_servo, toggle_power_keeps_relay,
        relay_add_percent.
  - apply run_test_exit_keeps_relay. exact H3.
Qed.

(** C1, as the script has it.  Wherever the servo test stands, the relay
    line is at 1 (high) when [g_powered] is false and at 0 (low) when it is
    true: entering the test clears the flag and drives the line to 1, the
    power toggle flips the flag and drives the line to 0 for on and to 1
    for off, and leaving the test clears the flag and drives the line
    to 1. *)
Theorem relay_follows_power_flag (prec emax : Z) (fuel : nat) (w : world) :
  relay_level (world_of (run_test prec emax fuel w))
  = Some (if g_powered (glob (world_of (run_test prec emax fuel w)))
          then 0 else 1) /\
  (g_powered (glob (world_of (run_test_init prec emax w))) = false /\
   relay_level (world_of (run_test_init prec emax w)) = Some 1) /\
  (g_powered (glob (world_of (toggle_power prec emax w)))
   = negb (g_powered (glob w)) /\
   relay_level (world_of (toggle_power prec emax w))
   = Some (if g_powered (glob w) then 1 else 0)) /\
  (g_powered (glob (world_of (run_test_exit w))) = false /\
   relay_level (world_of (run_test_exit w)) = Some 1).
Proof.
  split; [exact (relay_run_test prec emax fuel w) | ].
  split; [ | split].
  - destruct w as [i g t]. rewrite run_test_init_run.
    destruct (servo_duty prec emax (entered g)); cbn [world_of glob];
      (split; [reflexivity | ]); unfold relay_level; cbn [trace].
    + rewrite app_assoc, last_write_app. cbn [last_write is_relay].
      rewrite last_write_app. reflexivity.
    + rewrite last_write_app. reflexivity.
  - pose proof (toggle_power_relay prec emax w) as H.
    unfold wp in H.
    assert (Hw : relay_follows_power (world_of (toggle_power prec emax w)) /\
                 g_powered (glob (world_of (toggle_power prec emax w)))
                 = negb (g_powered (glob w)))
      by (destruct (toggle_power prec emax w); exact H).
    destruct Hw as [Hr Hp]. split; [exact Hp | ].
    unfold relay_follows_power in Hr. rewrite Hr, Hp.
    destruct (g_powered (glob w)); reflexivity.
  - destruct w as [i g t]. rewrite run_test_exit_run. cbn [world_of glob].
    split; [reflexivity | ]. unfold relay_level. cbn [trace].
    rewrite last_write_app. reflexivity.
Qed.

(** C1 as the specification states it fails: on entry to the servo test, with the
    servo unpowered, the relay line is driven to 1 (high), not low. *)
Lemma relay_low_when_unpowered_fails :
  let w' := world_of (run_test 24 128 1 (initial_world (mkInputs [] [] []))) in
  g_powered (glob w') = false /\
  relay_level w' = Some 1 /\
  relay_level w' <> Some 0.
Proof. vm_compute. repeat split; discriminate. Qed.

(** ** Entering and leaving the servo test *)

Lemma emit_run e i g t :
  emit e (mkWorld i g t) = Done tt (mkWorld i g (t ++ [e])).
Proof. reflexivity. Qed.

Lemma green_off_run i g t :
  (pwm_duty_u16 pwm_green PWM_OFF ;; ret false) (mkWorld i g t)
  = Done false (mkWorld i g (t ++ [PwmDuty pwm_green PWM_OFF])).
Proof. reflexivity. Qed.

(** A pass of the test loop that finds no button pressed and the counter
    where it was. *)
Lemma run_test_body_idle prec emax F kg r y bl rr g t :
  run_test_body prec emax F {| t_keep_going := kg; t_r_val_old := r |}
    (mkWorld (mkInputs (1 :: y) (1 :: bl) (r :: rr)) g t)
  = Done {| t_keep_going := kg; t_r_val_old := r |}
      (mkWorld (mkInputs y bl rr) g
         (t ++ [Sleep 50; PinRead button_yellow 1; PinRead button_blue 1;
                RotaryRead r])).
Proof.
  unfold run_test_body.
  erewrite bind_eq by apply emit_run. cbv beta.
  erewrite bind_eq by apply button_pressed_released_yellow. cbv beta iota.
  erewrite bind_eq by reflexivity. cbv beta.
  erewrite bind_eq by apply button_pressed_released_blue. cbv beta iota.
  erewrite bind_eq by reflexivity. cbv beta.
  erewrite bind_eq by apply rotary_value_run. cbv beta.
  cbn [t_r_val_old t_keep_going]. rewrite Z.eqb_refl. cbn [negb].
  unfold ret. rewrite <- !app_assoc. reflexivity.
Qed.

(** The pass in which the yellow button is found pressed. *)
Lemma run_test_body_cancel prec emax F kg r hold y bl rr g t :
  (hold < F)%nat ->
  run_test_body prec emax F {| t_keep_going := kg; t_r_val_old := r |}
    (mkWorld (mkInputs (press hold ++ y) (1 :: bl) (r :: rr)) g t)
  = Done {| t_keep_going := false; t_r_val_old := r |}
      (mkWorld (mkInputs y bl rr) g
         (t ++ Sleep 50 :: press_events button_yellow hold ++
               [PwmDuty pwm_green PWM_OFF; PinRead button_blue 1;
                RotaryRead r])).
Proof.
  intros Hh. unfold run_test_body.
  erewrite bind_eq by apply emit_run. cbv beta.
  erewrite bind_eq by (apply button_pressed_press_yellow; exact Hh).
  cbv beta iota.
  erewrite bind_eq by apply green_off_run. cbv beta.
  erewrite bind_eq by apply button_pressed_released_blue. cbv beta iota.
  erewrite bind_eq by reflexivity. cbv beta.
  erewrite bind_eq by apply rotary_value_run. cbv beta.
  cbn [t_r_val_old t_keep_going]. rewrite Z.eqb_refl. cbn [negb].
  unfold ret. rewrite <- !app_assoc. reflexivity.
Qed.

Lemma run_test_loop_idle prec emax F r n :
  forall fuel y bl rr g t,
  (n <= fuel)%nat ->
  exists t',
    while fuel t_keep_going (run_test_body prec emax F)
      {| t_keep_going := true; t_r_val_old := r |}
      (mkWorld (mkInputs (repeat 1 n ++ y) (repeat 1 n ++ bl)
                  (repeat r n ++ rr)) g t)
    = while (fuel - n) t_keep_going (run_test_body prec emax F)
        {| t_keep_going := true; t_r_val_old := r |}
        (mkWorld (mkInputs y bl rr) g (t ++ t')).
Proof.
  induction n as [|n IH]; intros fuel y bl rr g t Hf.
  - exists []. rewrite Nat.sub_0_r, app_nil_r. reflexivity.
  - destruct fuel as [|f]; [lia | ].
    destruct (IH f y bl rr g
                (t ++ [Sleep 50; PinRead button_yellow 1;
                       PinRead button_blue 1; RotaryRead r]))
      as (t' & H); [lia | ].
    eexists. cbn [repeat app while t_keep_going Nat.sub].
    erewrite bind_eq by apply run_test_body_idle. cbv beta.
    rewrite H. rewrite <- app_assoc. reflexivity.
Qed.

(** A servo test of [n] idle polls that the yellow button then ends. *)
Lemma run_test_cancelled prec emax fuel n hold r y bl rr g t d :
  (S n < fuel)%nat -> (hold < fuel)%nat ->
  servo_duty prec emax (entered g) = Some d ->
  exists t',
    run_test prec emax fuel
      (mkWorld (mkInputs (repeat 1 n ++ press hold ++ y)
                  (repeat 1 (S n) ++ bl)
                  (repeat r (S (S n)) ++ rr)) g t)
    = Done tt (mkWorld (mkInputs y bl rr) (entered g) t').
Proof.
  intros Hn Hh Hd. unfold run_test.
  erewrite bind_eq by (rewrite run_test_init_run, Hd; reflexivity).
  cbv beta.
  change (repeat r (S (S n))) with (r :: r :: repeat r n).
  change (repeat 1 (S n)) with (1 :: repeat 1 n).
  rewrite (repeat_cons n 1), (repeat_cons n r).
  cbn [app].
  erewrite bind_eq by apply rotary_value_run. cbv beta.
  unfold run_test_loop.
  rewrite <- !app_assoc. cbn [app].
  match goal with
  | |- context [bind (while _ _ _ _) _ (mkWorld (mkInputs (_ ++ ?y) (_ ++ ?b) (_ ++ ?rr)) ?g ?t)] =>
      destruct (run_test_loop_idle prec emax fuel r n fuel y b rr g t)
        as (t1 & Hloop); [lia | ]
  end.
  erewrite bind_eq; [ | rewrite Hloop].
  2:{ destruct (fuel - n)%nat as [|[|k]] eqn:Hk; [lia | lia | ].
      cbn [while t_keep_going].
      erewrite bind_eq by (apply run_test_body_cancel; exact Hh).
      cbv beta. cbn [t_keep_going]. reflexivity. }
  cbv beta. rewrite run_test_exit_run. eexists. reflexivity.
Qed.

(** Whatever is logged once the test is entered stays in the log. *)
Lemma run_test_trace prec emax fuel i g t :
  exists evs,
    trace (world_of (run_test prec emax fuel (mkWorld i g t)))
    = t ++ entry_events g ++ evs.
Proof.
  set (P := fun w' : world =>
              exists evs, trace w' = (t ++ entry_events g) ++ evs).
  assert (Hany : quiet any_event P).
  { intros w1 i1 e [evs H] _. exists (evs ++ [e]). cbn [trace].
    rewrite H, <- app_assoc. reflexivity. }
  assert (Hglob : forall w1 f, P w1 ->
            P {| env := env w1; glob := f (glob w1); trace := trace w1 |})
    by (intros w1 f H; exact H).
  assert (HP : P (world_of (run_test prec emax fuel (mkWorld i g t)))).
  { apply wp_world. unfold run_test. apply wp_bind. unfold wp at 1.
    rewrite run_test_init_run.
    destruct (servo_duty prec emax (entered g)) as [d|].
    - assert (H1 : P (mkWorld i (entered g)
                        (t ++ entry_events g ++ [PwmDuty pwm_servo d])))
        by (exists [PwmDuty pwm_servo d]; cbn [trace];
            rewrite app_assoc; reflexivity).
      revert H1. generalize (mkWorld i (entered g)
                        (t ++ entry_events g ++ [PwmDuty pwm_servo d])).
      intros w1 H1.
      apply wp_keeps_bind;
        [apply keeps_rotary, robust_passive; exact Hany | exact H1
        | intros r w2 H2].
      apply wp_keeps_bind; [ | exact H2 | intros l w3 H3].
      + apply keeps_run_test_loop;
          [apply robust_passive; exact Hany
          | apply robust_update_servo; exact Hany
          | apply robust_toggle_power; [exact Hany | intros; apply Hglob; assumption]
          | intros diff; apply keeps_modify_globals; intros; apply Hglob;
            assumption].
      + apply robust_run_test_exit;
          [exact Hany | intros; apply Hglob; assumption | exact H3].
    - exists []. cbn [trace]. rewrite app_nil_r. reflexivity. }
  destruct HP as [evs H]. exists evs. rewrite H, <- app_assoc. reflexivity.
Qed.

(** C6.  Every entry to the servo test first sets the servo's PWM frequency
    from [g_frequency] and drives the relay to its disconnected level, and
    leaves [run_test_init] with [g_powered = False] and [g_percent = 50];
    every return of [run_test] happens with [g_powered = False] and the
    relay at its disconnected level, written last; and a press of the
    yellow button makes [run_test] return. *)
Theorem servo_test_entry_and_exit (prec emax : Z) (fuel : nat) :
  (forall i g t,
     let w0 := world_of (run_test_init prec emax (mkWorld i g t)) in
     g_powered (glob w0) = false /\
     g_percent (glob w0) = 50 /\
     settings_of w0 = (g_frequency g, g_servo_min g, g_servo_max g) /\
     relay_level w0 = Some RELAY_DISCONNECTED /\
     servo_freq_out w0 = Some (g_frequency g)) /\
  (forall i g t,
     exists evs,
       trace (world_of (run_test prec emax fuel (mkWorld i g t)))
       = t ++ [PwmFreq pwm_servo (g_frequency g);
               RelayValue RELAY_DISCONNECTED] ++ evs) /\
  (forall w w',
     run_test prec emax fuel w = Done tt w' ->
     g_powered (glob w') = false /\
     relay_level w' = Some RELAY_DISCONNECTED /\
     exists t1, trace w' = t1 ++ [RelayValue RELAY_DISCONNECTED]) /\
  (forall n hold r y bl rr g t d,
     (S n < fuel)%nat -> (hold < fuel)%nat ->
     servo_duty prec emax (entered g) = Some d ->
     exists t',
       run_test prec emax fuel
         (mkWorld (mkInputs (repeat 1 n ++ press hold ++ y)
                     (repeat 1 (S n) ++ bl)
                     (repeat r (S (S n)) ++ rr)) g t)
       = Done tt (mkWorld (mkInputs y bl rr) (entered g) t')).
Proof.
  split; [ | split; [ | split]].
  - intros i g t. cbv zeta. rewrite run_test_init_run.
    destruct (servo_duty prec emax (entered g)) as [d|];
      cbn [world_of glob]; unfold relay_level, servo_freq_out, settings_of;
      cbn [trace glob]; rewrite !last_write_app;
      repeat split; reflexivity.
  - intros i g t.
    destruct (run_test_trace prec emax fuel i g t) as [evs H].
    eexists. rewrite H. unfold entry_events.
    rewrite <- !app_assoc. reflexivity.
  - intros w w' H. unfold run_test in H.
    apply bind_done in H. destruct H as (u & w1 & _ & H).
    apply bind_done in H. destruct H as (r & w2 & _ & H).
    apply bind_done in H. destruct H as (l & w3 & _ & H).
    destruct w3 as [i3 g3 t3]. rewrite run_test_exit_run in H.
    inversion H; subst w'; clear H. cbn [glob trace].
    split; [reflexivity | ]. split.
    + unfold relay_level. cbn [trace]. rewrite last_write_app. reflexivity.
    + exists (t3 ++ [PwmDuty pwm_blue PWM_OFF; PwmDuty pwm_green PWM_OFF]).
      unfold exit_events. rewrite <- app_assoc. reflexivity.
  - intros n hold r y bl rr g t d Hn Hh Hd.
    exact (run_test_cancelled prec emax fuel n hold r y bl rr g t d Hn Hh Hd).
Qed.

(** A test entered with the default settings, left idle for two polls and
    then ended by the yellow button, held for one more sample. *)
Lemma servo_test_entry_and_exit_witness :
  exists t',
    run_test 24 128 5
      (mkWorld (mkInputs [1; 1; 0; 0; 1] [1; 1; 1] [7; 7; 7; 7])
         initial_globals [])
    = Done tt (mkWorld (mkInputs [] [] []) initial_globals t').
Proof.
  refine (proj2 (proj2 (proj2 (servo_test_entry_and_exit 24 128 5)))
            2%nat 1%nat 7 [] [] [] initial_globals [] 5625 _ _ _).
  - lia.
  - lia.
  - vm_compute. reflexivity.
Defined.

(** ** The servo duty *)

Section DutyRewritten.

Variables prec emax : Z.
Variable w : world.

Lemma logged_since_quiet : quiet any_event (logged_since w).
Proof.
  intros w1 i e [evs H] _. exists (evs ++ [e]). cbn [trace].
  rewrite H, <- app_assoc. reflexivity.
Qed.

Lemma duty_untouched_quiet : quiet not_servo_duty (duty_untouched w).
Proof.
  intros w1 i e (Hg & evs & Ht & Hd) He. split; [exact Hg | ].
  exists (evs ++ [e]). cbn [trace]. split.
  - rewrite Ht, <- app_assoc. reflexivity.
  - rewrite last_write_snoc, Hd.
    destruct e as [| | | | |[]| | |]; try reflexivity; discriminate.
Qed.

Lemma duty_rewritten_quiet : quiet not_servo_duty (duty_rewritten prec emax w).
Proof.
  intros w1 i e (evs & d & Ht & Hd & Hs) He.
  exists (evs ++ [e]), d. cbn [trace glob]. split; [ | split].
  - rewrite Ht, <- app_assoc. reflexivity.
  - rewrite last_write_snoc, Hd.
    destruct e as [| | | | |[]| | |]; try reflexivity; discriminate.
  - exact Hs.
Qed.

Lemma passive_not_servo_duty P : quiet not_servo_duty P -> quiet passive P.
Proof.
  apply quiet_weaken. intros [| | | |[]|[]| | |] He;
    try reflexivity; discriminate.
Qed.

(** [update_servo] writes the duty of the current globals. *)
Lemma update_servo_rewrites w1 :
  logged_since w w1 ->
  wp (update_servo prec emax) (fun _ w' => duty_rewritten prec emax w w')
     (fun _ => True) w1.
Proof.
  intros [evs H]. unfold update_servo. apply wp_bind, wp_get_globals.
  destruct (servo_duty prec emax (glob w1)) as [d|] eqn:Hd; [ | exact I].
  apply wp_emit. exists (evs ++ [PwmDuty pwm_servo d]), d.
  cbn [trace glob]. split; [ | split].
  - rewrite H, <- app_assoc. reflexivity.
  - rewrite last_write_snoc. reflexivity.
  - exact Hd.
Qed.

Lemma show_test_details_logged w1 :
  logged_since w w1 ->
  wp show_test_details (fun _ w' => logged_since w w') (fun _ => True) w1.
Proof.
  intros H1. eapply wp_mono;
    [apply (keeps_show_test_details (logged_since w));
     [apply robust_passive, logged_since_quiet | exact H1] | | auto].
  auto.
Qed.

Lemma show_then_update_servo w1 :
  logged_since w w1 ->
  wp (show_test_details ;; update_servo prec emax)
     (fun _ w' => duty_rewritten prec emax w w') (fun _ => True) w1.
Proof.
  intros H1.
  apply (wp_keeps_bind_done (logged_since w));
    [apply keeps_show_test_details, robust_passive, logged_since_quiet
    | exact H1 | intros _ w2 H2].
  apply update_servo_rewrites. exact H2.
Qed.

Lemma toggle_power_rewrites w1 :
  logged_since w w1 ->
  wp (toggle_power prec emax) (fun _ w' => duty_rewritten prec emax w w')
     (fun _ => True) w1.
Proof.
  intros H1. unfold toggle_power.
  apply wp_bind, wp_modify_globals, wp_bind, wp_get_globals.
  cbn [glob].
  apply (wp_keeps_bind_done (logged_since w)); [ | exact H1 | intros _ w2 H2].
  - destruct (g_powered _);
      repeat (apply keeps_bind; [ | intros _]);
      apply robust_emit, logged_since_quiet.
  - apply show_then_update_servo. exact H2.
Qed.

Lemma run_test_body_duty fuel l :
  wp (run_test_body prec emax fuel l)
     (fun _ w' => duty_untouched w w' \/ duty_rewritten prec emax w w')
     (fun _ => True) w.
Proof.
  pose proof (passive_not_servo_duty _ duty_untouched_quiet) as Hq0.
  pose proof (passive_not_servo_duty _ duty_rewritten_quiet) as Hq1.
  assert (H0 : duty_untouched w w).
  { split; [reflexivity | ]. exists []. rewrite app_nil_r. auto. }
  assert (Hlog0 : forall w1, duty_untouched w w1 -> logged_since w w1).
  { intros w1 (_ & evs & H & _). exists evs. exact H. }
  assert (Hlog1 : forall w1, duty_rewritten prec emax w w1 ->
                             logged_since w w1).
  { intros w1 (evs & d & H & _). exists evs. exact H. }
  unfold run_test_body.
  apply (wp_keeps_bind_done (duty_untouched w));
    [apply keeps_sleep_ms; exact Hq0 | exact H0 | intros _ w1 H1].
  apply (wp_keeps_bind_done (duty_untouched w));
    [apply keeps_button_pressed; exact Hq0 | exact H1 | intros yellow w2 H2].
  apply (wp_keeps_bind_done (duty_untouched w));
    [ | exact H2 | intros keep_going w3 H3].
  { destruct yellow; [ | apply keeps_ret].
    apply keeps_bind; [apply keeps_green_duty; exact Hq0 | intros _].
    apply keeps_ret. }
  apply (wp_keeps_bind_done (duty_untouched w));
    [apply keeps_button_pressed; exact Hq0 | exact H3 | intros blue w4 H4].
  apply wp_bind.
  apply (wp_mono _
           (fun _ w5 => duty_untouched w w5 \/ duty_rewritten prec emax w w5)
           _ (fun _ => True)); [ | | auto].
  { destruct blue; [ | left; exact H4].
    eapply wp_mono; [apply toggle_power_rewrites, Hlog0; exact H4 | | auto].
    cbn. intros _ w5 H5. right. exact H5. }
  cbn beta. intros _ w5 H5.
  assert (Hrest : forall (Q : world -> Prop), quiet passive Q ->
            (forall w', Q w' -> logged_since w w') ->
            (forall w', Q w' ->
               duty_untouched w w' \/ duty_rewritten prec emax w w') ->
            Q w5 ->
            wp (r_val_new <- rotary_value ;;
                if negb (t_r_val_old l =? r_val_new)
                then
                  modify_globals (add_percent (t_r_val_old l - r_val_new)) ;;
                  show_test_details ;;
                  update_servo prec emax ;;
                  ret {| t_keep_going := keep_going;
                         t_r_val_old := r_val_new |}
                else ret {| t_keep_going := keep_going;
                            t_r_val_old := t_r_val_old l |})
               (fun _ w' =>
                  duty_untouched w w' \/ duty_rewritten prec emax w w')
               (fun _ => True) w5).
  { intros Q HQ Hlog Hfin HQ5.
    apply (wp_keeps_bind_done Q);
      [apply keeps_rotary; exact HQ | exact HQ5 | intros r w6 H6].
    destruct (negb (t_r_val_old l =? r)); [ | apply Hfin; exact H6].
    apply wp_bind, wp_modify_globals, wp_bind.
    eapply wp_mono; [apply show_test_details_logged | | auto].
    - destruct (Hlog w6 H6) as [evs H]. exists evs. exact H.
    - cbn beta. intros _ w7 H7. apply wp_bind.
      eapply wp_mono; [apply update_servo_rewrites; exact H7 | | auto].
      cbn beta. intros _ w8 H8. right. exact H8. }
  destruct H5 as [H5|H5].
  - apply (Hrest (duty_untouched w)); auto.
  - apply (Hrest (duty_rewritten prec emax w)); auto.
Qed.

End DutyRewritten.

(** With the default servo range the floating-point duty is the whole part
    of the exact value, for every percent, in single and in double
    precision. *)
Lemma default_duty_checked :
  forallb
    (fun p =>
       let g := mkGlobals 50 2500 8750 false p in
       match servo_duty 24 128 g, servo_duty 53 1024 g with
       | Some a, Some b => (a =? duty_floor g) && (b =? duty_floor g)
       | _, _ => false
       end)
    (map Z.of_nat (seq 0 101)) = true.
Proof. vm_compute. reflexivity. Qed.

Lemma default_duty_is_floor (f : Z) (b : bool) (p : Z) :
  0 <= p <= 100 ->
  let g := mkGlobals f 2500 8750 b p in
  servo_duty 24 128 g = Some (duty_floor g) /\
  servo_duty 53 1024 g = Some (duty_floor g).
Proof.
  intros Hp. cbv zeta.
  pose proof default_duty_checked as H. rewrite forallb_forall in H.
  specialize (H (Z.of_nat (Z.to_nat p))).
  rewrite Z2Nat.id in H by lia.
  assert (Hin : In p (map Z.of_nat (seq 0 101))).
  { rewrite <- (Z2Nat.id p) by lia. apply in_map, in_seq. lia. }
  specialize (H Hin). cbv zeta in H.
  change (servo_duty 24 128 (mkGlobals f 2500 8750 b p))
    with (servo_duty 24 128 (mkGlobals 50 2500 8750 false p)).
  change (servo_duty 53 1024 (mkGlobals f 2500 8750 b p))
    with (servo_duty 53 1024 (mkGlobals 50 2500 8750 false p)).
  change (duty_floor (mkGlobals f 2500 8750 b p))
    with (duty_floor (mkGlobals 50 2500 8750 false p)).
  destruct (servo_duty 24 128 (mkGlobals 50 2500 8750 false p)) as [a|];
    [ | discriminate].
  destruct (servo_duty 53 1024 (mkGlobals 50 2500 8750 false p)) as [c|];
    [ | discriminate].
  apply andb_true_iff in H. destruct H as [Ha Hc].
  apply Z.eqb_eq in Ha, Hc. subst. split; reflexivity.
Qed.

(** C7, as the script has it.  A pass of the test loop that toggles the
    power or changes the percent writes the servo duty, and the duty it
    writes last is [servo_duty] of the globals it leaves: the value of
    [g_servo_min + (g_percent / 100.0) * (g_servo_max - g_servo_min)] in
    floating point, truncated towards zero by [int].  Neither the
    hypotheses nor the duty look at [g_powered].  With the default range
    (2500, 8750) that duty is the whole part of the exact value for every
    percent from 0 to 100, in single and in double precision. *)
Theorem servo_duty_written_after_change (prec emax : Z) (fuel : nat)
    (l l' : test_locals) (w w' : world)
    (Hpass : run_test_body prec emax fuel l w = Done l' w')
    (Hchange : g_powered (glob w') <> g_powered (glob w) \/
               g_percent (glob w') <> g_percent (glob w)) :
  (exists evs d,
     trace w' = trace w ++ evs /\
     last_write is_servo_duty evs = Some d /\
     servo_duty prec emax (glob w') = Some d) /\
  (forall f b p, 0 <= p <= 100 ->
     servo_duty 24 128 (mkGlobals f 2500 8750 b p)
     = Some (duty_floor (mkGlobals f 2500 8750 b p)) /\
     servo_duty 53 1024 (mkGlobals f 2500 8750 b p)
     = Some (duty_floor (mkGlobals f 2500 8750 b p))).
Proof.
  split; [ | intros f b p Hp; exact (default_duty_is_floor f b p Hp)].
  pose proof (wp_done _ _ _ _ _ _ (run_test_body_duty prec emax w fuel l)
                Hpass) as H.
  cbn beta in H. destruct H as [(Hg & _)|H]; [ | exact H].
  rewrite Hg in Hchange. destruct Hchange as [Hc|Hc]; contradiction.
Qed.

(** A pass in which the blue button switches the power on at 50 percent. *)
Lemma servo_duty_written_after_change_witness :
  exists l' w' evs,
    run_test_body 24 128 1 {| t_keep_going := true; t_r_val_old := 0 |}
      (initial_world (mkInputs [1] [0; 1] [0])) = Done l' w' /\
    trace w' = evs /\
    last_write is_servo_duty evs = Some 5625.
Proof.
  destruct (run_test_body 24 128 1
              {| t_keep_going := true; t_r_val_old := 0 |}
              (initial_world (mkInputs [1] [0; 1] [0])))
    as [l' w'| | |] eqn:E.
  2-4: vm_compute in E; discriminate.
  assert (Hc : g_powered (glob w')
               <> g_powered (glob (initial_world (mkInputs [1] [0; 1] [0])))
               \/ g_percent (glob w')
               <> g_percent (glob (initial_world (mkInputs [1] [0; 1] [0])))).
  { vm_compute in E. injection E as _ <-. left. discriminate. }
  destruct (servo_duty_written_after_change 24 128 1 _ _ _ _ E Hc)
    as ((evs & d & Ht & Hd & Hs) & _).
  exists l', w', evs. split; [reflexivity | ].
  split; [exact Ht | ]. rewrite Hd.
  vm_compute in E. injection E as _ <-. vm_compute in Hs.
  symmetry. exact Hs.
Defined.

(** C7 as the specification states it fails.  In double precision, with
    the servo minimum set to 50 and the default maximum, the poll that
    brings the percent to 69 writes the duty 6052, while
    50 + (69/100) * 8700 is 6053; in single precision (the floats of
    MicroPython on the board), with the servo minimum set to 0, the poll
    that brings the percent to 78 writes 6824, while 0 + (78/100) * 8750
    is 6825. *)
Lemma duty_formula_fails :
  match
    run_test_body 53 1024 1 {| t_keep_going := true; t_r_val_old := 0 |}
      (mkWorld (mkInputs [1] [1] [1]) (mkGlobals 50 50 8750 true 70) [])
  with
  | Done _ w' =>
      g_percent (glob w') = 69 /\
      servo_duty_out w' = Some 6052 /\
      ~ duty_as_specified (glob w') 6052 /\
      duty_as_specified (glob w') 6053
  | _ => False
  end /\
  match
    run_test_body 24 128 1 {| t_keep_going := true; t_r_val_old := 0 |}
      (mkWorld (mkInputs [1] [1] [1]) (mkGlobals 50 0 8750 true 79) [])
  with
  | Done _ w' =>
      g_percent (glob w') = 78 /\
      servo_duty_out w' = Some 6824 /\
      ~ duty_as_specified (glob w') 6824 /\
      duty_as_specified (glob w') 6825
  | _ => False
  end.
Proof.
  vm_compute. repeat split; try discriminate; intros H; discriminate H.
Qed.

(** ** The cadence of the loops *)

(** Properties of the log alone, which no event breaks, are kept by every
    part of the script. *)
Section LogOnly.

Variables prec emax : Z.
Variable P : world -> Prop.
Hypothesis HPany : quiet any_event P.
Hypothesis HPglob : forall w f, P w ->
  P {| env := env w; glob := f (glob w); trace := trace w |}.

Lemma log_only_setter fuel name mn mx (field : globals -> Z)
    (set : Z -> globals -> globals) :
  keeps P (g <- get_globals ;;
           v <- update_one_setting fuel name mn mx (field g) ;;
           modify_globals (set v)).
Proof.
  apply keeps_bind; [apply keeps_get_globals | intros g].
  apply keeps_bind;
    [apply keeps_update_one_setting, robust_passive; exact HPany | intros v].
  apply keeps_modify_globals. intros w Hw. apply HPglob. exact Hw.
Qed.

Lemma log_only_toggle_power : keeps P (toggle_power prec emax).
Proof.
  apply robust_toggle_power; [exact HPany | ].
  intros w b Hw. apply HPglob. exact Hw.
Qed.

Lemma log_only_add_percent diff : keeps P (modify_globals (add_percent diff)).
Proof. apply keeps_modify_globals. intros w Hw. apply HPglob. exact Hw. Qed.

Lemma log_only_run_test fuel : keeps P (run_test prec emax fuel).
Proof.
  apply robust_run_test; [exact HPany | | ]; intros w ? Hw; apply HPglob;
    exact Hw.
Qed.

Lemma log_only_run_test_body fuel l w :
  P {| env := env w; glob := glob w; trace := trace w ++ [Sleep 50] |} ->
  P (world_of (run_test_body prec emax fuel l w)).
Proof.
  intros H. apply wp_world. apply run_test_body_after_sleep;
    auto using robust_passive, robust_update_servo, log_only_toggle_power,
      log_only_add_percent.
Qed.

Lemma log_only_settings_body fuel l w :
  P {| env := env w; glob := glob w; trace := trace w ++ [Sleep 50] |} ->
  P (world_of (settings_body fuel l w)).
Proof.
  intros H. apply wp_world. apply settings_body_after_sleep;
    [apply robust_passive; exact HPany | | | | exact H];
    intros f; apply log_only_setter.
Qed.

Lemma log_only_main_body fuel l w :
  P {| env := env w; glob := glob w; trace := trace w ++ [Sleep 50] |} ->
  P (world_of (main_body prec emax fuel l w)).
Proof.
  intros H. apply wp_world. apply main_body_after_sleep;
    [apply robust_passive; exact HPany | | | | | exact H];
    try (intros f; apply log_only_setter).
  intros f. apply log_only_run_test.
Qed.

End LogOnly.

Lemma begins_with_sleep_quiet (w : world) :
  quiet any_event
    (fun w' => exists evs, trace w' = trace w ++ Sleep 50 :: evs).
Proof.
  intros w1 i e [evs H] _. exists (evs ++ [e]). cbn [trace].
  rewrite H, <- app_assoc. reflexivity.
Qed.

Lemma begins_with_sleep_now (w : world) :
  exists evs,
    trace {| env := env w; glob := glob w; trace := trace w ++ [Sleep 50] |}
    = trace w ++ Sleep 50 :: evs.
Proof. exists []. reflexivity. Qed.

(** C9 on the script.  Each pass of the main menu loop, of the settings
    menu loop and of the test loop begins with [sleep_ms(50)]; the editing
    loop does not sleep between its polls: a session of any number of
    polls without a button, confirmed by a press that is released at the
    next sample, adds no sleep to the log. *)
Theorem editing_loop_does_not_sleep (prec emax : Z) (fuel : nat) :
  (forall l w, exists evs,
     trace (world_of (main_body prec emax fuel l w))
     = trace w ++ Sleep 50 :: evs) /\
  (forall l w, exists evs,
     trace (world_of (settings_body fuel l w))
     = trace w ++ Sleep 50 :: evs) /\
  (forall l w, exists evs,
     trace (world_of (run_test_body prec emax fuel l w))
     = trace w ++ Sleep 50 :: evs) /\
  (forall name vmin vmax initial r0 (rs : list Z) y bl rr g t,
     (List.length rs < fuel)%nat -> (0 < fuel)%nat ->
     exists t',
       update_one_setting fuel name vmin vmax initial
         (mkWorld (mkInputs (repeat 1 (List.length rs) ++ 1 :: y)
                     (repeat 1 (List.length rs) ++ press 0 ++ bl)
                     (r0 :: rs ++ rr)) g t)
       = Done (edits vmin vmax r0 initial rs)
           (mkWorld (mkInputs y bl rr) g t')
       /\ sleeps t' = sleeps t).
Proof.
  split; [ | split; [ | split]].
  - intros l w.
    apply (log_only_main_body prec emax _ (begins_with_sleep_quiet w));
      [intros w1 f H; exact H | apply begins_with_sleep_now].
  - intros l w.
    apply (log_only_settings_body _ (begins_with_sleep_quiet w));
      [intros w1 f H; exact H | apply begins_with_sleep_now].
  - intros l w.
    apply (log_only_run_test_body prec emax _ (begins_with_sleep_quiet w));
      [intros w1 f H; exact H | apply begins_with_sleep_now].
  - intros name vmin vmax initial r0 rs y bl rr g t Hn Hf.
    destruct (edit_session_confirm fuel name vmin vmax initial r0 rs 0
                y bl rr g t Hn Hf) as (t' & H & Hs).
    exists t'. split; [exact H | ].
    rewrite Hs. apply app_nil_r.
Qed.

(** Three polls of the frequency editor and a confirmation: the value goes
    from 50 to 47 and nothing sleeps. *)
Lemma editing_loop_does_not_sleep_witness :
  exists t',
    update_one_setting 4 "frequency" 10 200 50
      (mkWorld (mkInputs [1; 1; 1; 1] [1; 1; 1; 0; 1] [0; 0; 0; 3])
         initial_globals [])
    = Done 47 (mkWorld (mkInputs [] [] []) initial_globals t')
    /\ sleeps t' = [].
Proof.
  refine (proj2 (proj2 (proj2 (editing_loop_does_not_sleep 24 128 4)))
            "frequency"%string 10 200 50 0 [0; 0; 3] [] [] []
            initial_globals [] _ _); cbn; lia.
Defined.

(** ** A session from the main menu through both submenus *)

(** The counter goes from 0 to 2 in the main menu (the cursor stays at 0);
    the blue button opens the settings and then the frequency editor; the
    counter goes down by 500 (the edited value saturates at 200) and the
    yellow button cancels; the yellow button leaves the settings with the
    counter at 1 (the main cursor moves to the servo test); the blue
    button enters the test and then switches the power on; the counter goes
    up by 10 (40 percent); the yellow button leaves the test.  The script
    then waits for the blue pin with the settings untouched, the relay
    at 1, and the duty of 40 percent on the servo channel. *)
Example main_menu_session :
  let i := mkInputs [1; 1; 0; 1; 0; 1; 1; 1; 0; 1]
             [1; 0; 1; 0; 1; 1; 1; 0; 1; 0; 1; 1; 1]
             [0; 2; 2; 2; -498; -498; 1; 1; 1; 1; 11; 11; 11] in
  match main 24 128 10 (initial_world i) with
  | Blocked w =>
      glob w = mkGlobals 50 2500 8750 false 40 /\
      relay_level w = Some 1 /\
      servo_freq_out w = Some 50 /\
      servo_duty_out w = Some 5000 /\
      env w = mkInputs [] [] []
  | _ => False
  end.
Proof. vm_compute. repeat split; reflexivity. Qed.

(** ** The buttons *)

Lemma button_pressed_released (b : button) (v : Z) fuel y bl r g t :
  v <> 0 ->
  button_pressed fuel b (mkWorld (feed b [v] y bl r) g t)
  = Done false (mkWorld (mkInputs y bl r) g (t ++ [PinRead b v])).
Proof.
  intros Hv. apply Z.eqb_neq in Hv.
  destruct b; unfold button_pressed, bind, pin_value, feed; cbn;
    rewrite Hv; reflexivity.
Qed.

(** X1.  [button_pressed] on a released button (any non-zero level) reads
    the pin once and returns [False] without sleeping; on a button found
    pressed and released [hold] samples later it returns [True] once, after
    reading up to and including the release sample and sleeping 50 ms for
    each sample it was held: the samples after the release are left for the
    next call, and the other inputs and the globals are untouched. *)
Theorem button_pressed_reports_once (fuel : nat) (b : button) (hold : nat)
    (v : Z) (y bl r : list Z) (g : globals) (t : list event)
    (Hreleased : v <> 0) (Hhold : (hold < fuel)%nat) :
  button_pressed fuel b (mkWorld (feed b [v] y bl r) g t)
  = Done false (mkWorld (mkInputs y bl r) g (t ++ [PinRead b v])) /\
  button_pressed fuel b (mkWorld (feed b (press hold) y bl r) g t)
  = Done true (mkWorld (mkInputs y bl r) g (t ++ press_events b hold)) /\
  sleeps (t ++ press_events b hold) = sleeps t ++ repeat (Sleep 50) hold.
Proof.
  split; [apply button_pressed_released; exact Hreleased | ].
  split; [apply button_pressed_press; exact Hhold | ].
  rewrite sleeps_app, sleeps_press_events. reflexivity.
Qed.

Lemma button_pressed_reports_once_witness :
  button_pressed 3 button_blue
    (mkWorld (mkInputs [1] [0; 0; 0; 1; 1; 0] [5]) initial_globals [])
  = Done true
      (mkWorld (mkInputs [1] [1; 0] [5]) initial_globals
         [PinRead button_blue 0; PinRead button_blue 0; Sleep 50;
          PinRead button_blue 0; Sleep 50; PinRead button_blue 1]).
Proof.
  refine (proj1 (proj2 (button_pressed_reports_once 3 button_blue 2 1
                          [1] [1; 0] [5] initial_globals [] _ _)));
    [discriminate | lia].
Defined.

Lemma wait_release_held (b : button) n :
  forall fuel y bl r g t,
  (n < fuel)%nat -> pin_rest b y bl = [] ->
  exists t',
    wait_release fuel b (mkWorld (feed b (repeat 0 n) y bl r) g t)
    = Blocked (mkWorld (mkInputs y bl r) g t')
    /\ sleeps t' = sleeps t ++ repeat (Sleep 50) n.
Proof.
  induction n as [|n IH]; intros fuel y bl r g t Hf Hrest;
    (destruct fuel as [|f]; [lia | ]).
  - exists t. split; [ | symmetry; apply app_nil_r].
    destruct b; cbn in Hrest; subst; reflexivity.
  - destruct (IH f y bl r g ((t ++ [PinRead b 0]) ++ [Sleep 50]))
      as (t' & H & Hs); [lia | exact Hrest | ].
    exists t'. split.
    + destruct b; cbn [wait_release]; unfold bind, pin_value, feed; cbn;
        unfold feed in H; exact H.
    + rewrite Hs, !sleeps_app. cbn. rewrite app_nil_r, <- app_assoc.
      reflexivity.
Qed.

(** X2.  While the button stays pressed, [button_pressed] does not return:
    when the pin reads 0 for all the samples there are, the call sleeps
    50 ms after every sample but the first and then waits for the next
    one. *)
Theorem button_pressed_waits_for_release (fuel : nat) (b : button) (n : nat)
    (y bl r : list Z) (g : globals) (t : list event)
    (Hfuel : (n < fuel)%nat) (Hheld : pin_rest b y bl = []) :
  exists t',
    button_pressed fuel b (mkWorld (feed b (repeat 0 (S n)) y bl r) g t)
    = Blocked (mkWorld (mkInputs y bl r) g t')
    /\ sleeps t' = sleeps t ++ repeat (Sleep 50) n.
Proof.
  destruct (wait_release_held b n fuel y bl r g (t ++ [PinRead b 0])
              Hfuel Hheld) as (t' & H & Hs).
  exists t'. split.
  - destruct b; unfold button_pressed, bind, pin_value, feed in *; cbn;
      rewrite H; reflexivity.
  - rewrite Hs, sleeps_app. cbn. rewrite app_nil_r. reflexivity.
Qed.

Lemma button_pressed_waits_for_release_witness :
  exists t',
    button_pressed 5 button_yellow
      (mkWorld (mkInputs [0; 0; 0] [1] []) initial_globals [])
    = Blocked (mkWorld (mkInputs [] [1] []) initial_globals t')
    /\ sleeps t' = [Sleep 50; Sleep 50].
Proof.
  apply (button_pressed_waits_for_release 5 button_yellow 2 [] [1] []
           initial_globals []); [lia | reflexivity].
Defined.

(** ** What an editing session can return *)

(** X3.  Whatever the buttons and the encoder do, a call of
    [update_one_setting] with [setting_min <= setting_max] that returns,
    returns [original_value] or a value in
    [[setting_min, setting_max]], and leaves every global as it was. *)
Theorem update_one_setting_returns_original_or_in_range (fuel : nat)
    (name : string) (setting_min setting_max original_value : Z)
    (w w' : world) (v : Z)
    (Hbounds : setting_min <= setting_max)
    (Hreturn : update_one_setting fuel name setting_min setting_max
                 original_value w = Done v w') :
  (v = original_value \/ setting_min <= v <= setting_max) /\
  glob w' = glob w.
Proof.
  assert (Hq : quiet passive (fun w1 => glob w1 = glob w))
    by (intros w1 i e H _; exact H).
  pose proof (update_one_setting_result (fun w1 => glob w1 = glob w) Hq
                fuel name setting_min setting_max original_value w
                Hbounds eq_refl) as H.
  apply (wp_done _ _ _ _ _ _ H) in Hreturn.
  destruct Hreturn as [Hg Hv]. split; assumption.
Qed.

Lemma update_one_setting_returns_original_or_in_range_witness :
  exists w',
    update_one_setting 3 "servo min" 0 5000 2500
      (mkWorld (mkInputs [1; 1] [1; 0; 1] [0; 9000]) initial_globals [])
    = Done 0 w' /\
    (0 = 2500 \/ 0 <= 0 <= 5000) /\ glob w' = initial_globals.
Proof.
  destruct (update_one_setting 3 "servo min" 0 5000 2500
              (mkWorld (mkInputs [1; 1] [1; 0; 1] [0; 9000])
                 initial_globals []))
    as [v w'| | |] eqn:E.
  2-4: vm_compute in E; discriminate.
  assert (Hv : v = 0) by (vm_compute in E; injection E as <- _; reflexivity).
  subst v. exists w'. split; [reflexivity | ].
  apply (update_one_setting_returns_original_or_in_range 3 "servo min"
           0 5000 2500
           (mkWorld (mkInputs [1; 1] [1; 0; 1] [0; 9000]) initial_globals [])
           w' 0); [lia | exact E].
Defined.

(** ** The main loop and the help screen *)

Lemma while_true_never_returns {L} fuel (body : L -> M L) l w :
  wp (while fuel (fun _ => true) body l) (fun _ _ => False) (fun _ => True) w.
Proof.
  eapply wp_mono;
    [apply (wp_while (fun _ _ => True) (fun _ => True) fuel
              (fun _ => true) body) | | ]; auto.
  - intros l1 w1 _ _. apply keeps_True. exact I.
  - cbn. intros l' w' [_ H]. discriminate H.
Qed.

(** X4.  The script never leaves its main menu loop: for every input and
    every bound on the passes, [main] does not return; it waits at a read,
    uses up the bound, or is stopped by an exception of [update_servo]. *)
Theorem main_never_returns (prec emax : Z) (fuel : nat) (w : world) :
  exists w',
    main prec emax fuel w = Blocked w' \/
    main prec emax fuel w = OutOfFuel w' \/
    main prec emax fuel w = Raised w'.
Proof.
  assert (H : wp (main prec emax fuel) (fun _ _ => False) (fun _ => True) w).
  { unfold main. skip_steps. unfold main_loop.
    apply while_true_never_returns. }
  unfold wp in H.
  destruct (main prec emax fuel w) as [l w'|w'|w'|w'];
    [contradiction | exists w'; auto ..].
Qed.

Lemma help_wait_body_idle fuel y bl r g t :
  (yellow <- button_pressed fuel button_yellow ;;
   if yellow then ret (Return tt)
   else (sleep_ms 50 ;; ret (@Continue unit unit tt)))
    (mkWorld (mkInputs (1 :: y) bl r) g t)
  = Done (Continue tt)
      (mkWorld (mkInputs y bl r) g
         (t ++ [PinRead button_yellow 1; Sleep 50])).
Proof.
  erewrite bind_eq by apply button_pressed_released_yellow. cbv beta iota.
  unfold sleep_ms, bind, emit, ret. cbn [env glob trace].
  rewrite <- app_assoc. reflexivity.
Qed.

Lemma help_wait_loop_idle F n :
  forall fuel y bl r g t,
  (n <= fuel)%nat ->
  loop fuel
    (fun _ : unit =>
       yellow <- button_pressed F button_yellow ;;
       if yellow then ret (Return tt)
       else (sleep_ms 50 ;; ret (Continue tt))) tt
    (mkWorld (mkInputs (repeat 1 n ++ y) bl r) g t)
  = loop (fuel - n)
      (fun _ : unit =>
         yellow <- button_pressed F button_yellow ;;
         if yellow then ret (Return tt)
         else (sleep_ms 50 ;; ret (Continue tt))) tt
      (mkWorld (mkInputs y bl r) g
         (t ++ List.concat (repeat [PinRead button_yellow 1; Sleep 50] n))).
Proof.
  induction n as [|n IH]; intros fuel y bl r g t Hf.
  - cbn. rewrite Nat.sub_0_r, app_nil_r. reflexivity.
  - destruct fuel as [|f]; [lia | ].
    cbn [repeat app loop Nat.sub List.concat].
    erewrite bind_eq by apply help_wait_body_idle. cbv beta iota.
    rewrite IH by lia. rewrite <- app_assoc. reflexivity.
Qed.

Lemma sleeps_help_idle n :
  sleeps (List.concat (repeat [PinRead button_yellow 1; Sleep 50] n))
  = repeat (Sleep 50) n.
Proof.
  induction n as [|n IH]; [reflexivity | ].
  cbn [repeat List.concat]. rewrite sleeps_app, IH. reflexivity.
Qed.

(** X5.  The help screen is left by the yellow button and by nothing else:
    [help_wait] polls the yellow pin only, sleeping 50 ms after every poll
    that finds it released, and returns once it has seen the button pressed
    and released again; it reads neither the blue pin nor the encoder and
    changes no global. *)
Theorem help_wait_returns_on_yellow (fuel n hold : nat)
    (y bl r : list Z) (g : globals) (t : list event)
    (Hpolls : (n < fuel)%nat) (Hhold : (hold < fuel)%nat) :
  exists t',
    help_wait fuel
      (mkWorld (mkInputs (repeat 1 n ++ press hold ++ y) bl r) g t)
    = Done tt (mkWorld (mkInputs y bl r) g t')
    /\ sleeps t' = sleeps t ++ repeat (Sleep 50) (n + hold).
Proof.
  unfold help_wait. rewrite help_wait_loop_idle by lia.
  destruct (fuel - n)%nat as [|k] eqn:Hk; [lia | ].
  cbn [loop].
  erewrite bind_eq.
  2:{ erewrite bind_eq by (apply button_pressed_press_yellow; exact Hhold).
      reflexivity. }
  eexists. split; [reflexivity | ].
  rewrite !sleeps_app, sleeps_help_idle, sleeps_press_events, repeat_app,
    app_assoc.
  reflexivity.
Qed.

Lemma help_wait_returns_on_yellow_witness :
  exists t',
    help_wait 4
      (mkWorld (mkInputs [1; 1; 0; 0; 1; 1] [0; 0] [9]) initial_globals [])
    = Done tt (mkWorld (mkInputs [1] [0; 0] [9]) initial_globals t')
    /\ sleeps t' = [Sleep 50; Sleep 50; Sleep 50].
Proof.
  apply (help_wait_returns_on_yellow 4 2 1 [1] [0; 0] [9] initial_globals []);
    lia.
Defined.

(** ** More invariants of the menus and of the servo test *)

Lemma keeps_of_world {A} (P : world -> Prop) (m : M A) :
  (forall w, P w -> P (world_of (m w))) -> keeps P m.
Proof.
  intros H w Hw. specialize (H w Hw). unfold wp.
  destruct (m w); exact H.
Qed.

(** A setter keeps what its assignment keeps. *)
Lemma passive_setter (P : world -> Prop) fuel name mn mx
    (field : globals -> Z) (set : Z -> globals -> globals) :
  quiet passive P ->
  (forall w v, P w ->
     P {| env := env w; glob := set v (glob w); trace := trace w |}) ->
  keeps P (g <- get_globals ;;
           v <- update_one_setting fuel name mn mx (field g) ;;
           modify_globals (set v)).
Proof.
  intros HP Hset.
  apply keeps_bind; [apply keeps_get_globals | intros g].
  apply keeps_bind; [apply keeps_update_one_setting; exact HP | intros v].
  apply keeps_modify_globals. intros w Hw. apply Hset. exact Hw.
Qed.

Lemma passive_keeps_outputs (sel : event -> option Z) (o : option Z) :
  (forall e, passive e = true -> sel e = None) ->
  quiet passive (fun w => last_write sel (trace w) = o).
Proof.
  intros Hsel w i e Hw He. cbn [trace].
  rewrite last_write_snoc, (Hsel e He). exact Hw.
Qed.

Lemma passive_is_relay e : passive e = true -> is_relay e = None.
Proof. destruct e; try reflexivity; discriminate. Qed.

Lemma passive_is_servo_freq e : passive e = true -> is_servo_freq e = None.
Proof. destruct e as [| | | |[]| | | |]; try reflexivity; discriminate. Qed.

Lemma passive_is_servo_duty e : passive e = true -> is_servo_duty e = None.
Proof. destruct e as [| | | | |[]| | |]; try reflexivity; discriminate. Qed.

(** X6.  The settings menu and the editors it opens never drive the relay
    or the servo channel and never touch the test session: wherever
    [settings] stands or returns, the relay level, the servo frequency and
    the servo duty are those of its start, and so are [g_powered] and
    [g_percent].  (An edited frequency reaches the PWM only when the servo
    test is entered.) *)
Theorem settings_drives_nothing (fuel : nat) (w : world) :
  servo_outputs (world_of (settings fuel w)) = servo_outputs w /\
  g_powered (glob (world_of (settings fuel w))) = g_powered (glob w) /\
  g_percent (glob (world_of (settings fuel w))) = g_percent (glob w).
Proof.
  set (P := fun w' : world =>
              (relay_level w' = relay_level w /\
               servo_freq_out w' = servo_freq_out w /\
               servo_duty_out w' = servo_duty_out w) /\
              g_powered (glob w') = g_powered (glob w) /\
              g_percent (glob w') = g_percent (glob w)).
  assert (HP : quiet passive P).
  { intros w1 i e ((H1 & H2 & H3) & H4 & H5) He.
    split; [ | split; assumption].
    split; [ | split].
    - apply (passive_keeps_outputs is_relay _ passive_is_relay w1 i e H1 He).
    - apply (passive_keeps_outputs is_servo_freq _ passive_is_servo_freq
               w1 i e H2 He).
    - apply (passive_keeps_outputs is_servo_duty _ passive_is_servo_duty
               w1 i e H3 He). }
  assert (H : P (world_of (settings fuel w))).
  { apply keeps_world; [ | unfold P; auto].
    apply keeps_settings; [exact HP | | | ]; intros f;
      apply passive_setter; try exact HP; intros w1 v H1; exact H1. }
  destruct H as ((H1 & H2 & H3) & H4 & H5).
  unfold servo_outputs. rewrite H1, H2, H3. auto.
Qed.

(** The percent after [add_percent] is a percentage. *)
Lemma percent_add_percent diff :
  keeps percent_in_range (modify_globals (add_percent diff)).
Proof.
  apply keeps_modify_globals. intros w _. unfold percent_in_range. cbn.
  rewrite add_percent_clamp. apply clamp_range. lia.
Qed.

Lemma percent_quiet : quiet any_event percent_in_range.
Proof. intros w i e H _. exact H. Qed.

Lemma percent_run_test prec emax fuel w :
  percent_in_range (world_of (run_test prec emax fuel w)).
Proof.
  pose proof (robust_passive _ percent_quiet) as HP.
  assert (Hpow : forall w1 b, percent_in_range w1 ->
            percent_in_range
              {| env := env w1; glob := set_g_powered b (glob w1);
                 trace := trace w1 |}) by (intros w1 b H; exact H).
  apply wp_world. unfold run_test. apply wp_bind.
  destruct w as [i g t]. unfold wp at 1. rewrite run_test_init_run.
  assert (H50 : forall t1, percent_in_range (mkWorld i (entered g) t1))
    by (intros t1; unfold percent_in_range; cbn; lia).
  destruct (servo_duty prec emax (entered g)); [ | apply H50].
  apply wp_keeps_bind; [apply keeps_rotary; exact HP | apply H50 | ].
  intros r w2 H2.
  apply wp_keeps_bind; [ | exact H2 | intros l w3 H3].
  - apply keeps_run_test_loop;
      [exact HP
      | apply robust_update_servo; exact percent_quiet
      | apply robust_toggle_power; [exact percent_quiet | exact Hpow]
      | exact percent_add_percent].
  - apply robust_run_test_exit; [exact percent_quiet | exact Hpow | exact H3].
Qed.

(** X7.  [g_percent] is a percentage wherever the servo test stands or
    returns, whatever it was on entry and however far the encoder jumps in
    one poll; and from power-up on it is one wherever the script stands. *)
Theorem percent_stays_in_range (prec emax : Z) (fuel : nat) :
  (forall w, percent_in_range (world_of (run_test prec emax fuel w))) /\
  (forall i,
     percent_in_range (world_of (main prec emax fuel (initial_world i)))).
Proof.
  split; [intros w; apply percent_run_test | ].
  intros i. pose proof (robust_passive _ percent_quiet) as HP.
  apply keeps_world; [ | unfold percent_in_range; cbn; lia].
  apply keeps_main; [exact HP | | | | ];
    try (intros f; apply passive_setter; try exact HP;
         intros w1 v H1; exact H1).
  intros f. apply keeps_of_world. intros w1 _. apply percent_run_test.
Qed.

Lemma relay_undriven_passive : quiet passive relay_undriven_or_follows.
Proof.
  intros w i e [H|H] He.
  - left. unfold relay_level in *.
    apply (passive_keeps_outputs is_relay None passive_is_relay w i e H He).
  - right. apply (relay_passive w i e H He).
Qed.

(** A pass of a menu loop keeps what the entry it opens keeps. *)
Lemma main_body_dispatch (P : world -> Prop) prec emax fuel l :
  quiet passive P ->
  keeps P (if m_which l =? 0 then settings fuel
           else if m_which l =? 1 then run_test prec emax fuel
           else (show_help ;; help_wait fuel)) ->
  keeps P (main_body prec emax fuel l).
Proof.
  intros HP Hd. unfold main_body.
  apply keeps_bind; [apply keeps_sleep_ms; exact HP | intros _].
  apply keeps_bind; [apply keeps_green_duty; exact HP | intros _].
  apply keeps_bind; [apply keeps_blue_duty; exact HP | intros _].
  apply keeps_bind; [apply keeps_button_pressed; exact HP | intros blue].
  apply keeps_bind; [ | intros _].
  { destruct blue; [ | apply keeps_ret].
    apply keeps_bind; [exact Hd | intros _].
    apply keeps_show_main_menu; exact HP. }
  apply keeps_bind; [apply keeps_rotary; exact HP | intros r].
  destruct (negb (m_r_val_old l =? r)); [ | apply keeps_ret].
  apply keeps_bind; [apply keeps_show_main_menu; exact HP | intros _].
  apply keeps_ret.
Qed.

Lemma settings_body_dispatch (P : world -> Prop) fuel l :
  quiet passive P ->
  keeps P (if s_which l =? 0 then set_frequency fuel
           else if s_which l =? 1 then set_min fuel
           else set_max fuel) ->
  keeps P (settings_body fuel l).
Proof.
  intros HP Hd. unfold settings_body.
  apply keeps_bind; [apply keeps_sleep_ms; exact HP | intros _].
  apply keeps_bind; [apply keeps_button_pressed; exact HP | intros yellow].
  apply keeps_bind; [apply keeps_button_pressed; exact HP | intros blue].
  apply keeps_bind; [ | intros _].
  { destruct blue; [ | apply keeps_ret].
    apply keeps_bind; [exact Hd | intros _].
    apply keeps_show_settings_menu; exact HP. }
  apply keeps_bind; [apply keeps_rotary; exact HP | intros r].
  destruct (negb (s_r_val_old l =? r)); [ | apply keeps_ret].
  apply keeps_bind; [apply keeps_show_settings_menu; exact HP | intros _].
  apply keeps_ret.
Qed.

Lemma relay_level_passive (o : option Z) :
  quiet passive (fun w => relay_level w = o).
Proof. exact (passive_keeps_outputs is_relay o passive_is_relay). Qed.

(** X8.  The script writes the relay pin in the servo test only.  It is
    unwritten at power-up; a pass of the main menu loop whose cursor is not
    on the servo test (settings, editors and help included) leaves the
    relay as it was; and wherever the script stands, the relay has never
    been written or it follows the power flag (1 when [g_powered] is
    false, 0 when true). *)
Theorem relay_written_in_test_only (prec emax : Z) (fuel : nat) :
  (forall i, relay_level (initial_world i) = None) /\
  (forall l w, m_which l <> 1 ->
     relay_level (world_of (main_body prec emax fuel l w)) = relay_level w) /\
  (forall i,
     relay_undriven_or_follows
       (world_of (main prec emax fuel (initial_world i)))).
Proof.
  split; [reflexivity | split].
  - intros l w Hl.
    apply (keeps_world (fun w' => relay_level w' = relay_level w));
      [ | reflexivity].
    pose proof (relay_level_passive (relay_level w)) as HP.
    apply main_body_dispatch; [exact HP | ].
    apply Z.eqb_neq in Hl. rewrite Hl.
    destruct (m_which l =? 0).
    + apply keeps_settings; [exact HP | | | ]; intros f;
        apply passive_setter; try exact HP; intros w1 v H1; exact H1.
    + apply keeps_bind; [apply keeps_show_help; exact HP | intros _].
      apply keeps_help_wait; exact HP.
  - intros i. apply keeps_world; [ | left; reflexivity].
    apply keeps_main; [exact relay_undriven_passive | | | | ];
      try (intros f; apply passive_setter;
           [exact relay_undriven_passive | intros w1 v H1; exact H1]).
    intros f. apply keeps_of_world. intros w1 _. right. apply relay_run_test.
Qed.

(** A pass of the main menu with the cursor on the help entry. *)
Lemma relay_written_in_test_only_witness :
  relay_level
    (world_of (main_body 24 128 3 {| m_r_val_old := 0; m_which := 2 |}
                 (initial_world (mkInputs [0; 1] [0; 1] [0]))))
  = None.
Proof.
  refine (proj1 (proj2 (relay_written_in_test_only 24 128 3))
            {| m_r_val_old := 0; m_which := 2 |}
            (initial_world (mkInputs [0; 1] [0; 1] [0])) _).
  cbn. discriminate.
Defined.

(** X9.  In the settings menu the cursor chooses the one setting a pass can
    change: with the cursor at 0 the servo minimum and maximum keep their
    values, with the cursor at 1 the frequency and the servo maximum do,
    and with any other cursor the frequency and the servo minimum do,
    wherever the pass stands or returns. *)
Theorem settings_cursor_selects_field (fuel : nat) (l : settings_locals)
    (w : world) :
  (s_which l = 0 ->
   g_servo_min (glob (world_of (settings_body fuel l w)))
   = g_servo_min (glob w) /\
   g_servo_max (glob (world_of (settings_body fuel l w)))
   = g_servo_max (glob w)) /\
  (s_which l = 1 ->
   g_frequency (glob (world_of (settings_body fuel l w)))
   = g_frequency (glob w) /\
   g_servo_max (glob (world_of (settings_body fuel l w)))
   = g_servo_max (glob w)) /\
  (s_which l <> 0 -> s_which l <> 1 ->
   g_frequency (glob (world_of (settings_body fuel l w)))
   = g_frequency (glob w) /\
   g_servo_min (glob (world_of (settings_body fuel l w)))
   = g_servo_min (glob w)).
Proof.
  split; [ | split].
  - intros Hl.
    apply (keeps_world
             (fun w' => g_servo_min (glob w') = g_servo_min (glob w) /\
                        g_servo_max (glob w') = g_servo_max (glob w)));
      [ | auto].
    assert (HP : quiet passive
                   (fun w' => g_servo_min (glob w') = g_servo_min (glob w) /\
                              g_servo_max (glob w') = g_servo_max (glob w)))
      by (intros w1 i e H _; exact H).
    apply settings_body_dispatch; [exact HP | ]. rewrite Hl. cbn.
    apply passive_setter; [exact HP | intros w1 v H1; exact H1].
  - intros Hl.
    apply (keeps_world
             (fun w' => g_frequency (glob w') = g_frequency (glob w) /\
                        g_servo_max (glob w') = g_servo_max (glob w)));
      [ | auto].
    assert (HP : quiet passive
                   (fun w' => g_frequency (glob w') = g_frequency (glob w) /\
                              g_servo_max (glob w') = g_servo_max (glob w)))
      by (intros w1 i e H _; exact H).
    apply settings_body_dispatch; [exact HP | ]. rewrite Hl. cbn.
    apply passive_setter; [exact HP | intros w1 v H1; exact H1].
  - intros H0 H1.
    apply (keeps_world
             (fun w' => g_frequency (glob w') = g_frequency (glob w) /\
                        g_servo_min (glob w') = g_servo_min (glob w)));
      [ | auto].
    assert (HP : quiet passive
                   (fun w' => g_frequency (glob w') = g_frequency (glob w) /\
                              g_servo_min (glob w') = g_servo_min (glob w)))
      by (intros w1 i e H _; exact H).
    apply settings_body_dispatch; [exact HP | ].
    apply Z.eqb_neq in H0, H1. rewrite H0, H1.
    apply passive_setter; [exact HP | intros w1 v Hw; exact Hw].
Qed.

(** The cursor on the third entry, the editor turned down by 300 and
    confirmed: the servo maximum changes, the other two settings stay. *)
Lemma settings_cursor_selects_field_witness :
  let w := initial_world (mkInputs [1; 1; 1] [0; 1; 1; 0; 1] [0; 300; 300]) in
  let w' := world_of (settings_body 5 {| s_keep_going := true;
                                         s_r_val_old := 0; s_which := 2 |}
                        w) in
  g_servo_max (glob w') = 8450 /\
  g_frequency (glob w') = 50 /\ g_servo_min (glob w') = 2500.
Proof.
  cbv zeta. split; [vm_compute; reflexivity | ].
  refine (proj2 (proj2 (settings_cursor_selects_field 5
            {| s_keep_going := true; s_r_val_old := 0; s_which := 2 |}
            (initial_world (mkInputs [1; 1; 1] [0; 1; 1; 0; 1]
                              [0; 300; 300])))) _ _);
    cbn; discriminate.
Defined.

(** The servo frequency is written on entry to the test and not again. *)
Section ServoFrequency.

Variables prec emax : Z.
Variable f : Z.

Let P : world -> Prop := fun w => servo_freq_out w = Some f.

Lemma freq_quiet : quiet not_servo_freq P.
Proof.
  intros w i e Hw He. unfold P, servo_freq_out in *. cbn [trace].
  rewrite last_write_snoc.
  destruct e as [| | | |[]| | | |]; try exact Hw; discriminate.
Qed.

Lemma freq_passive : quiet passive P.
Proof.
  apply (quiet_weaken passive not_servo_freq); [ | exact freq_quiet].
  intros [| | | |[]| | | |] He; try reflexivity; discriminate.
Qed.

Lemma freq_emit e : not_servo_freq e = true -> keeps P (emit e).
Proof. intros He. apply (keeps_emit not_servo_freq); [exact freq_quiet | exact He]. Qed.

Lemma freq_modify g : keeps P (modify_globals g).
Proof. apply keeps_modify_globals. intros w Hw. exact Hw. Qed.

Lemma freq_update_servo : keeps P (update_servo prec emax).
Proof.
  unfold update_servo. apply keeps_bind; [apply keeps_get_globals | ].
  intros g. destruct (servo_duty prec emax g); [ | apply keeps_raise].
  apply freq_emit. reflexivity.
Qed.

Lemma freq_toggle_power : keeps P (toggle_power prec emax).
Proof.
  unfold toggle_power, relay_value, pwm_duty_u16.
  apply keeps_bind; [apply freq_modify | intros _].
  apply keeps_bind; [apply keeps_get_globals | intros g].
  apply keeps_bind; [ | intros _].
  { destruct (g_powered g);
      repeat (apply keeps_bind; [ | intros _]);
      apply freq_emit; reflexivity. }
  apply keeps_bind;
    [apply keeps_show_test_details; exact freq_passive | intros _].
  apply freq_update_servo.
Qed.

Lemma freq_run_test_exit : keeps P run_test_exit.
Proof.
  unfold run_test_exit, relay_value, pwm_duty_u16.
  repeat (apply keeps_bind; [ | intros _]);
    first [apply freq_modify | apply freq_emit; reflexivity].
Qed.

Lemma freq_run_test_loop fuel l : keeps P (run_test_loop prec emax fuel l).
Proof.
  apply keeps_run_test_loop;
    [exact freq_passive | exact freq_update_servo | exact freq_toggle_power
    | intros diff; apply freq_modify].
Qed.

End ServoFrequency.

(** X10.  The servo's PWM frequency is set once, on entry to the servo
    test, from [g_frequency], and nothing in the test changes it: wherever
    [run_test] stands or returns, the frequency of the servo channel is the
    [g_frequency] the test was entered with, and so is [g_frequency]
    itself. *)
Theorem servo_frequency_fixed_in_test (prec emax : Z) (fuel : nat)
    (w : world) :
  servo_freq_out (world_of (run_test prec emax fuel w))
  = Some (g_frequency (glob w)) /\
  g_frequency (glob (world_of (run_test prec emax fuel w)))
  = g_frequency (glob w).
Proof.
  split.
  - apply wp_world. unfold run_test. apply wp_bind.
    destruct w as [i g t]. unfold wp at 1. rewrite run_test_init_run.
    cbn [glob].
    assert (H0 : forall evs,
              last_write is_servo_freq evs = None ->
              servo_freq_out (mkWorld i (entered g)
                                ((t ++ entry_events g) ++ evs))
              = Some (g_frequency g)).
    { intros evs He. unfold servo_freq_out. cbn [trace].
      rewrite last_write_app, He, last_write_app. reflexivity. }
    destruct (servo_duty prec emax (entered g)) as [d|].
    + apply wp_keeps_bind;
        [apply keeps_rotary, freq_passive
        | rewrite app_assoc; apply H0; reflexivity | ].
      intros r w2 H2.
      apply wp_keeps_bind;
        [apply freq_run_test_loop | exact H2 | intros l w3 H3].
      apply freq_run_test_exit. exact H3.
    + rewrite <- (app_nil_r (t ++ entry_events g)). apply H0. reflexivity.
  - pose proof (run_test_settings prec emax fuel w) as H.
    unfold settings_of in H. injection H as H _ _. exact H.
Qed.

(** ** The counter across an editing session *)

Lemma show_settings_menu_run which i g t :
  exists t', show_settings_menu which (mkWorld i g t)
             = Done tt (mkWorld i g t').
Proof.
  unfold show_settings_menu, bind, get_globals, oled_fill, oled_text,
    oled_show, emit.
  cbn [env glob trace]. eexists. reflexivity.
Qed.

(** The frequency setter whose session the blue button confirms. *)
Lemma set_frequency_confirmed fuel r0 (rs : list Z) hold y bl rr g t :
  (List.length rs < fuel)%nat -> (hold < fuel)%nat ->
  exists t',
    set_frequency fuel
      (mkWorld (mkInputs (repeat 1 (List.length rs) ++ 1 :: y)
                  (repeat 1 (List.length rs) ++ press hold ++ bl)
                  (r0 :: rs ++ rr)) g t)
    = Done tt
        (mkWorld (mkInputs y bl rr)
           (set_g_frequency
              (edits FREQUENCY_MIN FREQUENCY_MAX r0 (g_frequency g) rs) g)
           t').
Proof.
  intros Hn Hh.
  destruct (edit_session_confirm fuel "frequency" FREQUENCY_MIN FREQUENCY_MAX
              (g_frequency g) r0 rs hold y bl rr g t Hn Hh) as (t' & H & _).
  exists t'. unfold set_frequency.
  erewrite bind_eq by reflexivity. cbv beta. cbn [glob].
  erewrite bind_eq by exact H. reflexivity.
Qed.

(** X11.  The settings menu measures the rotary delta from the counter
    value it saw before an editor was opened: in the pass that opens the
    frequency editor, the setter assigns the confirmed value, and the
    cursor then moves by the counter value of the previous pass minus the
    one read after the editor has returned.  Turning the knob in the editor
    therefore also moves the menu cursor. *)
Theorem settings_cursor_moves_with_editor (fuel : nat)
    (r_old r_entry r_after : Z) (rs : list Z) (select hold : nat)
    (y bl rr : list Z) (g : globals) (t : list event)
    (Hpolls : (List.length rs < fuel)%nat)
    (Hselect : (select < fuel)%nat) (Hhold : (hold < fuel)%nat) :
  exists t',
    settings_body fuel
      {| s_keep_going := true; s_r_val_old := r_old; s_which := 0 |}
      (mkWorld
         (mkInputs (1 :: repeat 1 (List.length rs) ++ 1 :: y)
            (press select ++ repeat 1 (List.length rs) ++ press hold ++ bl)
            (r_entry :: rs ++ r_after :: rr)) g t)
    = Done
        {| s_keep_going := true; s_r_val_old := r_after;
           s_which := if r_old =? r_after then 0
                      else clamp (0 + (r_old - r_after)) 0 2 |}
        (mkWorld (mkInputs y bl rr)
           (set_g_frequency
              (edits FREQUENCY_MIN FREQUENCY_MAX r_entry (g_frequency g) rs)
              g)
           t').
Proof.
  unfold settings_body.
  erewrite bind_eq by apply emit_run. cbv beta.
  erewrite bind_eq by apply button_pressed_released_yellow. cbv beta iota.
  erewrite bind_eq by (apply button_pressed_press_blue; exact Hselect).
  cbv beta iota. cbn [s_which s_keep_going s_r_val_old Z.eqb].
  match goal with
  | |- context [set_frequency fuel] =>
      match goal with
      | |- context [mkWorld (mkInputs (_ ++ 1 :: y) _ _) g ?t0] =>
          destruct (set_frequency_confirmed fuel r_entry rs hold y bl
                      (r_after :: rr) g t0 Hpolls Hhold) as (t1 & H1)
      end
  end.
  match type of H1 with
  | _ = Done tt (mkWorld ?i ?g1 _) =>
      destruct (show_settings_menu_run 0 i g1 t1) as (t2 & H2)
  end.
  erewrite bind_eq by (erewrite bind_eq by exact H1; exact H2).
  cbv beta.
  erewrite bind_eq by apply rotary_value_run. cbv beta.
  destruct (r_old =? r_after) eqn:E; cbn [negb].
  - apply Z.eqb_eq in E. subst r_after. eexists. reflexivity.
  - match goal with
    | |- context [show_settings_menu ?c] =>
        match goal with
        | |- context [mkWorld ?i ?g1 (t2 ++ ?e)] =>
            destruct (show_settings_menu_run c i g1 (t2 ++ e)) as (t3 & H3)
        end
    end.
    erewrite bind_eq by exact H3. eexists. reflexivity.
Qed.

(** The knob turned three steps in the frequency editor and left there:
    the frequency becomes 53 and the settings cursor jumps to the third
    entry. *)
Lemma settings_cursor_moves_with_editor_witness :
  exists t',
    settings_body 4
      {| s_keep_going := true; s_r_val_old := 0; s_which := 0 |}
      (mkWorld (mkInputs [1; 1; 1] [0; 1; 1; 0; 1] [0; -3; -3])
         initial_globals [])
    = Done {| s_keep_going := true; s_r_val_old := -3; s_which := 2 |}
        (mkWorld (mkInputs [] [] [])
           (mkGlobals 53 2500 8750 false 50) t').
Proof.
  apply (settings_cursor_moves_with_editor 4 0 0 (-3) [-3] 0 0 [] [] []
           initial_globals []); cbn; lia.
Defined.

(** ** The duty at the lower end of the travel *)

Lemma float_eqb_eq x y : float_eqb x y = true -> x = y.
Proof.
  destruct x as [s|s| |s m e], y as [s'|s'| |s' m' e']; cbn;
    try discriminate; intros H.
  - apply Bool.eqb_prop in H. congruence.
  - apply Bool.eqb_prop in H. congruence.
  - reflexivity.
  - apply andb_true_iff in H. destruct H as [H He].
    apply andb_true_iff in H. destruct H as [Hs Hm].
    apply Bool.eqb_prop in Hs. apply Pos.eqb_eq in Hm.
    apply Z.eqb_eq in He. congruence.
Qed.

(** Zero times the float of any servo range is zero, in single and in
    double precision. *)
Lemma zero_times_range_checked :
  forallb
    (fun d =>
       float_eqb (SFmul 24 128 (S754_zero false) (float_of_int 24 128 d))
         (S754_zero false)
       && float_eqb (SFmul 53 1024 (S754_zero false)
                       (float_of_int 53 1024 d))
            (S754_zero false))
    (map Z.of_nat (seq 1 (Z.to_nat 10000))) = true.
Proof. vm_compute. reflexivity. Qed.

(** The float of a servo minimum plus zero truncates to that minimum. *)
Lemma minimum_plus_zero_checked :
  forallb
    (fun m =>
       match
         int_of_float (SFadd 24 128 (float_of_int 24 128 m)
                         (S754_zero false)),
         int_of_float (SFadd 53 1024 (float_of_int 53 1024 m)
                         (S754_zero false))
       with
       | Some a, Some b => (a =? m) && (b =? m)
       | _, _ => false
       end)
    (map Z.of_nat (seq 0 (Z.to_nat 5001))) = true.
Proof. vm_compute. reflexivity. Qed.

Lemma in_map_seq (z : Z) (start len : nat) :
  Z.of_nat start <= z < Z.of_nat start + Z.of_nat len ->
  In z (map Z.of_nat (seq start len)).
Proof.
  intros Hz. rewrite <- (Z2Nat.id z) by lia. apply in_map, in_seq. lia.
Qed.

(** X12.  At 0 percent the servo gets exactly its minimum: for all settings
    within their bounds, [update_servo] computes the duty [g_servo_min]
    when [g_percent] is 0, in single and in double precision. *)
Theorem zero_percent_gives_servo_min (g : globals)
    (Hmin : SERVO_MIN_MIN <= g_servo_min g <= SERVO_MIN_MAX)
    (Hmax : SERVO_MAX_MIN <= g_servo_max g <= SERVO_MAX_MAX)
    (Hpercent : g_percent g = 0) :
  servo_duty 24 128 g = Some (g_servo_min g) /\
  servo_duty 53 1024 g = Some (g_servo_min g).
Proof.
  unfold SERVO_MIN_MIN, SERVO_MIN_MAX, SERVO_MAX_MIN, SERVO_MAX_MAX in *.
  pose proof zero_times_range_checked as Hmul.
  rewrite forallb_forall in Hmul.
  specialize (Hmul (g_servo_max g - g_servo_min g)).
  pose proof minimum_plus_zero_checked as Hadd.
  rewrite forallb_forall in Hadd.
  specialize (Hadd (g_servo_min g)).
  assert (Hd : In (g_servo_max g - g_servo_min g)
                 (map Z.of_nat (seq 1 (Z.to_nat 10000))))
    by (apply in_map_seq; lia).
  assert (Hm : In (g_servo_min g) (map Z.of_nat (seq 0 (Z.to_nat 5001))))
    by (apply in_map_seq; lia).
  specialize (Hmul Hd). specialize (Hadd Hm). cbv beta in Hmul, Hadd.
  apply andb_true_iff in Hmul. destruct Hmul as [Hmul32 Hmul64].
  apply float_eqb_eq in Hmul32, Hmul64.
  unfold servo_duty. rewrite Hpercent.
  change (SFdiv 24 128 (float_of_int 24 128 0) (float_of_int 24 128 100))
    with (S754_zero false).
  change (SFdiv 53 1024 (float_of_int 53 1024 0) (float_of_int 53 1024 100))
    with (S754_zero false).
  rewrite Hmul32, Hmul64.
  destruct (int_of_float
              (SFadd 24 128 (float_of_int 24 128 (g_servo_min g))
                 (S754_zero false))) as [a|]; [ | discriminate].
  destruct (int_of_float
              (SFadd 53 1024 (float_of_int 53 1024 (g_servo_min g))
                 (S754_zero false))) as [b|]; [ | discriminate].
  apply andb_true_iff in Hadd. destruct Hadd as [Ha Hb].
  apply Z.eqb_eq in Ha, Hb. subst. split; reflexivity.
Qed.

Lemma zero_percent_gives_servo_min_witness :
  servo_duty 24 128 (mkGlobals 200 1234 9999 true 0) = Some 1234 /\
  servo_duty 53 1024 (mkGlobals 200 1234 9999 true 0) = Some 1234.
Proof.
  apply (zero_percent_gives_servo_min (mkGlobals 200 1234 9999 true 0));
    [cbn; unfold SERVO_MIN_MIN, SERVO_MIN_MAX; lia
    | cbn; unfold SERVO_MAX_MIN, SERVO_MAX_MAX; lia
    | reflexivity].
Defined.

(** ** The indicator LED and the screen *)

(** Reading and sleeping keep what reads and sleeps do not disturb. *)
Section Reading.

Variable ok : event -> bool.
Variable P : world -> Prop.
Hypothesis HP : quiet ok P.
Hypothesis ok_sleep : forall ms, ok (Sleep ms) = true.
Hypothesis ok_pin : forall b v, ok (PinRead b v) = true.
Hypothesis ok_rotary : forall v, ok (RotaryRead v) = true.

Lemma reading_sleep_ms ms : keeps P (sleep_ms ms).
Proof. apply (keeps_emit ok); [exact HP | apply ok_sleep]. Qed.

Lemma reading_pin b : keeps P (pin_value b).
Proof. apply (keeps_pin_value ok); [exact HP | apply ok_pin]. Qed.

Lemma reading_rotary : keeps P rotary_value.
Proof. apply (keeps_rotary_value ok); [exact HP | apply ok_rotary]. Qed.

Lemma reading_wait_release fuel b : keeps P (wait_release fuel b).
Proof.
  induction fuel as [|f IH]; cbn [wait_release]; [apply keeps_out_of_fuel | ].
  apply keeps_bind; [apply reading_pin | intros v].
  destruct (v =? 0); [ | apply keeps_ret].
  apply keeps_bind; [apply reading_sleep_ms | intros _; exact IH].
Qed.

Lemma reading_button_pressed fuel b : keeps P (button_pressed fuel b).
Proof.
  unfold button_pressed. apply keeps_bind; [apply reading_pin | intros v].
  destruct (v =? 0); [ | apply keeps_ret].
  apply keeps_bind; [apply reading_wait_release | intros _; apply keeps_ret].
Qed.

End Reading.

(** Sequencing under an invariant [P] that implies what must hold at a
    stop. *)
Lemma wp_keeps_bind_gen {A B} (P I : world -> Prop) (m : M A) (k : A -> M B)
    Q w :
  keeps P m -> P w -> (forall w', P w' -> I w') ->
  (forall a w', P w' -> wp (k a) Q I w') ->
  wp (bind m k) Q I w.
Proof.
  intros Hm Hw HI Hk. apply wp_bind.
  eapply wp_mono; [apply Hm; exact Hw | | exact HI].
  cbn. intros a w' Hw'. apply Hk. exact Hw'.
Qed.

Lemma blue_quiet : quiet not_blue_duty blue_shows_unpowered.
Proof.
  intros w i e Hw He. unfold blue_shows_unpowered, blue_led in *.
  cbn [trace glob]. rewrite last_write_snoc.
  destruct e as [| | | | |[]| | |]; try exact Hw; discriminate.
Qed.

Lemma blue_emit e :
  not_blue_duty e = true -> keeps blue_shows_unpowered (emit e).
Proof.
  intros He. apply (keeps_emit not_blue_duty); [exact blue_quiet | exact He].
Qed.

Lemma blue_show_test_details : keeps blue_shows_unpowered show_test_details.
Proof.
  unfold show_test_details, oled_fill, oled_text, oled_show.
  apply keeps_bind; [apply keeps_get_globals | intros g].
  repeat (apply keeps_bind; [ | intros _]); apply blue_emit; reflexivity.
Qed.

Lemma blue_update_servo prec emax :
  keeps blue_shows_unpowered (update_servo prec emax).
Proof.
  unfold update_servo. apply keeps_bind; [apply keeps_get_globals | ].
  intros g. destruct (servo_duty prec emax g); [ | apply keeps_raise].
  apply blue_emit. reflexivity.
Qed.

(** The power toggle writes the blue LED for the new flag. *)
Lemma blue_toggle_power prec emax :
  keeps blue_shows_unpowered (toggle_power prec emax).
Proof.
  intros w _. unfold toggle_power.
  apply wp_bind, wp_modify_globals, wp_bind, wp_get_globals. cbn [glob].
  assert (Hrest : forall w1, blue_shows_unpowered w1 ->
            wp (show_test_details ;; update_servo prec emax)
               (fun _ w' => blue_shows_unpowered w') blue_shows_unpowered w1).
  { intros w1 H1.
    apply wp_keeps_bind; [apply blue_show_test_details | exact H1 | ].
    intros _ w2 H2. apply blue_update_servo. exact H2. }
  apply wp_bind.
  destruct (g_powered (glob w)); cbn [negb set_g_powered g_powered].
  - apply wp_bind, wp_emit.
    apply (wp_keeps_bind blue_shows_unpowered);
      [apply blue_emit; reflexivity | | ].
    + unfold blue_shows_unpowered, blue_led. cbn [trace glob g_powered].
      rewrite last_write_snoc. reflexivity.
    + intros _ w1 H1.
      eapply wp_mono; [apply blue_emit; [reflexivity | exact H1] | | auto].
      cbn beta. intros _ w2 H2. apply Hrest. exact H2.
  - apply wp_bind, wp_emit.
    apply (wp_keeps_bind blue_shows_unpowered);
      [apply blue_emit; reflexivity | | ].
    + unfold blue_shows_unpowered, blue_led. cbn [trace glob g_powered].
      rewrite last_write_snoc. reflexivity.
    + intros _ w1 H1.
      eapply wp_mono; [apply blue_emit; [reflexivity | exact H1] | | auto].
      cbn beta. intros _ w2 H2. apply Hrest. exact H2.
Qed.

Lemma blue_add_percent diff :
  keeps blue_shows_unpowered (modify_globals (add_percent diff)).
Proof.
  apply keeps_modify_globals. intros w Hw.
  unfold blue_shows_unpowered, blue_led in *. cbn [trace glob].
  rewrite add_percent_powered. exact Hw.
Qed.

Lemma blue_run_test_body prec emax fuel l :
  keeps blue_shows_unpowered (run_test_body prec emax fuel l).
Proof.
  unfold run_test_body.
  apply keeps_bind;
    [apply (reading_sleep_ms not_blue_duty _ blue_quiet); reflexivity
    | intros _].
  apply keeps_bind;
    [apply (reading_button_pressed not_blue_duty _ blue_quiet); reflexivity
    | intros yellow].
  apply keeps_bind; [ | intros keep_going].
  { destruct yellow; [ | apply keeps_ret].
    apply keeps_bind; [apply blue_emit; reflexivity | intros _].
    apply keeps_ret. }
  apply keeps_bind;
    [apply (reading_button_pressed not_blue_duty _ blue_quiet); reflexivity
    | intros blue].
  apply keeps_bind; [ | intros _].
  { destruct blue; [apply blue_toggle_power | apply keeps_ret]. }
  apply keeps_bind;
    [apply (reading_rotary not_blue_duty _ blue_quiet); reflexivity
    | intros r].
  destruct (negb (t_r_val_old l =? r)); [ | apply keeps_ret].
  apply keeps_bind; [apply blue_add_percent | intros _].
  apply keeps_bind; [apply blue_show_test_details | intros _].
  apply keeps_bind; [apply blue_update_servo | intros _].
  apply keeps_ret.
Qed.

(** X14.  In the servo test the blue LED is lit (duty 2000) exactly while
    the servo is not powered: that holds wherever the test waits or stops;
    and when [run_test] returns, both colours of the LED are off. *)
Theorem blue_led_shows_unpowered (prec emax : Z) (fuel : nat) (w : world) :
  match run_test prec emax fuel w with
  | Done _ w' => blue_led w' = Some PWM_OFF /\ green_led w' = Some PWM_OFF
  | Blocked w' | OutOfFuel w' | Raised w' =>
      blue_led w' = Some (if g_powered (glob w') then PWM_OFF else PWM_ON)
  end.
Proof.
  change (wp (run_test prec emax fuel)
            (fun _ w' => blue_led w' = Some PWM_OFF /\
                         green_led w' = Some PWM_OFF)
            blue_shows_unpowered w).
  unfold run_test. apply wp_bind.
  destruct w as [i g t]. unfold wp at 1. rewrite run_test_init_run.
  assert (H0 : forall evs,
            last_write is_blue_duty evs = None ->
            blue_shows_unpowered
              (mkWorld i (entered g) ((t ++ entry_events g) ++ evs))).
  { intros evs He. unfold blue_shows_unpowered, blue_led. cbn [trace glob].
    rewrite last_write_app, He, last_write_app. reflexivity. }
  destruct (servo_duty prec emax (entered g)) as [d|].
  - apply (wp_keeps_bind_gen blue_shows_unpowered);
      [apply (reading_rotary not_blue_duty _ blue_quiet); reflexivity
      | rewrite app_assoc; apply H0; reflexivity | auto | ].
    intros r w2 H2.
    apply (wp_keeps_bind_gen blue_shows_unpowered);
      [ | exact H2 | auto | ].
    + unfold run_test_loop. apply keeps_while. intros l'.
      apply blue_run_test_body.
    + intros l w3 _. destruct w3 as [i3 g3 t3]. unfold wp.
      rewrite run_test_exit_run. unfold blue_led, green_led. cbn [trace].
      rewrite !last_write_app. split; reflexivity.
  - rewrite <- (app_nil_r (t ++ entry_events g)). apply H0. reflexivity.
Qed.

Lemma display_app t1 t2 : display (t1 ++ t2) = fold_left draw t2 (display t1).
Proof. apply fold_left_app. Qed.

Lemma screen_quiet (P : world -> list line -> Prop) :
  (forall w i t, P w (screen w) ->
     P {| env := i; glob := glob w; trace := t |} (screen w)) ->
  quiet not_oled (fun w => P w (screen w)).
Proof.
  intros HPg w i e Hw He.
  assert (Hs : screen {| env := i; glob := glob w; trace := trace w ++ [e] |}
               = screen w).
  { unfold screen. cbn [trace]. rewrite display_app.
    destruct e; try reflexivity; discriminate. }
  cbv beta. rewrite Hs. apply HPg. exact Hw.
Qed.

Lemma show_one_setting_events name mn mx v i g t :
  show_one_setting name mn mx v (mkWorld i g t)
  = Done tt (mkWorld i g (t ++ one_setting_events name mn mx v)).
Proof.
  unfold show_one_setting, bind, oled_fill, oled_text, oled_show, emit,
    one_setting_events.
  cbn [env glob trace]. rewrite <- !app_assoc. reflexivity.
Qed.

Lemma screen_one_setting name mn mx v i g t :
  screen (mkWorld i g (t ++ one_setting_events name mn mx v))
  = one_setting_lines name mn mx v.
Proof. unfold screen. cbn [trace]. rewrite display_app. reflexivity. Qed.

Lemma screen_test_details i g t :
  screen (mkWorld i g (t ++ test_details_events g))
  = test_details_lines (g_powered g) (g_percent g).
Proof. unfold screen. cbn [trace]. rewrite display_app. reflexivity. Qed.

(** The editor's loop draws every value it reaches before it reads
    again. *)
Lemma update_one_setting_screen fuel name mn mx orig r y bl rr g t :
  wp (update_one_setting fuel name mn mx orig)
     (fun v w' => exists shown,
        screen w' = one_setting_lines name mn mx shown /\
        (v = shown \/ v = orig))
     (fun w' => exists shown, screen w' = one_setting_lines name mn mx shown)
     (mkWorld (mkInputs y bl (r :: rr)) g t).
Proof.
  unfold update_one_setting.
  unfold wp. erewrite bind_eq by apply rotary_value_run. cbv beta.
  erewrite bind_eq by apply show_one_setting_events. cbv beta.
  match goal with
  | |- match loop _ ?body ?l ?w0 with _ => _ end =>
      change (wp (loop fuel body l)
                (fun v w' => exists shown,
                   screen w' = one_setting_lines name mn mx shown /\
                   (v = shown \/ v = orig))
                (fun w' => exists shown,
                   screen w' = one_setting_lines name mn mx shown) w0)
  end.
  apply (wp_loop
           (fun l w' => screen w' = one_setting_lines name mn mx (e_value l))).
  - intros l w' H. exists (e_value l). exact H.
  - intros l w' Hw'.
    assert (Hq : quiet not_oled
                   (fun w1 => screen w1
                              = one_setting_lines name mn mx (e_value l)))
      by (apply (screen_quiet (fun _ s => s = _)); auto).
    assert (HI : forall w1,
              screen w1 = one_setting_lines name mn mx (e_value l) ->
              exists shown, screen w1 = one_setting_lines name mn mx shown)
      by (intros w1 H1; exists (e_value l); exact H1).
    unfold update_one_setting_body.
    apply (wp_keeps_bind_gen _ _ _ _ _ _
             (reading_button_pressed not_oled _ Hq
                (fun _ => eq_refl) (fun _ _ => eq_refl) fuel button_yellow)
             Hw' HI).
    intros [|] w1 H1.
    { apply wp_ret. exists (e_value l). auto. }
    apply (wp_keeps_bind_gen _ _ _ _ _ _
             (reading_button_pressed not_oled _ Hq
                (fun _ => eq_refl) (fun _ _ => eq_refl) fuel button_blue)
             H1 HI).
    intros [|] w2 H2.
    { apply wp_ret. exists (e_value l). auto. }
    apply (wp_keeps_bind_gen _ _ _ _ _ _
             (reading_rotary not_oled _ Hq (fun _ => eq_refl)) H2 HI).
    intros r' w3 H3.
    destruct (negb (e_r_val_old l =? r')); [ | apply wp_ret; exact H3].
    destruct w3 as [i3 g3 t3]. unfold wp.
    erewrite bind_eq by apply show_one_setting_events. cbv beta.
    cbn [ret e_value]. apply screen_one_setting.
  - cbn [e_value]. apply screen_one_setting.
Qed.

(** X15.  The editor's screen is never stale: once [update_one_setting]
    has read the counter on entry, wherever it waits or stops the screen
    is the editor's screen for some value [shown], and when it returns [v]
    the screen still shows [shown] with [v = shown], or [v] is the original
    value of a cancelled session. *)
Theorem editor_screen_shows_current_value (fuel : nat) (name : string)
    (setting_min setting_max original_value : Z) (w : world)
    (Hentry : rotary_in (env w) <> []) :
  match
    update_one_setting fuel name setting_min setting_max original_value w
  with
  | Done v w' =>
      exists shown,
        screen w' = one_setting_lines name setting_min setting_max shown /\
        (v = shown \/ v = original_value)
  | Blocked w' | OutOfFuel w' | Raised w' =>
      exists shown,
        screen w' = one_setting_lines name setting_min setting_max shown
  end.
Proof.
  destruct w as [[y bl [|r rr]] g t]; [cbn in Hentry; congruence | ].
  exact (update_one_setting_screen fuel name setting_min setting_max
           original_value r y bl rr g t).
Qed.

(** The editor left waiting after one turn of the knob. *)
Lemma editor_screen_shows_current_value_witness :
  exists shown,
    screen (world_of (update_one_setting 3 "frequency" 10 200 50
                        (initial_world (mkInputs [1; 1] [1] [0; -3]))))
    = one_setting_lines "frequency" 10 200 shown.
Proof.
  pose proof (editor_screen_shows_current_value 3 "frequency" 10 200 50
                (initial_world (mkInputs [1; 1] [1] [0; -3]))) as H.
  destruct (update_one_setting 3 "frequency" 10 200 50
              (initial_world (mkInputs [1; 1] [1] [0; -3])))
    as [v w'|w'|w'|w']; cbn [world_of].
  - destruct H as (shown & H & _); [cbn; discriminate | ].
    exists shown. exact H.
  - apply H. cbn. discriminate.
  - apply H. cbn. discriminate.
  - apply H. cbn. discriminate.
Defined.

(** The screen of the servo test shows the power flag and the percent. *)
Section TestScreen.

Variables prec emax : Z.

Let P : world -> Prop :=
  fun w => screen w
           = test_details_lines (g_powered (glob w)) (g_percent (glob w)).

Lemma test_screen_quiet : quiet not_oled P.
Proof.
  apply (screen_quiet
           (fun w s => s = test_details_lines (g_powered (glob w))
                             (g_percent (glob w)))).
  intros w i t H. exact H.
Qed.

Lemma test_screen_emit e : not_oled e = true -> keeps P (emit e).
Proof.
  intros He. apply (keeps_emit not_oled); [exact test_screen_quiet | exact He].
Qed.

Lemma test_screen_update_servo : keeps P (update_servo prec emax).
Proof.
  unfold update_servo. apply keeps_bind; [apply keeps_get_globals | ].
  intros g. destruct (servo_duty prec emax g); [ | apply keeps_raise].
  apply test_screen_emit. reflexivity.
Qed.

(** [show_test_details] draws the screen of the current globals, whatever
    was shown before. *)
Lemma test_screen_redraw w Q :
  (forall w', P w' -> Q tt w') ->
  wp show_test_details Q (fun _ => False) w.
Proof.
  intros HQ. destruct w as [i g t]. unfold wp.
  rewrite show_test_details_run. apply HQ. apply screen_test_details.
Qed.

Lemma test_screen_redraw_update w :
  wp (show_test_details ;; update_servo prec emax) (fun _ w' => P w') P w.
Proof.
  apply wp_bind.
  eapply wp_mono; [apply (test_screen_redraw w (fun _ w' => P w')); auto | | ].
  - cbn beta. intros _ w1 H1. apply test_screen_update_servo. exact H1.
  - intros w1 [].
Qed.

Lemma test_screen_toggle_power : keeps P (toggle_power prec emax).
Proof.
  intros w _. unfold toggle_power.
  apply wp_bind, wp_modify_globals, wp_bind, wp_get_globals. cbn [glob].
  apply wp_bind.
  destruct (negb (g_powered (glob w))); cbn [set_g_powered g_powered];
    apply wp_bind, wp_emit, wp_bind, wp_emit, wp_emit;
    apply test_screen_redraw_update.
Qed.

Lemma test_screen_percent_branch diff (l : test_locals) :
  keeps P (modify_globals (add_percent diff) ;;
           show_test_details ;;
           update_servo prec emax ;;
           ret l).
Proof.
  intros w _. apply wp_bind, wp_modify_globals, wp_bind.
  eapply wp_mono;
    [apply (test_screen_redraw _ (fun _ w' => P w')); auto | | ].
  - cbn beta. intros _ w1 H1.
    apply wp_keeps_bind; [apply test_screen_update_servo | exact H1 | ].
    intros _ w2 H2. exact H2.
  - intros w1 [].
Qed.

Lemma test_screen_run_test_body fuel l :
  keeps P (run_test_body prec emax fuel l).
Proof.
  unfold run_test_body.
  apply keeps_bind;
    [apply (reading_sleep_ms not_oled _ test_screen_quiet); reflexivity
    | intros _].
  apply keeps_bind;
    [apply (reading_button_pressed not_oled _ test_screen_quiet); reflexivity
    | intros yellow].
  apply keeps_bind; [ | intros keep_going].
  { destruct yellow; [ | apply keeps_ret].
    apply keeps_bind; [apply test_screen_emit; reflexivity | intros _].
    apply keeps_ret. }
  apply keeps_bind;
    [apply (reading_button_pressed not_oled _ test_screen_quiet); reflexivity
    | intros blue].
  apply keeps_bind; [ | intros _].
  { destruct blue; [apply test_screen_toggle_power | apply keeps_ret]. }
  apply keeps_bind;
    [apply (reading_rotary not_oled _ test_screen_quiet); reflexivity
    | intros r].
  destruct (negb (t_r_val_old l =? r)); [ | apply keeps_ret].
  apply test_screen_percent_branch.
Qed.

Lemma test_screen_run_test fuel w :
  wp (run_test prec emax fuel)
     (fun _ w' => exists powered,
        screen w' = test_details_lines powered (g_percent (glob w')))
     P w.
Proof.
  unfold run_test. apply wp_bind.
  destruct w as [i g t]. unfold wp at 1. rewrite run_test_init_run.
  assert (H0 : forall evs,
            Forall (fun e => not_oled e = true) evs ->
            P (mkWorld i (entered g) ((t ++ entry_events g) ++ evs))).
  { intros evs He. unfold P, screen. cbn [trace glob].
    rewrite display_app.
    assert (Hd : forall st,
              Forall (fun e => not_oled e = true) evs ->
              snd (fold_left draw evs st) = snd st).
    { clear. induction evs as [|e evs IH]; intros st H; [reflexivity | ].
      inversion H as [|? ? He Hevs]; subst. cbn [fold_left].
      rewrite (IH _ Hevs). destruct e; try reflexivity; discriminate. }
    rewrite (Hd _ He). unfold entry_events.
    rewrite app_assoc, display_app. reflexivity. }
  destruct (servo_duty prec emax (entered g)) as [d|].
  - apply (wp_keeps_bind_gen P);
      [apply (reading_rotary not_oled _ test_screen_quiet); reflexivity
      | rewrite app_assoc; apply H0; repeat constructor | auto | ].
    intros r w2 H2.
    apply (wp_keeps_bind_gen P); [ | exact H2 | auto | ].
    + unfold run_test_loop. apply keeps_while. intros l'.
      apply test_screen_run_test_body.
    + intros l w3 H3. destruct w3 as [i3 g3 t3]. unfold wp.
      rewrite run_test_exit_run. exists (g_powered g3).
      unfold P, screen in *. cbn [trace glob] in *.
      rewrite display_app. exact H3.
  - rewrite <- (app_nil_r (t ++ entry_events g)). apply H0. constructor.
Qed.

End TestScreen.

(** X16.  The screen of the servo test is never stale: wherever [run_test]
    waits or stops, the screen shows the current [g_powered] and
    [g_percent]; when it returns, the screen still shows the current
    percent (the power line is the one of the last pass). *)
Theorem test_screen_shows_power_and_percent (prec emax : Z) (fuel : nat)
    (w : world) :
  match run_test prec emax fuel w with
  | Done _ w' =>
      exists powered,
        screen w' = test_details_lines powered (g_percent (glob w'))
  | Blocked w' | OutOfFuel w' | Raised w' =>
      screen w'
      = test_details_lines (g_powered (glob w')) (g_percent (glob w'))
  end.
Proof. exact (test_screen_run_test prec emax fuel w). Qed.

(** ** The counter samples behind the deltas

    What is said of the counter alone (of the samples it still holds and of
    the value it gave last) is kept by everything but a read of the
    counter; when it also survives such a read, the whole script keeps
    it. *)
Section Counter.

Variables prec emax : Z.
Variable R : list Z -> option Z -> Prop.

Lemma counter_emit e :
  is_rotary_read e = None -> keeps (counter_state R) (emit e).
Proof.
  intros He w Hw. unfold wp, emit, counter_state, counter_read in *.
  cbn [env trace]. rewrite last_write_snoc, He. exact Hw.
Qed.

Lemma counter_modify f : keeps (counter_state R) (modify_globals f).
Proof. intros w Hw. exact Hw. Qed.

Lemma counter_pin b : keeps (counter_state R) (pin_value b).
Proof.
  intros w Hw. unfold wp, pin_value, counter_state, counter_read in *.
  destruct b; [destruct (yellow_in (env w)) | destruct (blue_in (env w))];
    cbn [env trace rotary_in]; try exact Hw;
    rewrite last_write_snoc; exact Hw.
Qed.

Hint Resolve counter_modify counter_pin : keeps_db.
Hint Extern 1 (keeps (counter_state _) (emit _)) =>
  (apply counter_emit; reflexivity) : keeps_db.

Ltac counter_seq :=
  unfold sleep_ms, relay_value, pwm_freq, pwm_duty_u16, oled_fill, oled_text,
    oled_show;
  keeps_seq.

Lemma counter_wait_release fuel b :
  keeps (counter_state R) (wait_release fuel b).
Proof.
  induction fuel as [|f IH]; cbn [wait_release];
    [apply keeps_out_of_fuel|].
  counter_seq.
Qed.
Hint Resolve counter_wait_release : keeps_db.

Lemma counter_button_pressed fuel b :
  keeps (counter_state R) (button_pressed fuel b).
Proof. unfold button_pressed. counter_seq. Qed.

Lemma counter_show_one_setting name mn mx v :
  keeps (counter_state R) (show_one_setting name mn mx v).
Proof. unfold show_one_setting. counter_seq. Qed.

Lemma counter_show_settings_menu which :
  keeps (counter_state R) (show_settings_menu which).
Proof. unfold show_settings_menu. counter_seq. Qed.

Lemma counter_show_main_menu which :
  keeps (counter_state R) (show_main_menu which).
Proof. unfold show_main_menu. counter_seq. Qed.

Lemma counter_show_help : keeps (counter_state R) show_help.
Proof. unfold show_help. counter_seq. Qed.

Lemma counter_show_test_details : keeps (counter_state R) show_test_details.
Proof. unfold show_test_details. counter_seq. Qed.

Hint Resolve counter_button_pressed counter_show_one_setting
  counter_show_settings_menu counter_show_main_menu counter_show_help
  counter_show_test_details : keeps_db.

Lemma counter_help_wait fuel : keeps (counter_state R) (help_wait fuel).
Proof. unfold help_wait. apply keeps_loop. intros []. counter_seq. Qed.

Lemma counter_update_servo : keeps (counter_state R) (update_servo prec emax).
Proof.
  unfold update_servo. apply keeps_bind; [apply keeps_get_globals|].
  intros g. destruct (servo_duty prec emax g);
    [apply counter_emit; reflexivity | apply keeps_raise].
Qed.
Hint Resolve counter_help_wait counter_update_servo : keeps_db.

Lemma counter_toggle_power : keeps (counter_state R) (toggle_power prec emax).
Proof. unfold toggle_power. counter_seq. Qed.

Lemma counter_run_test_init :
  keeps (counter_state R) (run_test_init prec emax).
Proof. unfold run_test_init. counter_seq. Qed.

Lemma counter_run_test_exit : keeps (counter_state R) run_test_exit.
Proof. unfold run_test_exit. counter_seq. Qed.

Hint Resolve counter_toggle_power counter_run_test_init counter_run_test_exit
  : keeps_db.

(** A read answers [v] and leaves the samples after it. *)
Hypothesis R_read : forall v rest o, R (v :: rest) o -> R rest (Some v).

Lemma counter_rotary : keeps (counter_state R) rotary_value.
Proof.
  intros w Hw. unfold wp, rotary_value, counter_state, counter_read in *.
  destruct (rotary_in (env w)) as [|v rest] eqn:E; [rewrite E; exact Hw | ].
  cbn [env trace rotary_in]. rewrite last_write_snoc. cbn [is_rotary_read].
  eapply R_read. exact Hw.
Qed.
Hint Resolve counter_rotary : keeps_db.

Lemma counter_update_one_setting fuel name mn mx orig :
  keeps (counter_state R) (update_one_setting fuel name mn mx orig).
Proof.
  unfold update_one_setting. counter_seq.
  apply keeps_loop. intros l. unfold update_one_setting_body. counter_seq.
Qed.
Hint Resolve counter_update_one_setting : keeps_db.

Lemma counter_set_frequency fuel :
  keeps (counter_state R) (set_frequency fuel).
Proof. unfold set_frequency. counter_seq. Qed.

Lemma counter_set_min fuel : keeps (counter_state R) (set_min fuel).
Proof. unfold set_min. counter_seq. Qed.

Lemma counter_set_max fuel : keeps (counter_state R) (set_max fuel).
Proof. unfold set_max. counter_seq. Qed.

Hint Resolve counter_set_frequency counter_set_min counter_set_max : keeps_db.

Lemma counter_settings fuel : keeps (counter_state R) (settings fuel).
Proof.
  unfold settings. counter_seq.
  unfold settings_loop. apply keeps_while. intros l.
  unfold settings_body. counter_seq.
Qed.

Lemma counter_run_test fuel :
  keeps (counter_state R) (run_test prec emax fuel).
Proof.
  unfold run_test. counter_seq.
  unfold run_test_loop. apply keeps_while. intros l.
  unfold run_test_body. counter_seq.
Qed.

End Counter.

Lemma wp_rotary_value Q I w :
  (forall v rest, rotary_in (env w) = v :: rest ->
     Q v {| env := {| yellow_in := yellow_in (env w);
                      blue_in := blue_in (env w); rotary_in := rest |};
            glob := glob w; trace := trace w ++ [RotaryRead v] |}) ->
  I w -> wp rotary_value Q I w.
Proof.
  intros HQ HI. unfold wp, rotary_value.
  destruct (rotary_in (env w)) as [|v rest]; [exact HI | ].
  apply HQ. reflexivity.
Qed.

(** The samples taken since [w], and the sample [r] read last. *)
Section Since.

Variables prec emax : Z.
Variable w : world.

Lemma taken_since_now : counter_state (taken_since w) w.
Proof. exists []. reflexivity. Qed.

Lemma taken_since_read v rest o :
  taken_since w (v :: rest) o -> taken_since w rest (Some v).
Proof.
  intros [taken E]. exists (taken ++ [v]). rewrite <- app_assoc. exact E.
Qed.

Lemma last_sample_read w1 v rest :
  counter_state (taken_since w) w1 -> rotary_in (env w1) = v :: rest ->
  last_sample w
    {| env := {| yellow_in := yellow_in (env w1); blue_in := blue_in (env w1);
                 rotary_in := rest |};
       glob := glob w1; trace := trace w1 ++ [RotaryRead v] |} v.
Proof.
  intros [taken E] Er. split.
  - exists taken. cbn [env rotary_in]. rewrite <- Er. exact E.
  - unfold counter_read. cbn [trace]. rewrite last_write_snoc. reflexivity.
Qed.

Lemma only_sample_read w1 v rest :
  counter_state (none_since w) w1 -> rotary_in (env w1) = v :: rest ->
  only_sample w
    {| env := {| yellow_in := yellow_in (env w1); blue_in := blue_in (env w1);
                 rotary_in := rest |};
       glob := glob w1; trace := trace w1 ++ [RotaryRead v] |} v.
Proof.
  intros E Er. split.
  - cbn [env rotary_in]. rewrite <- Er. symmetry. exact E.
  - unfold counter_read. cbn [trace]. rewrite last_write_snoc. reflexivity.
Qed.

(** One step of a pass under a property of the counter. *)
Ltac step_with P :=
  lazymatch goal with
  | H : P ?w0 |- wp (bind _ _) _ _ ?w0 =>
      apply (wp_keeps_bind_done P);
      [ | exact H | clear H; intros ? ? H]
  end.

Lemma settings_body_sample fuel l :
  wp (settings_body fuel l)
     (fun l' w' => last_sample w w' (s_r_val_old l')) (fun _ => True) w.
Proof.
  pose proof taken_since_now as H. pose proof taken_since_read as Hr.
  unfold settings_body.
  step_with (counter_state (taken_since w));
    [unfold sleep_ms; apply counter_emit; reflexivity | ].
  step_with (counter_state (taken_since w));
    [apply counter_button_pressed | ].
  step_with (counter_state (taken_since w));
    [apply counter_button_pressed | ].
  step_with (counter_state (taken_since w)).
  { apply keeps_if; [ | apply keeps_ret].
    apply keeps_bind; [ | intros _; apply counter_show_settings_menu].
    repeat apply keeps_if;
      [apply counter_set_frequency | apply counter_set_min
      | apply counter_set_max]; exact Hr. }
  apply wp_bind, wp_rotary_value; [ | exact I]. intros r rest Er.
  pose proof (last_sample_read _ r rest H Er) as Hs. clear H.
  destruct (s_r_val_old l =? r) eqn:E; cbn [negb].
  - apply wp_ret. cbn [s_r_val_old]. apply Z.eqb_eq in E. rewrite E.
    exact Hs.
  - match type of Hs with
    | last_sample _ ?w6 _ => change (counter_state (read_last w r) w6) in Hs
    end.
    step_with (counter_state (read_last w r));
      [apply counter_show_settings_menu | ].
    apply wp_ret. exact Hs.
Qed.

Lemma main_body_sample fuel l :
  wp (main_body prec emax fuel l)
     (fun l' w' => last_sample w w' (m_r_val_old l')) (fun _ => True) w.
Proof.
  pose proof taken_since_now as H. pose proof taken_since_read as Hr.
  unfold main_body.
  step_with (counter_state (taken_since w));
    [unfold sleep_ms; apply counter_emit; reflexivity | ].
  step_with (counter_state (taken_since w));
    [unfold pwm_duty_u16; apply counter_emit; reflexivity | ].
  step_with (counter_state (taken_since w));
    [unfold pwm_duty_u16; apply counter_emit; reflexivity | ].
  step_with (counter_state (taken_since w));
    [apply counter_button_pressed | ].
  step_with (counter_state (taken_since w)).
  { apply keeps_if; [ | apply keeps_ret].
    apply keeps_bind; [ | intros _; apply counter_show_main_menu].
    repeat apply keeps_if;
      [apply counter_settings; exact Hr | apply counter_run_test; exact Hr | ].
    apply keeps_bind; [apply counter_show_help | intros _].
    apply counter_help_wait. }
  apply wp_bind, wp_rotary_value; [ | exact I]. intros r rest Er.
  pose proof (last_sample_read _ r rest H Er) as Hs. clear H.
  destruct (m_r_val_old l =? r) eqn:E; cbn [negb].
  - apply wp_ret. apply Z.eqb_eq in E. rewrite E. exact Hs.
  - match type of Hs with
    | last_sample _ ?w6 _ => change (counter_state (read_last w r) w6) in Hs
    end.
    step_with (counter_state (read_last w r));
      [apply counter_show_main_menu | ].
    apply wp_ret. exact Hs.
Qed.

Lemma update_one_setting_body_sample fuel name mn mx orig l :
  wp (update_one_setting_body fuel name mn mx orig l)
     (fun x w' =>
        match x with
        | Continue l' => only_sample w w' (e_r_val_old l')
        | Return _ => True
        end)
     (fun _ => True) w.
Proof.
  assert (H : counter_state (none_since w) w) by reflexivity.
  unfold update_one_setting_body.
  step_with (counter_state (none_since w));
    [apply counter_button_pressed | ].
  match goal with a : bool |- _ => destruct a end; [apply wp_ret; exact I | ].
  step_with (counter_state (none_since w));
    [apply counter_button_pressed | ].
  match goal with a : bool |- _ => destruct a end; [apply wp_ret; exact I | ].
  apply wp_bind, wp_rotary_value; [ | exact I]. intros r rest Er.
  pose proof (only_sample_read _ r rest H Er) as Hs. clear H.
  destruct (e_r_val_old l =? r) eqn:E; cbn [negb].
  - apply wp_ret. apply Z.eqb_eq in E. rewrite E. exact Hs.
  - match type of Hs with
    | only_sample _ ?w6 _ => change (counter_state (read_only w r) w6) in Hs
    end.
    step_with (counter_state (read_only w r));
      [apply counter_show_one_setting | ].
    apply wp_ret. exact Hs.
Qed.

Lemma run_test_body_sample fuel l :
  wp (run_test_body prec emax fuel l)
     (fun l' w' => only_sample w w' (t_r_val_old l')) (fun _ => True) w.
Proof.
  assert (H : counter_state (none_since w) w) by reflexivity.
  unfold run_test_body.
  step_with (counter_state (none_since w));
    [unfold sleep_ms; apply counter_emit; reflexivity | ].
  step_with (counter_state (none_since w));
    [apply counter_button_pressed | ].
  step_with (counter_state (none_since w)).
  { apply keeps_if; [ | apply keeps_ret].
    apply keeps_bind; [ | intros _; apply keeps_ret].
    unfold pwm_duty_u16; apply counter_emit; reflexivity. }
  step_with (counter_state (none_since w));
    [apply counter_button_pressed | ].
  step_with (counter_state (none_since w)).
  { apply keeps_if; [apply counter_toggle_power | apply keeps_ret]. }
  apply wp_bind, wp_rotary_value; [ | exact I]. intros r rest Er.
  pose proof (only_sample_read _ r rest H Er) as Hs. clear H.
  destruct (t_r_val_old l =? r) eqn:E; cbn [negb].
  - apply wp_ret. apply Z.eqb_eq in E. cbn [t_r_val_old]. rewrite E.
    exact Hs.
  - match type of Hs with
    | only_sample _ ?w6 _ => change (counter_state (read_only w r) w6) in Hs
    end.
    step_with (counter_state (read_only w r)); [apply counter_modify | ].
    step_with (counter_state (read_only w r));
      [apply counter_show_test_details | ].
    step_with (counter_state (read_only w r));
      [apply counter_update_servo | ].
    apply wp_ret. exact Hs.
Qed.

End Since.

(** ** Turning the knob in the two menus *)

Lemma show_main_menu_events which i g t :
  show_main_menu which (mkWorld i g t)
  = Done tt (mkWorld i g (t ++ main_menu_events which)).
Proof.
  unfold show_main_menu, bind, oled_fill, oled_text, oled_show, emit,
    main_menu_events.
  cbn [env glob trace]. rewrite <- !app_assoc. reflexivity.
Qed.

Lemma show_settings_menu_events which i g t :
  show_settings_menu which (mkWorld i g t)
  = Done tt (mkWorld i g (t ++ settings_menu_events which g)).
Proof.
  unfold show_settings_menu, bind, get_globals, oled_fill, oled_text,
    oled_show, emit, settings_menu_events.
  cbn [env glob trace]. rewrite <- !app_assoc. reflexivity.
Qed.

(** A pass of the main menu in which the blue button is up. *)
Lemma main_body_turn prec emax F r_old which r y bl rr g t :
  exists t',
    main_body prec emax F {| m_r_val_old := r_old; m_which := which |}
      (mkWorld (mkInputs y (1 :: bl) (r :: rr)) g t)
    = Done {| m_r_val_old := r;
              m_which := if r_old =? r then which
                         else clamp (which + (r_old - r)) 0 2 |}
        (mkWorld (mkInputs y bl rr) g t')
    /\ (snd (display t) = main_menu_lines which ->
        snd (display t')
        = main_menu_lines (if r_old =? r then which
                           else clamp (which + (r_old - r)) 0 2)).
Proof.
  unfold main_body.
  erewrite bind_eq by apply emit_run. cbv beta.
  erewrite bind_eq by apply emit_run. cbv beta.
  erewrite bind_eq by apply emit_run. cbv beta.
  erewrite bind_eq by apply button_pressed_released_blue. cbv beta iota.
  erewrite bind_eq by reflexivity. cbv beta.
  erewrite bind_eq by apply rotary_value_run. cbv beta.
  cbn [m_r_val_old m_which]. destruct (r_old =? r) eqn:E; cbn [negb].
  - apply Z.eqb_eq in E. subst r. eexists. split; [reflexivity | ].
    intros Hs. rewrite <- !app_assoc, display_app. exact Hs.
  - erewrite bind_eq by apply show_main_menu_events. cbv beta.
    eexists. split; [reflexivity | intros _].
    rewrite display_app. reflexivity.
Qed.

(** A pass of the settings menu in which both buttons are up. *)
Lemma settings_body_turn F kg r_old which r y bl rr g t :
  exists t',
    settings_body F
      {| s_keep_going := kg; s_r_val_old := r_old; s_which := which |}
      (mkWorld (mkInputs (1 :: y) (1 :: bl) (r :: rr)) g t)
    = Done {| s_keep_going := kg; s_r_val_old := r;
              s_which := if r_old =? r then which
                         else clamp (which + (r_old - r)) 0 2 |}
        (mkWorld (mkInputs y bl rr) g t')
    /\ (snd (display t) = settings_menu_lines which g ->
        snd (display t')
        = settings_menu_lines (if r_old =? r then which
                               else clamp (which + (r_old - r)) 0 2) g).
Proof.
  unfold settings_body.
  erewrite bind_eq by apply emit_run. cbv beta.
  erewrite bind_eq by apply button_pressed_released_yellow. cbv beta iota.
  erewrite bind_eq by apply button_pressed_released_blue. cbv beta iota.
  erewrite bind_eq by reflexivity. cbv beta.
  erewrite bind_eq by apply rotary_value_run. cbv beta.
  cbn [s_r_val_old s_which s_keep_going].
  destruct (r_old =? r) eqn:E; cbn [negb].
  - apply Z.eqb_eq in E. subst r. eexists. split; [reflexivity | ].
    intros Hs. rewrite <- !app_assoc, display_app. exact Hs.
  - erewrite bind_eq by apply show_settings_menu_events. cbv beta.
    eexists. split; [reflexivity | intros _].
    rewrite display_app. reflexivity.
Qed.

Lemma edits_in_range mn mx (rs : list Z) :
  mn <= mx -> forall r_old value,
  mn <= value <= mx -> mn <= edits mn mx r_old value rs <= mx.
Proof.
  intros Hb. induction rs as [|r rs IH]; intros r_old value Hv; [exact Hv | ].
  cbn [edits]. apply IH. destruct (r_old =? r); [exact Hv | ].
  apply clamp_range. exact Hb.
Qed.

Lemma last_cons_seen (r : Z) (rs : list Z) (r_old : Z) :
  last (r :: rs) r_old = last rs r.
Proof.
  destruct rs as [|a rs']; [reflexivity | ].
  apply (last_cons_default a rs' r_old r).
Qed.

(** The passes of the main menu in which the blue button is up: the
    cursor follows the counter values [rs] as [edits] does. *)
Lemma main_loop_turns prec emax F (rs : list Z) :
  forall fuel r_old which y bl rr g t,
  (List.length rs <= fuel)%nat ->
  exists t',
    while fuel (fun _ => true) (main_body prec emax F)
      {| m_r_val_old := r_old; m_which := which |}
      (mkWorld (mkInputs y (repeat 1 (List.length rs) ++ bl) (rs ++ rr)) g t)
    = while (fuel - List.length rs) (fun _ => true) (main_body prec emax F)
        {| m_r_val_old := last rs r_old;
           m_which := edits 0 2 r_old which rs |}
        (mkWorld (mkInputs y bl rr) g t')
    /\ (snd (display t) = main_menu_lines which ->
        snd (display t') = main_menu_lines (edits 0 2 r_old which rs)).
Proof.
  induction rs as [|r rs IH]; intros fuel r_old which y bl rr g t Hf.
  - exists t. rewrite Nat.sub_0_r. split; [reflexivity | auto].
  - destruct fuel as [|f]; [cbn in Hf; lia | ].
    destruct (main_body_turn prec emax F r_old which r y
                (repeat 1 (List.length rs) ++ bl) (rs ++ rr) g t)
      as (t1 & Hbody & Hs1).
    destruct (IH f r (if r_old =? r then which
                      else clamp (which + (r_old - r)) 0 2)
                y bl rr g t1) as (t2 & Hloop & Hs2);
      [cbn in Hf; lia | ].
    exists t2. split; [ | auto].
    cbn [List.length Nat.sub while repeat app].
    erewrite bind_eq by exact Hbody.
    rewrite Hloop. cbn [edits]. rewrite last_cons_seen. reflexivity.
Qed.

Lemma settings_loop_turns F (rs : list Z) :
  forall fuel r_old which y bl rr g t,
  (List.length rs <= fuel)%nat ->
  exists t',
    while fuel s_keep_going (settings_body F)
      {| s_keep_going := true; s_r_val_old := r_old; s_which := which |}
      (mkWorld (mkInputs (repeat 1 (List.length rs) ++ y)
                  (repeat 1 (List.length rs) ++ bl) (rs ++ rr)) g t)
    = while (fuel - List.length rs) s_keep_going (settings_body F)
        {| s_keep_going := true; s_r_val_old := last rs r_old;
           s_which := edits 0 2 r_old which rs |}
        (mkWorld (mkInputs y bl rr) g t')
    /\ (snd (display t) = settings_menu_lines which g ->
        snd (display t') = settings_menu_lines (edits 0 2 r_old which rs) g).
Proof.
  induction rs as [|r rs IH]; intros fuel r_old which y bl rr g t Hf.
  - exists t. rewrite Nat.sub_0_r. split; [reflexivity | auto].
  - destruct fuel as [|f]; [cbn in Hf; lia | ].
    destruct (settings_body_turn F true r_old which r
                (repeat 1 (List.length rs) ++ y)
                (repeat 1 (List.length rs) ++ bl) (rs ++ rr) g t)
      as (t1 & Hbody & Hs1).
    destruct (IH f r (if r_old =? r then which
                      else clamp (which + (r_old - r)) 0 2)
                y bl rr g t1) as (t2 & Hloop & Hs2);
      [cbn in Hf; lia | ].
    exists t2. split; [ | auto].
    cbn [List.length Nat.sub while repeat app s_keep_going].
    erewrite bind_eq by exact Hbody.
    rewrite Hloop. cbn [edits]. rewrite last_cons_seen. reflexivity.
Qed.

(** With no sample left for its first button, a pass waits there. *)
Lemma main_body_waits prec emax F l y rr g t :
  main_body prec emax F l (mkWorld (mkInputs y [] rr) g t)
  = Blocked (mkWorld (mkInputs y [] rr) g
               (t ++ [Sleep 50; PwmDuty pwm_green PWM_OFF;
                      PwmDuty pwm_blue PWM_OFF])).
Proof.
  unfold main_body.
  erewrite bind_eq by apply emit_run. cbv beta.
  erewrite bind_eq by apply emit_run. cbv beta.
  erewrite bind_eq by apply emit_run. cbv beta.
  unfold bind, button_pressed, bind, pin_value. cbn [env blue_in].
  rewrite <- !app_assoc. reflexivity.
Qed.

Lemma settings_body_waits F l bl rr g t :
  settings_body F l (mkWorld (mkInputs [] bl rr) g t)
  = Blocked (mkWorld (mkInputs [] bl rr) g (t ++ [Sleep 50])).
Proof.
  unfold settings_body.
  erewrite bind_eq by apply emit_run. cbv beta.
  unfold bind, button_pressed, bind, pin_value. cbn [env yellow_in].
  reflexivity.
Qed.

(** The main menu from the start of the script, with the knob turned
    through [rs] and no button touched: the script waits for the blue
    button with the arrow on the entry that [edits] gives. *)
Lemma main_turns prec emax fuel r0 (rs : list Z) y rr :
  (List.length rs < fuel)%nat ->
  exists w',
    main prec emax fuel
      (initial_world (mkInputs y (repeat 1 (List.length rs)) (r0 :: rs ++ rr)))
    = Blocked w' /\
    screen w' = main_menu_lines (edits 0 2 r0 0 rs) /\
    rotary_in (env w') = rr.
Proof.
  intros Hf. unfold main, initial_world.
  erewrite bind_eq by apply emit_run. cbv beta.
  erewrite bind_eq by apply emit_run. cbv beta.
  erewrite bind_eq by apply emit_run. cbv beta.
  erewrite bind_eq by apply emit_run. cbv beta.
  erewrite bind_eq by apply rotary_value_run. cbv beta.
  erewrite bind_eq by apply show_main_menu_events. cbv beta.
  unfold main_loop.
  match goal with
  | |- context [mkWorld _ _ ?t0] =>
      destruct (main_loop_turns prec emax fuel rs fuel r0 0 y [] rr
                  initial_globals t0) as (t' & Hloop & Hs); [lia | ]
  end.
  rewrite app_nil_r in Hloop. rewrite Hloop.
  destruct (fuel - List.length rs)%nat as [|k] eqn:Ek; [lia | ].
  cbn [while]. unfold bind at 1. rewrite main_body_waits.
  eexists. split; [reflexivity | ]. split; [ | reflexivity].
  unfold screen. cbn [trace]. rewrite display_app. cbn [fold_left draw].
  apply Hs. rewrite display_app. reflexivity.
Qed.

(** The same for the settings menu, from any world. *)
Lemma settings_turns fuel r0 (rs : list Z) bl rr g t :
  (List.length rs < fuel)%nat ->
  exists w',
    settings fuel
      (mkWorld (mkInputs (repeat 1 (List.length rs))
                  (repeat 1 (List.length rs) ++ bl) (r0 :: rs ++ rr)) g t)
    = Blocked w' /\
    screen w' = settings_menu_lines (edits 0 2 r0 0 rs) g /\
    rotary_in (env w') = rr.
Proof.
  intros Hf. unfold settings.
  erewrite bind_eq by apply rotary_value_run. cbv beta.
  erewrite bind_eq by apply show_settings_menu_events. cbv beta.
  unfold settings_loop.
  match goal with
  | |- context [mkWorld _ _ ?t0] =>
      destruct (settings_loop_turns fuel rs fuel r0 0 [] bl rr g t0)
        as (t' & Hloop & Hs); [lia | ]
  end.
  rewrite app_nil_r in Hloop. unfold bind at 1. rewrite Hloop.
  destruct (fuel - List.length rs)%nat as [|k] eqn:Ek; [lia | ].
  cbn [while s_keep_going]. unfold bind at 1. rewrite settings_body_waits.
  eexists. split; [reflexivity | ]. split; [ | reflexivity].
  unfold screen. cbn [trace]. rewrite display_app. cbn [fold_left draw].
  apply Hs. rewrite display_app. reflexivity.
Qed.

(** A pass of the servo test in which both buttons are up and the counter
    has moved. *)
Lemma run_test_body_turn prec emax F kg r_old r y bl rr g t d :
  r_old <> r ->
  servo_duty prec emax (add_percent (r_old - r) g) = Some d ->
  run_test_body prec emax F {| t_keep_going := kg; t_r_val_old := r_old |}
    (mkWorld (mkInputs (1 :: y) (1 :: bl) (r :: rr)) g t)
  = Done {| t_keep_going := kg; t_r_val_old := r |}
      (mkWorld (mkInputs y bl rr) (add_percent (r_old - r) g)
         (t ++ [Sleep 50; PinRead button_yellow 1; PinRead button_blue 1;
                RotaryRead r]
            ++ test_details_events (add_percent (r_old - r) g)
            ++ [PwmDuty pwm_servo d])).
Proof.
  intros Hne Hd. unfold run_test_body.
  erewrite bind_eq by apply emit_run. cbv beta.
  erewrite bind_eq by apply button_pressed_released_yellow. cbv beta iota.
  erewrite bind_eq by reflexivity. cbv beta.
  erewrite bind_eq by apply button_pressed_released_blue. cbv beta iota.
  erewrite bind_eq by reflexivity. cbv beta.
  erewrite bind_eq by apply rotary_value_run. cbv beta.
  cbn [t_r_val_old t_keep_going].
  destruct (r_old =? r) eqn:E; [apply Z.eqb_eq in E; contradiction | ].
  cbn [negb].
  erewrite bind_eq by reflexivity. cbv beta. cbn [env glob trace].
  erewrite bind_eq by apply show_test_details_run. cbv beta.
  unfold update_servo, bind, get_globals. cbn [glob]. rewrite Hd.
  unfold pwm_duty_u16, emit, ret. cbn [env glob trace].
  rewrite <- !app_assoc. reflexivity.
Qed.

(** ** The menu cursors *)

(** C4.  A pass of the settings menu or of the main menu ends with a read
    of the counter.  When the pass returns, the counter value it keeps is
    the sample that this last read took from the counter, and a cursor
    that was in [[0, 2]] is left at the previous cursor plus the delta (the
    counter value seen before minus that sample), saturated to [[0, 2]].
    So after any number of passes, whatever the jumps of the counter and
    whatever the buttons do, a cursor that started in [[0, 2]] (both menus
    start at 0) is in [[0, 2]].  And with the knob turned through any
    counter values [rs] and no button touched, the settings menu (entered
    in any world) and the main menu (from the start of the script) take
    these samples and wait for a button with the arrow drawn on the entry
    that the saturated steps lead to from 0, an entry in [[0, 2]]. *)
Theorem menu_cursor_stays_in_range (prec emax : Z) (fuel : nat) :
  (forall l w l' w',
     0 <= s_which l <= 2 -> settings_body fuel l w = Done l' w' ->
     exists r_val_new,
       last_sample w w' r_val_new /\ s_r_val_old l' = r_val_new /\
       s_which l' = clamp (s_which l + (s_r_val_old l - r_val_new)) 0 2) /\
  (forall l w l' w',
     0 <= m_which l <= 2 -> main_body prec emax fuel l w = Done l' w' ->
     exists r_val_new,
       last_sample w w' r_val_new /\ m_r_val_old l' = r_val_new /\
       m_which l' = clamp (m_which l + (m_r_val_old l - r_val_new)) 0 2) /\
  (forall n l w l' w',
     0 <= s_which l <= 2 -> iter n (settings_body fuel) l w = Done l' w' ->
     0 <= s_which l' <= 2) /\
  (forall n l w l' w',
     0 <= m_which l <= 2 ->
     iter n (main_body prec emax fuel) l w = Done l' w' ->
     0 <= m_which l' <= 2) /\
  (forall r0 (rs : list Z) bl rr g t,
     (List.length rs < fuel)%nat ->
     exists w',
       settings fuel
         (mkWorld (mkInputs (repeat 1 (List.length rs))
                     (repeat 1 (List.length rs) ++ bl) (r0 :: rs ++ rr)) g t)
       = Blocked w' /\
       screen w' = settings_menu_lines (edits 0 2 r0 0 rs) g /\
       rotary_in (env w') = rr /\
       0 <= edits 0 2 r0 0 rs <= 2) /\
  (forall r0 (rs : list Z) y rr,
     (List.length rs < fuel)%nat ->
     exists w',
       main prec emax fuel
         (initial_world
            (mkInputs y (repeat 1 (List.length rs)) (r0 :: rs ++ rr)))
       = Blocked w' /\
       screen w' = main_menu_lines (edits 0 2 r0 0 rs) /\
       rotary_in (env w') = rr /\
       0 <= edits 0 2 r0 0 rs <= 2).
Proof.
  split; [ | split; [ | split; [ | split; [ | split]]]].
  - intros l w l' w' Hl H.
    pose proof (wp_done _ _ _ _ _ _ (settings_body_sample w fuel l) H) as Hs.
    pose proof (wp_done _ _ _ _ _ _ (settings_body_cursor fuel l w) H) as E.
    cbn beta in Hs, E.
    exists (s_r_val_old l'). split; [exact Hs | split; [reflexivity | ]].
    rewrite E.
    destruct (s_r_val_old l =? s_r_val_old l') eqn:Er; [ | reflexivity].
    apply Z.eqb_eq in Er. rewrite Er, Z.sub_diag, Z.add_0_r.
    symmetry. apply clamp_inside. exact Hl.
  - intros l w l' w' Hl H.
    pose proof (wp_done _ _ _ _ _ _ (main_body_sample prec emax w fuel l) H)
      as Hs.
    pose proof (wp_done _ _ _ _ _ _ (main_body_cursor prec emax fuel l w) H)
      as E.
    cbn beta in Hs, E.
    exists (m_r_val_old l'). split; [exact Hs | split; [reflexivity | ]].
    rewrite E.
    destruct (m_r_val_old l =? m_r_val_old l') eqn:Er; [ | reflexivity].
    apply Z.eqb_eq in Er. rewrite Er, Z.sub_diag, Z.add_0_r.
    symmetry. apply clamp_inside. exact Hl.
  - intros n l w l' w' Hl H.
    refine (wp_done _ _ _ _ _ _
              (wp_iter (fun l1 _ => 0 <= s_which l1 <= 2) n
                 (settings_body fuel) _ l w Hl) H).
    intros l1 w1 H1. apply settings_body_in_range. exact H1.
  - intros n l w l' w' Hl H.
    refine (wp_done _ _ _ _ _ _
              (wp_iter (fun l1 _ => 0 <= m_which l1 <= 2) n
                 (main_body prec emax fuel) _ l w Hl) H).
    intros l1 w1 H1. apply main_body_in_range. exact H1.
  - intros r0 rs bl rr g t Hf.
    destruct (settings_turns fuel r0 rs bl rr g t Hf) as (w' & H & Hs & Hr).
    exists w'. repeat split; try assumption;
      apply (edits_in_range 0 2 rs); lia.
  - intros r0 rs y rr Hf.
    destruct (main_turns prec emax fuel r0 rs y rr Hf) as (w' & H & Hs & Hr).
    exists w'. repeat split; try assumption;
      apply (edits_in_range 0 2 rs); lia.
Qed.

(** A single jump of a million steps in the main menu, from the first
    entry; one step back in the settings menu, from the last; and the main
    menu after the counter went 0, -1, -1000000, -999999: the arrow is on
    the second entry. *)
Lemma menu_cursor_stays_in_range_witness :
  (exists l' w',
     main_body 24 128 1 {| m_r_val_old := 0; m_which := 0 |}
       (initial_world (mkInputs [] [1] [-1000000])) = Done l' w' /\
     m_r_val_old l' = -1000000 /\ m_which l' = 2) /\
  (exists l' w',
     settings_body 1
       {| s_keep_going := true; s_r_val_old := 5; s_which := 2 |}
       (initial_world (mkInputs [1] [1] [6])) = Done l' w' /\
     s_r_val_old l' = 6 /\ s_which l' = 1) /\
  (exists w',
     main 24 128 4
       (initial_world (mkInputs [] [1; 1; 1] [0; -1; -1000000; -999999]))
     = Blocked w' /\
     screen w' = main_menu_lines 1).
Proof.
  split; [ | split].
  - destruct (main_body 24 128 1 {| m_r_val_old := 0; m_which := 0 |}
                (initial_world (mkInputs [] [1] [-1000000])))
      as [l' w'| | |] eqn:E.
    2-4: vm_compute in E; discriminate.
    exists l', w'. split; [reflexivity | ].
    destruct (proj1 (proj2 (menu_cursor_stays_in_range 24 128 1))
                {| m_r_val_old := 0; m_which := 0 |}
                (initial_world (mkInputs [] [1] [-1000000])) l' w')
      as (r & [[taken Hin] _] & Hr & Hw); [cbn; lia | exact E | ].
    vm_compute in E. injection E as _ Ew. subst w'. cbn in Hin.
    destruct taken as [|a [|b taken]]; try discriminate.
    injection Hin as <-. rewrite Hr, Hw. split; reflexivity.
  - destruct (settings_body 1
                {| s_keep_going := true; s_r_val_old := 5; s_which := 2 |}
                (initial_world (mkInputs [1] [1] [6])))
      as [l' w'| | |] eqn:E.
    2-4: vm_compute in E; discriminate.
    exists l', w'. split; [reflexivity | ].
    destruct (proj1 (menu_cursor_stays_in_range 24 128 1)
                {| s_keep_going := true; s_r_val_old := 5; s_which := 2 |}
                (initial_world (mkInputs [1] [1] [6])) l' w')
      as (r & [[taken Hin] _] & Hr & Hw); [cbn; lia | exact E | ].
    vm_compute in E. injection E as _ Ew. subst w'. cbn in Hin.
    destruct taken as [|a [|b taken]]; try discriminate.
    injection Hin as <-. rewrite Hr, Hw. split; reflexivity.
  - destruct (proj2 (proj2 (proj2 (proj2 (proj2
                (menu_cursor_stays_in_range 24 128 4)))))
                0 [-1; -1000000; -999999] [] [])
      as (w' & H & Hs & _); [cbn; lia | ].
    exists w'. split; [exact H | exact Hs].
Defined.

(** ** The delta of a poll *)

(** C2, as the script has it.  Every poll loop (main menu, settings menu,
    value editing, servo test) ends its pass with a read of the counter
    (the only read of the pass in the editor and in the servo test).  When
    the pass goes on, the counter value it keeps is the sample that this
    read took from the counter, and the delta applied to the selected
    quantity is the counter value seen before minus that sample: the
    cursor of both menus, the edited value and the percent move by the net
    number of steps against the direction of the counter, each saturated
    to its range ([[0, 2]], the bounds of the setting, [[0, 100]]), and
    stay as they are when the counter has not moved.  With the buttons up,
    such a pass returns for every sample [r] of the counter (in the servo
    test, when the duty of the new percent can be computed). *)
Theorem rotary_delta_is_old_minus_new (prec emax : Z) (fuel : nat) :
  (forall l w l' w',
     main_body prec emax fuel l w = Done l' w' ->
     exists r_val_new,
       last_sample w w' r_val_new /\ m_r_val_old l' = r_val_new /\
       m_which l' =
       if m_r_val_old l =? r_val_new then m_which l
       else clamp (m_which l + (m_r_val_old l - r_val_new)) 0 2) /\
  (forall l w l' w',
     settings_body fuel l w = Done l' w' ->
     exists r_val_new,
       last_sample w w' r_val_new /\ s_r_val_old l' = r_val_new /\
       s_which l' =
       if s_r_val_old l =? r_val_new then s_which l
       else clamp (s_which l + (s_r_val_old l - r_val_new)) 0 2) /\
  (forall name vmin vmax original l w l' w',
     update_one_setting_body fuel name vmin vmax original l w
     = Done (Continue l') w' ->
     exists r_val_new,
       only_sample w w' r_val_new /\ e_r_val_old l' = r_val_new /\
       e_value l' =
       if e_r_val_old l =? r_val_new then e_value l
       else clamp (e_value l + (e_r_val_old l - r_val_new)) vmin vmax) /\
  (forall l w l' w',
     run_test_body prec emax fuel l w = Done l' w' ->
     exists r_val_new,
       only_sample w w' r_val_new /\ t_r_val_old l' = r_val_new /\
       g_percent (glob w') =
       if t_r_val_old l =? r_val_new then g_percent (glob w)
       else clamp (g_percent (glob w) + (t_r_val_old l - r_val_new)) 0 100) /\
  (forall r_val_old which r y bl rr g t,
     exists t',
       main_body prec emax fuel
         {| m_r_val_old := r_val_old; m_which := which |}
         (mkWorld (mkInputs y (1 :: bl) (r :: rr)) g t)
       = Done {| m_r_val_old := r;
                 m_which := if r_val_old =? r then which
                            else clamp (which + (r_val_old - r)) 0 2 |}
           (mkWorld (mkInputs y bl rr) g t')) /\
  (forall keep_going r_val_old which r y bl rr g t,
     exists t',
       settings_body fuel
         {| s_keep_going := keep_going; s_r_val_old := r_val_old;
            s_which := which |}
         (mkWorld (mkInputs (1 :: y) (1 :: bl) (r :: rr)) g t)
       = Done {| s_keep_going := keep_going; s_r_val_old := r;
                 s_which := if r_val_old =? r then which
                            else clamp (which + (r_val_old - r)) 0 2 |}
           (mkWorld (mkInputs y bl rr) g t')) /\
  (forall name vmin vmax original r_val_old value r y bl rr g t,
     exists t',
       update_one_setting_body fuel name vmin vmax original
         {| e_r_val_old := r_val_old; e_value := value |}
         (mkWorld (mkInputs (1 :: y) (1 :: bl) (r :: rr)) g t)
       = Done (Continue
                 {| e_r_val_old := r;
                    e_value := if r_val_old =? r then value
                               else clamp (value + (r_val_old - r))
                                      vmin vmax |})
           (mkWorld (mkInputs y bl rr) g t')) /\
  (forall keep_going r_val_old r y bl rr g t d,
     r_val_old <> r ->
     servo_duty prec emax (add_percent (r_val_old - r) g) = Some d ->
     exists g' t',
       run_test_body prec emax fuel
         {| t_keep_going := keep_going; t_r_val_old := r_val_old |}
         (mkWorld (mkInputs (1 :: y) (1 :: bl) (r :: rr)) g t)
       = Done {| t_keep_going := keep_going; t_r_val_old := r |}
           (mkWorld (mkInputs y bl rr) g' t') /\
       g_percent g' = clamp (g_percent g + (r_val_old - r)) 0 100).
Proof.
  repeat match goal with |- _ /\ _ => split end.
  - intros l w l' w' H. exists (m_r_val_old l').
    split; [ | split; [reflexivity | ]].
    + exact (wp_done _ _ _ _ _ _ (main_body_sample prec emax w fuel l) H).
    + exact (wp_done _ _ _ _ _ _ (main_body_cursor prec emax fuel l w) H).
  - intros l w l' w' H. exists (s_r_val_old l').
    split; [ | split; [reflexivity | ]].
    + exact (wp_done _ _ _ _ _ _ (settings_body_sample w fuel l) H).
    + exact (wp_done _ _ _ _ _ _ (settings_body_cursor fuel l w) H).
  - intros name vmin vmax original l w l' w' H. exists (e_r_val_old l').
    split; [ | split; [reflexivity | ]].
    + exact (wp_done _ _ _ _ _ _
               (update_one_setting_body_sample w fuel name vmin vmax
                  original l) H).
    + exact (wp_done _ _ _ _ _ _
               (update_one_setting_body_value fuel name vmin vmax original
                  l w) H).
  - intros l w l' w' H. exists (t_r_val_old l').
    split; [ | split; [reflexivity | ]].
    + exact (wp_done _ _ _ _ _ _ (run_test_body_sample prec emax w fuel l) H).
    + exact (wp_done _ _ _ _ _ _ (run_test_body_percent prec emax fuel l w) H).
  - intros r_old which r y bl rr g t.
    destruct (main_body_turn prec emax fuel r_old which r y bl rr g t)
      as (t' & H & _).
    exists t'. exact H.
  - intros kg r_old which r y bl rr g t.
    destruct (settings_body_turn fuel kg r_old which r y bl rr g t)
      as (t' & H & _).
    exists t'. exact H.
  - intros name vmin vmax original r_old value r y bl rr g t.
    destruct (edit_body_idle fuel name vmin vmax original r_old value r
                y bl rr g t) as (t' & H & _).
    exists t'. exact H.
  - intros kg r_old r y bl rr g t d Hne Hd.
    eexists. eexists. split.
    + apply (run_test_body_turn prec emax fuel kg r_old r y bl rr g t d);
        assumption.
    + apply add_percent_clamp.
Qed.

(** The percent after the counter went from 0 to 10 in the servo test:
    40. *)
Lemma rotary_delta_is_old_minus_new_witness :
  exists l' w',
    run_test_body 24 128 1 {| t_keep_going := true; t_r_val_old := 0 |}
      (initial_world (mkInputs [1] [1] [10])) = Done l' w' /\
    t_r_val_old l' = 10 /\ g_percent (glob w') = 40.
Proof.
  destruct (run_test_body 24 128 1
              {| t_keep_going := true; t_r_val_old := 0 |}
              (initial_world (mkInputs [1] [1] [10])))
    as [l' w'| | |] eqn:E.
  2-4: vm_compute in E; discriminate.
  exists l', w'. split; [reflexivity | ].
  destruct (proj1 (proj2 (proj2 (proj2
              (rotary_delta_is_old_minus_new 24 128 1))))
              {| t_keep_going := true; t_r_val_old := 0 |}
              (initial_world (mkInputs [1] [1] [10])) l' w' E)
    as (r & [Hin _] & Hr & Hp).
  vm_compute in E. injection E as _ Ew. subst w'. cbn in Hin.
  injection Hin as <-. rewrite Hr. split; [reflexivity | exact Hp].
Defined.

(** C2 as the specification states it fails: in an editing poll that sees the counter
    go from 0 to 1, the value 50 becomes 49, not 50 + (1 - 0). *)
Lemma rotary_delta_new_minus_old_fails :
  match
    update_one_setting_body 1 "frequency" 10 200 50
      {| e_r_val_old := 0; e_value := 50 |}
      (initial_world (mkInputs [1] [1] [1]))
  with
  | Done (Continue l') _ =>
      e_r_val_old l' = 1 /\ e_value l' = 49 /\
      e_value l' <> clamp (50 + (e_r_val_old l' - 0)) 10 200
  | _ => False
  end.
Proof. vm_compute. repeat split; discriminate. Qed.
